(** * content_bruter.py: a shallow embedding and its verified properties

    The program is an asyncio directory and login brute forcer.  Its
    coroutines are modelled here as explicit state machines over the
    fields of the [WebBruter] object: a coroutine runs atomically from one
    [await] that really suspends to the next one, so every worker is a
    small automaton whose transitions are the pieces of code between two
    suspension points, and a run is an interleaving of such transitions.
    A cancellation of [run] while it waits for the workers cancels their
    tasks, as [asyncio.gather] does.  A run that waits for ever has no
    result.

    Python strings are modelled by [string]; a character is one of the 256
    values of [ascii].  Python dictionaries with string keys are [gmap]s,
    Python lists are [list]s and Python integers are [Z]. *)

From Stdlib Require Import ZArith QArith.QArith_base Ascii String.
From stdpp Require Import base strings list gmap.

Local Open Scope Z_scope.

(** ** Strings *)

Module PyStr.

(** Characters for which [str.isspace] holds, among the first 256 code
    points: TAB..CR, FS..US, SPACE, NEL and NBSP. *)
Definition is_space (c : ascii) : bool :=
  let n := nat_of_ascii c in
  ((9 <=? n) && (n <=? 13) || (28 <=? n) && (n <=? 32)
   || (n =? 133) || (n =? 160))%nat.

Definition is_char (d c : ascii) : bool := Ascii.eqb c d.

(** [s.lstrip(chars)]: drop the longest prefix made of characters
    satisfying [p]. *)
Fixpoint lstrip (p : ascii → bool) (s : string) : string :=
  match s with
  | EmptyString => EmptyString
  | String c s' => if p c then lstrip p s' else s
  end.

(** [s.rstrip(chars)]: drop the longest suffix made of characters
    satisfying [p]. *)
Fixpoint rstrip (p : ascii → bool) (s : string) : string :=
  match s with
  | EmptyString => EmptyString
  | String c s' =>
      match rstrip p s' with
      | EmptyString => if p c then EmptyString else String c EmptyString
      | r => String c r
      end
  end.

(** [s.strip()] *)
Definition strip (s : string) : string :=
  rstrip is_space (lstrip is_space s).

(** [s.startswith(pre)] *)
Fixpoint startswith (pre s : string) : bool :=
  match pre, s with
  | EmptyString, _ => true
  | String a pre', String b s' => Ascii.eqb a b && startswith pre' s'
  | String _ _, EmptyString => false
  end.

(** [sub in s] *)
Fixpoint contains (sub s : string) : bool :=
  startswith sub s ||
  match s with
  | EmptyString => false
  | String _ s' => contains sub s'
  end.

(** Truth value of a string and of a list: non-empty. *)
Definition truthy (s : string) : bool :=
  match s with EmptyString => false | _ => true end.

Definition truthy_list {A} (l : list A) : bool :=
  match l with [] => false | _ => true end.

End PyStr.

(** ** Exceptions *)

(** The exception classes the program distinguishes.  [Exception] stands
    for any instance of Python's [Exception] (OSError, aiohttp.ClientError,
    asyncio.TimeoutError, UnicodeDecodeError, ValueError, ...); the other
    two derive from [BaseException] only and are not caught by
    [except Exception]. *)
Inductive exn : Type :=
  | Exception (msg : string)
  | CancelledError
  | KeyboardInterrupt.

Definition is_Exception (e : exn) : bool :=
  match e with Exception _ => true | _ => false end.

Inductive res (A : Type) : Type :=
  | Ok (a : A)
  | Raise (e : exn).
Arguments Ok {A} a.
Arguments Raise {A} e.

(** ** Data model *)

(** A Python float, as far as [asyncio.sleep] tells floats apart: a finite
    value, the two infinities, and NaN.  The command line accepts them all
    ([type=float]). *)
Inductive pyfloat : Type :=
  | Finite (q : Q)
  | PosInf
  | NegInf
  | NaN.

Coercion Finite : Q >-> pyfloat.
Bind Scope Q_scope with pyfloat.

(** [BruteForceConfig] (a dataclass).  The delay is only ever handed to
    [asyncio.sleep]. *)
Record BruteForceConfig : Type := mkConfig {
  target_url : string;
  wordlist_path : string;
  extensions : list string;
  threads : Z;
  cookies : gmap string string;
  headers : gmap string string;
  form_data : gmap string string;
  success_indicators : list string;
  rate_limit_delay : pyfloat
}.

(** An element of [found_paths]: the directory worker appends the tuple
    [(status, url)], the Joomla worker appends the password itself. *)
Inductive found : Type :=
  | FoundPath (status : Z) (url : string)
  | FoundPassword (password : string).

Inductive session_state : Type := SessionOpen | SessionClosed.

(** The dynamic class of the object, which selects the [worker] method. *)
Inductive bruter_class : Type := WebBruterClass | JoomlaBruterClass.

Record WebBruter : Type := mkWebBruter {
  cls : bruter_class;
  config : BruteForceConfig;
  queue : list string;
  found_paths : list found;
  session : option session_state;
  stop_event : bool;
  scanned_count : Z
}.

(** [WebBruter.__init__] *)
Definition WebBruter_init (c : bruter_class) (cfg : BruteForceConfig) : WebBruter :=
  {| cls := c; config := cfg; queue := []; found_paths := [];
     session := None; stop_event := false; scanned_count := 0 |}.

Definition set_config (cfg : BruteForceConfig) (b : WebBruter) : WebBruter :=
  {| cls := cls b; config := cfg; queue := queue b;
     found_paths := found_paths b; session := session b;
     stop_event := stop_event b; scanned_count := scanned_count b |}.

Definition set_queue (q : list string) (b : WebBruter) : WebBruter :=
  {| cls := cls b; config := config b; queue := q;
     found_paths := found_paths b; session := session b;
     stop_event := stop_event b; scanned_count := scanned_count b |}.

Definition set_found_paths (l : list found) (b : WebBruter) : WebBruter :=
  {| cls := cls b; config := config b; queue := queue b;
     found_paths := l; session := session b;
     stop_event := stop_event b; scanned_count := scanned_count b |}.

Definition set_session (s : option session_state) (b : WebBruter) : WebBruter :=
  {| cls := cls b; config := config b; queue := queue b;
     found_paths := found_paths b; session := s;
     stop_event := stop_event b; scanned_count := scanned_count b |}.

Definition set_stop_event (v : bool) (b : WebBruter) : WebBruter :=
  {| cls := cls b; config := config b; queue := queue b;
     found_paths := found_paths b; session := session b;
     stop_event := v; scanned_count := scanned_count b |}.

Definition set_scanned_count (n : Z) (b : WebBruter) : WebBruter :=
  {| cls := cls b; config := config b; queue := queue b;
     found_paths := found_paths b; session := session b;
     stop_event := stop_event b; scanned_count := n |}.

(** ** The outside world *)

(** A request handed to the aiohttp session. *)
Inductive request : Type :=
  | GET (url : string) (allow_redirects : bool)
  | POST (url : string) (data : gmap string string) (allow_redirects : bool).

(** What comes back: the status line, and the outcome of [response.text()]. *)
Record response : Type := mkResponse {
  status : Z;
  text : res string
}.

(** JSON values written by [json.dump]. *)
#[warnings="-register-all"]
Inductive json : Type :=
  | JInt (n : Z)
  | JString (s : string)
  | JArray (items : list json).

(** Reading the wordlist: [open] fails, or the iteration over the file
    yields some lines and then ends, normally or with an error. *)
Inductive file_read : Type :=
  | OpenError (e : exn)
  | FileLines (lines : list string) (err : option exn).

(** Everything the program obtains from its environment. *)
Record Env : Type := mkEnv {
  (** [open(path, "r", encoding="utf-8", errors="ignore")] and the lines
      the file object yields *)
  fs_open : string → file_read;
  (** [json.load(open(path))] for the cookies and headers files *)
  json_file : string → res (gmap string string);
  (** the exception raised when building the [ClientSession], if any *)
  session_error : option exn;
  (** the target, as seen through an open session *)
  net : request → res response;
  (** hidden fields of the form named "login" in a page (BeautifulSoup) *)
  login_form : string → res (gmap string string);
  (** the exception raised by [open("found_paths.json", "w")], if any *)
  results_error : option exn
}.

(** A worker coroutine between two resumptions.  [Ready] is a task that
    was created and has not run yet; [Sleeping] is suspended in
    [asyncio.sleep]; the two [Await] states are suspended in the request
    and in [response.text()] for the candidate taken from the queue.
    [Cancelling] is a task whose cancellation has been requested:
    wherever it was suspended, [CancelledError] is thrown into it at its
    next resumption.  A task that ended with an exception is [Crashed];
    a cancelled task is [Crashed CancelledError]. *)
Inductive task : Type :=
  | Ready
  | AwaitResponse (candidate : string) (req : request)
  | AwaitText (candidate : string) (req : request) (resp : response)
  | Sleeping
  | Cancelling
  | Finished
  | Crashed (e : exn).

(** The program state: the object, the tasks of the event loop, a record
    of the effects so far (requests sent, files written), and the sessions
    that [self.session] referred to before it was rebound, each in the
    state it was left in: nothing refers to them any more. *)
Record World : Type := mkWorld {
  self : WebBruter;
  tasks : list task;
  sent : list request;
  written : list (string * json);
  dropped : list session_state
}.

Definition on_self (f : WebBruter → WebBruter) (w : World) : World :=
  {| self := f (self w); tasks := tasks w; sent := sent w;
     written := written w; dropped := dropped w |}.

Definition set_tasks (ts : list task) (w : World) : World :=
  {| self := self w; tasks := ts; sent := sent w; written := written w;
     dropped := dropped w |}.

Definition log_request (r : request) (w : World) : World :=
  {| self := self w; tasks := tasks w; sent := sent w ++ [r];
     written := written w; dropped := dropped w |}.

Definition log_write (name : string) (j : json) (w : World) : World :=
  {| self := self w; tasks := tasks w; sent := sent w;
     written := written w ++ [(name, j)]; dropped := dropped w |}.

(** [self.session = aiohttp.ClientSession(...)]: the attribute is bound to
    a new session; the session it referred to, if any, is not closed. *)
Definition bind_session (w : World) : World :=
  {| self := set_session (Some SessionOpen) (self w); tasks := tasks w;
     sent := sent w; written := written w;
     dropped := dropped w ++ option_list (session (self w)) |}.

(** ** A state and exception monad for the synchronous stretches of code *)

Definition M (A : Type) : Type := World → World * res A.

Global Instance M_ret : MRet M := λ A a w, (w, Ok a).

Global Instance M_bind : MBind M := λ A B k m w,
  match m w with
  | (w', Ok a) => k a w'
  | (w', Raise e) => (w', Raise e)
  end.

Definition raise {A} (e : exn) : M A := λ w, (w, Raise e).

Definition lift {A} (r : res A) : M A := λ w, (w, r).

Definition gets {A} (f : WebBruter → A) : M A := λ w, (w, Ok (f (self w))).

Definition effect (f : World → World) : M unit := λ w, (f w, Ok ()).

Definition modify (f : WebBruter → WebBruter) : M unit := effect (on_self f).

(** [try: m except Exception as e: h e] *)
Definition try_except {A} (m : M A) (h : exn → M A) : M A :=
  λ w, match m w with
       | (w', Raise e) => if is_Exception e then h e w' else (w', Raise e)
       | r => r
       end.

(** [try: m finally: f] *)
Definition try_finally {A} (m : M A) (f : M unit) : M A :=
  λ w, match m w with
       | (w', r) =>
           match f w' with
           | (w'', Ok _) => (w'', r)
           | (w'', Raise e) => (w'', Raise e)
           end
       end.

(** [for x in l: body x] *)
Fixpoint for_each {A} (l : list A) (body : A → M unit) : M unit :=
  match l with
  | [] => mret ()
  | x :: l' => body x ;; for_each l' body
  end.

(** ** Loading the wordlist *)

(** [await self.queue.put(x)] on the unbounded queue: never suspends. *)
Definition queue_put (x : string) : M unit :=
  modify (λ b, set_queue (queue b ++ [x]) b).

(** The body of the loop over the lines of the file. *)
Definition load_line (line : string) : M unit :=
  let word := PyStr.strip line in
  if PyStr.truthy word then
    queue_put word ;;
    exts ← gets (λ b, extensions (config b));
    if negb (PyStr.contains "." word) && PyStr.truthy_list exts then
      for_each exts (λ ext, queue_put (word +:+ ext))
    else mret ()
  else mret ().

(** [WebBruter.load_wordlist]; the handler logs and re-raises. *)
Definition load_wordlist (env : Env) : M unit :=
  try_except
    (path ← gets (λ b, wordlist_path (config b));
     match fs_open env path with
     | OpenError e => raise e
     | FileLines lines err =>
         for_each lines load_line ;;
         match err with
         | None => mret ()
         | Some e => raise e
         end
     end)
    (λ e, raise e).

(** The candidates of one word, as the specification describes them. *)
Definition entries (exts : list string) (word : string) : list string :=
  word :: (if PyStr.contains "." word then [] else (λ ext, word +:+ ext) <$> exts).

(** The non-empty trimmed lines of a file. *)
Definition words (lines : list string) : list string :=
  filter (λ w, PyStr.truthy w = true) (PyStr.strip <$> lines).

Definition lacks_separator (word : string) : Prop :=
  PyStr.contains "." word = false.

(** ** The session *)

(** [WebBruter.init_session] *)
Definition init_session (env : Env) : M unit :=
  match session_error env with
  | Some e => raise e
  | None => effect bind_session
  end.

(** [WebBruter.close_session] *)
Definition close_session : M unit :=
  s ← gets session;
  match s with
  | Some _ => modify (set_session (Some SessionClosed))
  | None => mret ()
  end.

(** Calling [self.session.get] or [self.session.post]: an exception when
    there is no session or it has been closed, else the request goes out. *)
Definition session_send (r : request) : M unit :=
  s ← gets session;
  match s with
  | None => raise (Exception "NoneType object has no attribute")
  | Some SessionClosed => raise (Exception "Session is closed")
  | Some SessionOpen => effect (log_request r)
  end.

(** ** The probes *)

(** [any(indicator in content for indicator in self.config.success_indicators)] *)
Definition any_indicator (cfg : BruteForceConfig) (content : string) : bool :=
  existsb (λ indicator, PyStr.contains indicator content)
          (success_indicators cfg).

(** [response.status in {200, 301, 302, 403}] *)
Definition interesting (st : Z) : bool :=
  (st =? 200) || (st =? 301) || (st =? 302) || (st =? 403).

Definition miss : Z * string := (0, "").

(** The f-string of [check_path]. *)
Definition check_path_url (cfg : BruteForceConfig) (path : string) : string :=
  PyStr.rstrip (PyStr.is_char "/") (target_url cfg)
  +:+ "/" +:+ PyStr.lstrip (PyStr.is_char "/") path.

(** The classification once the body has been read. *)
Definition classify (cfg : BruteForceConfig) (st : Z) (url content : string)
  : Z * string :=
  if any_indicator cfg content then (st, url)
  else if interesting st then (st, url)
  else miss.

(** [WebBruter.check_path], run without interruption: both awaits are
    answered by the environment at once. *)
Definition check_path (env : Env) (path : string) : M (Z * string) :=
  cfg ← gets config;
  let url := check_path_url cfg path in
  try_except
    (session_send (GET url false) ;;
     response ← lift (net env (GET url false));
     modify (λ b, set_scanned_count (scanned_count b + 1) b) ;;
     content ← lift (text response);
     mret (classify cfg (status response) url content))
    (λ _, mret miss).

(** The dictionary posted by [brute_force_login]: a copy of the template
    updated with the four fields, in the order of the literal. *)
Definition login_data (cfg : BruteForceConfig) (username password : string)
  : gmap string string :=
  <["option" := "com_login"]>
    (<["task" := "login"]>
       (<["passwd" := password]>
          (<["username" := username]> (form_data cfg)))).

(** [JoomlaBruter.brute_force_login], run without interruption. *)
Definition brute_force_login (env : Env) (username password : string) : M bool :=
  try_except
    (cfg ← gets config;
     let req := POST (target_url cfg) (login_data cfg username password) true in
     session_send req ;;
     response ← lift (net env req);
     content ← lift (text response);
     mret (any_indicator cfg content))
    (λ _, mret false).

(** [self.config.form_data.get("username", "admin")] *)
Definition login_username (cfg : BruteForceConfig) : string :=
  default "admin" (form_data cfg !! "username").

(** ** The workers, one resumption at a time *)

(** A [try] block whose [except Exception] handler returns [d]. *)
Definition except_return {A} (r : res A) (d : A) : res A :=
  match r with
  | Ok a => Ok a
  | Raise e => if is_Exception e then Ok d else Raise e
  end.

Definition res_map {A B} (f : A → B) (r : res A) : res B :=
  match r with
  | Ok a => Ok (f a)
  | Raise e => Raise e
  end.

Definition request_url (r : request) : string :=
  match r with
  | GET url _ => url
  | POST url _ _ => url
  end.

(** The request a worker of each class sends for a candidate. *)
Definition probe_request (c : bruter_class) (cfg : BruteForceConfig)
    (candidate : string) : request :=
  match c with
  | WebBruterClass => GET (check_path_url cfg candidate) false
  | JoomlaBruterClass =>
      POST (target_url cfg) (login_data cfg (login_username cfg) candidate) true
  end.

(** [WebBruter.worker] after [check_path] has returned or raised: the
    tuple is appended when its status is positive, then the worker sleeps. *)
Definition after_check_path (r : res (Z * string)) (w : World) : World * task :=
  match r with
  | Ok (st, url) =>
      (if 0 <? st
       then on_self (λ b, set_found_paths (found_paths b ++ [FoundPath st url]) b) w
       else w,
       Sleeping)
  | Raise e => (w, Crashed e)
  end.

(** [JoomlaBruter.worker] after [brute_force_login] has returned or
    raised: on success the password is appended and the event is set. *)
Definition after_login (password : string) (r : res bool) (w : World)
  : World * task :=
  match r with
  | Ok true =>
      (on_self (λ b, set_stop_event true
                       (set_found_paths (found_paths b ++ [FoundPassword password]) b))
               w,
       Sleeping)
  | Ok false => (w, Sleeping)
  | Raise e => (w, Crashed e)
  end.

(** An exception inside the [try] block of the probe. *)
Definition probe_failed (candidate : string) (e : exn) (w : World) : World * task :=
  match cls (self w) with
  | WebBruterClass => after_check_path (except_return (Raise e) miss) w
  | JoomlaBruterClass => after_login candidate (except_return (Raise e) false) w
  end.

(** The loop head: the [while] condition, [queue.get()] (which does not
    suspend on a non-empty queue) and the probe up to its first await. *)
Definition worker_loop (w : World) : World * task :=
  match queue (self w), stop_event (self w) with
  | candidate :: rest, false =>
      let req := probe_request (cls (self w)) (config (self w)) candidate in
      match session_send req (on_self (set_queue rest) w) with
      | (w', Ok _) => (w', AwaitResponse candidate req)
      | (w', Raise e) => probe_failed candidate e w'
      end
  | _, _ => (w, Finished)
  end.

(** Resumed from the request: [check_path] counts the response, then both
    probes await the body. *)
Definition on_response (env : Env) (candidate : string) (req : request)
    (w : World) : World * task :=
  match net env req with
  | Raise e => probe_failed candidate e w
  | Ok resp =>
      (match cls (self w) with
       | WebBruterClass =>
           on_self (λ b, set_scanned_count (scanned_count b + 1) b) w
       | JoomlaBruterClass => w
       end,
       AwaitText candidate req resp)
  end.

(** Resumed from [response.text()]: the probe concludes. *)
Definition on_text (candidate : string) (req : request) (resp : response)
    (w : World) : World * task :=
  let cfg := config (self w) in
  match cls (self w) with
  | WebBruterClass =>
      after_check_path
        (except_return
           (res_map (classify cfg (status resp) (request_url req)) (text resp))
           miss)
        w
  | JoomlaBruterClass =>
      after_login candidate
        (except_return (res_map (any_indicator cfg) (text resp)) false) w
  end.

(** [asyncio.sleep(delay)] yields once when [delay <= 0] and sets a timer
    otherwise.  A timer set to infinity never fires.  What a NaN delay does
    depends on the version of Python (newer ones refuse it with ValueError):
    it is counted with the delays after which the sleep does not return, and
    every statement about the end of a run excludes it. *)
Definition sleep_returns (delay : pyfloat) : bool :=
  match delay with
  | Finite _ | NegInf => true
  | PosInf | NaN => false
  end.

(** One resumption of a worker; [None] when the task cannot be resumed:
    it is done, or it sleeps for ever. *)
Definition worker_step (env : Env) (t : task) (w : World) : option (World * task) :=
  match t with
  | Ready => Some (worker_loop w)
  | Sleeping =>
      if sleep_returns (rate_limit_delay (config (self w)))
      then Some (worker_loop w) else None
  | AwaitResponse candidate req => Some (on_response env candidate req w)
  | AwaitText candidate req resp => Some (on_text candidate req resp w)
  | Cancelling => Some (w, Crashed CancelledError)
  | Finished | Crashed _ => None
  end.

(** The event loop resumes task [i]. *)
Definition step (env : Env) (i : nat) (w : World) : option World :=
  t ← tasks w !! i;
  r ← worker_step env t w;
  Some (set_tasks (<[i := r.2]> (tasks w)) r.1).

(** ** The engine *)

(** What happens while [run] awaits [asyncio.gather]: a task is resumed, or
    [run] is cancelled. *)
Inductive event : Type :=
  | Resume (i : nat)
  | Interrupt.

Definition live (t : task) : bool :=
  match t with
  | Finished | Crashed _ => false
  | _ => true
  end.

Fixpoint first_live (ts : list task) : option nat :=
  match ts with
  | [] => None
  | t :: ts' => if live t then Some 0%nat else S <$> first_live ts'
  end.

(** [task.cancel()]: no effect on a task that is done. *)
Definition cancel (t : task) : task :=
  if live t then Cancelling else t.

(** Cancelling [run] while it awaits [asyncio.gather] cancels the future
    of [gather], which cancels every child task. *)
Definition cancel_tasks (w : World) : World :=
  set_tasks (cancel <$> tasks w) w.

(** A task the event loop can resume: one that is not done and whose
    sleep, if it sleeps, ends. *)
Definition resumable (cfg : BruteForceConfig) (t : task) : bool :=
  match t with
  | Sleeping => sleep_returns (rate_limit_delay cfg)
  | _ => live t
  end.

Fixpoint first_resumable (cfg : BruteForceConfig) (ts : list task) : option nat :=
  match ts with
  | [] => None
  | t :: ts' =>
      if resumable cfg t then Some 0%nat else S <$> first_resumable cfg ts'
  end.

(** The next thing to happen: the head of the schedule and, once the
    schedule is used up, the resumption of the first task that can be
    resumed; nothing when every task left sleeps for ever. *)
Definition next_event (sched : list event) (w : World) : option event :=
  match sched with
  | ev :: _ => Some ev
  | [] => Resume <$> first_resumable (config (self w)) (tasks w)
  end.

(** Awaiting [asyncio.gather] on all the tasks, under a schedule.
    Events that name no task that can be resumed are skipped.  A
    cancellation cancels the tasks and throws [CancelledError] into [run].
    When nothing more can happen and a task is still not done the wait
    does not end: the result is [None].  Returns the rest of the
    schedule. *)
Fixpoint gather (env : Env) (return_exceptions : bool) (fuel : nat)
    (sched : list event) (w : World) : option (World * list event * res unit) :=
  match first_live (tasks w) with
  | None => Some (w, sched, Ok ())
  | Some _ =>
      match fuel with
      | O => None
      | S fuel' =>
          match next_event sched w with
          | None => None
          | Some Interrupt =>
              Some (cancel_tasks w, tl sched, Raise CancelledError)
          | Some (Resume i) =>
              match step env i w with
              | None => gather env return_exceptions fuel' (tl sched) w
              | Some w' =>
                  match tasks w' !! i with
                  | Some (Crashed e) =>
                      if return_exceptions
                      then gather env return_exceptions fuel' (tl sched) w'
                      else Some (w', tl sched, Raise e)
                  | _ => gather env return_exceptions fuel' (tl sched) w'
                  end
              end
          end
      end
  end.

Definition task_weight (t : task) : nat :=
  match t with
  | Ready => 1
  | AwaitResponse _ _ => 3
  | AwaitText _ _ _ => 2
  | Sleeping => 1
  | Cancelling => 1
  | Finished => 0
  | Crashed _ => 0
  end.

(** A bound on the number of resumptions still possible. *)
Definition work_left (w : World) : nat :=
  (4 * length (queue (self w)) + sum_list (task_weight <$> tasks w))%nat.

Definition gather_fuel (sched : list event) (w : World) : nat :=
  (length sched + work_left w)%nat.

(** Lines 117-121 of [run]: create the tasks. *)
Definition spawn_workers : M unit :=
  n ← gets (λ b, threads (config b));
  effect (set_tasks (replicate (Z.to_nat n) Ready)).

(** Lines 123-129 of [run]: wait for the tasks; on [CancelledError] set
    the event and wait again for the same tasks, this time collecting
    their exceptions.  [None] when a wait does not end. *)
Definition await_workers (env : Env) (sched : list event) (w : World)
  : option (World * res unit) :=
  match gather env false (gather_fuel sched w) sched w with
  | None => None
  | Some (w1, sched1, Raise CancelledError) =>
      let w2 := on_self (set_stop_event true) w1 in
      match gather env true (gather_fuel sched1 w2) sched1 w2 with
      | None => None
      | Some (w3, _, r) => Some (w3, r)
      end
  | Some (w1, _, r) => Some (w1, r)
  end.

(** [json.dump(self.found_paths, f)]: a tuple becomes an array. *)
Definition found_to_json (f : found) : json :=
  match f with
  | FoundPath st url => JArray [JInt st; JString url]
  | FoundPassword password => JString password
  end.

Definition json_dump (l : list found) : json := JArray (found_to_json <$> l).

(** Lines 131-135 of [run]. *)
Definition save_results (env : Env) : M unit :=
  l ← gets found_paths;
  if PyStr.truthy_list l then
    match results_error env with
    | Some e => raise e
    | None => effect (log_write "found_paths.json" (json_dump l))
    end
  else mret ().

(** [WebBruter.run] under a schedule of the event loop; [None] when it
    neither returns nor raises. *)
Definition run (env : Env) (sched : list event) (w : World)
  : option (World * res unit) :=
  r ← match (init_session env ;; load_wordlist env ;; spawn_workers) w with
      | (w1, Raise e) => Some (w1, Raise e)
      | (w1, Ok _) =>
          match await_workers env sched w1 with
          | None => None
          | Some (w2, Raise e) => Some (w2, Raise e)
          | Some (w2, Ok _) => Some (save_results env w2)
          end
      end;
  Some (try_finally (lift r.2) close_session r.1).

(** ** The command line *)

(** [JoomlaBruter.detect_login_form]; the handler logs and re-raises. *)
Definition detect_login_form (env : Env) : M (gmap string string) :=
  try_except
    (url ← gets (λ b, target_url (config b));
     session_send (GET url true) ;;
     response ← lift (net env (GET url true));
     content ← lift (text response);
     lift (login_form env content))
    (λ e, raise e).

(** The parsed arguments of the two sub-commands. *)
Inductive args : Type :=
  | DirArgs (url wordlist : string) (nthreads : Z) (exts : list string)
      (cookies_file headers_file : option string) (delay : pyfloat)
  | JoomlaArgs (url username wordlist : string) (nthreads : Z) (delay : pyfloat)
      (indicators : list string).

(** How the process ends: [sys.exit(n)] or normal return (code 0), or an
    exception that [main] does not catch. *)
Inductive exit : Type :=
  | ExitCode (n : Z)
  | Uncaught (e : exn).

(** [json.load(open(path)) if path else {}] *)
Definition load_optional (env : Env) (file : option string)
  : res (gmap string string) :=
  match file with
  | Some path => if PyStr.truthy path then json_file env path else Ok ∅
  | None => Ok ∅
  end.

Definition new_world (b : WebBruter) : World :=
  {| self := b; tasks := []; sent := []; written := []; dropped := [] |}.

(** [config.form_data.update(fields)] *)
Definition update_form_data (fields : gmap string string) (b : WebBruter)
  : WebBruter :=
  let cfg := config b in
  set_config
    {| target_url := target_url cfg; wordlist_path := wordlist_path cfg;
       extensions := extensions cfg; threads := threads cfg;
       cookies := cookies cfg; headers := headers cfg;
       form_data := fields ∪ form_data cfg;
       success_indicators := success_indicators cfg;
       rate_limit_delay := rate_limit_delay cfg |} b.

(** Lines 229-256 of [main]: the configuration and the object and, for the
    Joomla command, the session and the login form. *)
Definition prepare (env : Env) (a : args) : option World * res unit :=
  match a with
  | DirArgs url wordlist nthreads exts cookies_file headers_file delay =>
      match load_optional env cookies_file with
      | Raise e => (None, Raise e)
      | Ok cks =>
          match load_optional env headers_file with
          | Raise e => (None, Raise e)
          | Ok hds =>
              let cfg :=
                {| target_url := url; wordlist_path := wordlist;
                   extensions := exts; threads := nthreads;
                   cookies := cks; headers := hds; form_data := ∅;
                   success_indicators := []; rate_limit_delay := delay |} in
              (Some (new_world (WebBruter_init WebBruterClass cfg)), Ok ())
          end
      end
  | JoomlaArgs url username wordlist nthreads delay indicators =>
      let cfg :=
        {| target_url := url; wordlist_path := wordlist;
           extensions := []; threads := nthreads;
           cookies := ∅; headers := {["User-Agent" := "Mozilla/5.0"]};
           form_data := {["username" := username]};
           success_indicators := indicators; rate_limit_delay := delay |} in
      match (init_session env ;;
             fields ← detect_login_form env;
             modify (update_form_data fields))
              (new_world (WebBruter_init JoomlaBruterClass cfg)) with
      | (w, r) => (Some w, r)
      end
  end.

(** The [try] block of [main]: the preparation, then [await bruter.run()]. *)
Definition main_body (env : Env) (sched : list event) (a : args)
  : option (option World * res unit) :=
  match prepare env a with
  | (Some w, Ok _) => r ← run env sched w; Some (Some r.1, r.2)
  | (ow, r) => Some (ow, r)
  end.

(** The handlers of [main]. *)
Definition exit_of (r : res unit) : exit :=
  match r with
  | Ok _ => ExitCode 0
  | Raise e =>
      if is_Exception e then ExitCode 1
      else match e with
           | KeyboardInterrupt => ExitCode 0
           | _ => Uncaught e
           end
  end.

(** [main], as run by [asyncio.run]. *)
Definition main (env : Env) (sched : list event) (a : args)
  : option (option World * exit) :=
  r ← main_body env sched a;
  Some (r.1, exit_of r.2).

(** ** Notions used in the statements *)

(** A task that has taken a candidate and has not concluded its probe. *)
Definition in_flight (t : task) : bool :=
  match t with
  | AwaitResponse _ _ | AwaitText _ _ _ => true
  | _ => false
  end.

Definition is_substring (sub s : string) : Prop :=
  ∃ pre post, s = pre +:+ sub +:+ post.

Definition has_indicator (cfg : BruteForceConfig) (content : string) : Prop :=
  ∃ indicator, indicator ∈ success_indicators cfg ∧ is_substring indicator content.

Definition interesting_status (st : Z) : Prop :=
  st = 200 ∨ st = 301 ∨ st = 302 ∨ st = 403.

(** What can happen while [run] waits for its tasks: the event loop
    resumes a task, a cancellation of [run] cancels the tasks, and the
    handler of [run] sets the event. *)
Inductive loop_step (env : Env) : World → World → Prop :=
  | loop_resume i w w' : step env i w = Some w' → loop_step env w w'
  | loop_cancel w : loop_step env w (cancel_tasks w)
  | loop_handler w : loop_step env w (on_self (set_stop_event true) w).

(** The same without any cancellation. *)
Inductive quiet_step (env : Env) : World → World → Prop :=
  | quiet_resume i w w' : step env i w = Some w' → quiet_step env w w'
  | quiet_handler w : quiet_step env w (on_self (set_stop_event true) w).

(** Every operation [run] performs on the state, in any order. *)
Inductive engine_step (env : Env) : World → World → Prop :=
  | engine_init w : engine_step env w (init_session env w).1
  | engine_load w : engine_step env w (load_wordlist env w).1
  | engine_spawn w : engine_step env w (spawn_workers w).1
  | engine_loop w w' : loop_step env w w' → engine_step env w w'
  | engine_save w : engine_step env w (save_results env w).1
  | engine_close w : engine_step env w (close_session w).1.

(** The transport fails with ordinary exceptions only. *)
Definition ordinary_net (env : Env) : Prop :=
  ∀ req,
    match net env req with
    | Raise e => is_Exception e = true
    | Ok resp =>
        match text resp with
        | Raise e => is_Exception e = true
        | Ok _ => True
        end
    end.

(** The number of interruptions in a schedule. *)
Fixpoint interrupts (sched : list event) : nat :=
  match sched with
  | [] => 0
  | Interrupt :: sched' => S (interrupts sched')
  | Resume _ :: sched' => interrupts sched'
  end.

(** A task that awaits the body holds the response its request received. *)
Definition task_wf (env : Env) (t : task) : Prop :=
  match t with
  | AwaitText _ req resp => net env req = Ok resp
  | _ => True
  end.

(** The entries of [found_paths] a worker of each class appends. *)
Definition found_of_class (c : bruter_class) (f : found) : Prop :=
  match c, f with
  | WebBruterClass, FoundPath _ _ => True
  | JoomlaBruterClass, FoundPassword _ => True
  | _, _ => False
  end.

(** The JSON values [json.dump] writes for a hit of each class. *)
Definition json_of_class (c : bruter_class) (j : json) : Prop :=
  match c with
  | WebBruterClass => ∃ st url, j = JArray [JInt st; JString url]
  | JoomlaBruterClass => ∃ password, j = JString password
  end.

(** A two-component JSON array. *)
Definition is_pair (j : json) : Prop := ∃ a b, j = JArray [a; b].


(** The probe for a request fails: the request, or reading the body. *)
Definition probe_fails (env : Env) (req : request) : Prop :=
  match net env req with
  | Raise _ => True
  | Ok resp => ∃ e, text resp = Raise e
  end.

(** The resumption of a task in flight meets a failure of the transport. *)
Definition failing (env : Env) (t : task) : Prop :=
  match t with
  | AwaitResponse _ req => ∃ e, net env req = Raise e
  | AwaitText _ _ resp => ∃ e, text resp = Raise e
  | _ => False
  end.

Definition not_crashed (t : task) : Prop := ∀ e, t ≠ Crashed e.

(** A task that will do nothing more: cancelled, or done. *)
Definition halted (t : task) : Prop :=
  match t with
  | Cancelling | Finished | Crashed _ => True
  | _ => False
  end.

(** A task that was neither cancelled nor brought down by an exception. *)
Definition undisturbed (t : task) : Prop := t ≠ Cancelling ∧ not_crashed t.

(** The setup of [run] cannot complete: no session, or no wordlist. *)
Definition setup_failure (env : Env) (cfg : BruteForceConfig) (e : exn) : Prop :=
  session_error env = Some e
  ∨ session_error env = None
    ∧ (fs_open env (wordlist_path cfg) = OpenError e
       ∨ ∃ lines, fs_open env (wordlist_path cfg) = FileLines lines (Some e)).

(** ** Further notions: candidates, verdicts, executions *)

(** All characters of a string satisfy [p]. *)
Fixpoint all_chars (p : ascii → bool) (s : string) : bool :=
  match s with
  | EmptyString => true
  | String c s' => p c && all_chars p s'
  end.

Definition first_char (s : string) : option ascii :=
  match s with
  | EmptyString => None
  | String c _ => Some c
  end.

Fixpoint last_char (s : string) : option ascii :=
  match s with
  | EmptyString => None
  | String c s' =>
      match last_char s' with
      | None => Some c
      | Some d => Some d
      end
  end.

(** The candidate a task holds while its probe is in flight. *)
Definition candidate_of (t : task) : option string :=
  match t with
  | AwaitResponse candidate _ => Some candidate
  | AwaitText candidate _ _ => Some candidate
  | _ => None
  end.

Definition candidates_in_flight (ts : list task) : list string :=
  omap candidate_of ts.

(** What the target says about a candidate: the entry a worker of the
    given class records for it when the probe is answered, if any. *)
Definition verdict (env : Env) (c : bruter_class) (cfg : BruteForceConfig)
    (candidate : string) : option found :=
  match net env (probe_request c cfg candidate) with
  | Ok resp =>
      match text resp with
      | Ok content =>
          match c with
          | WebBruterClass =>
              let r := classify cfg (status resp)
                                (check_path_url cfg candidate) content in
              if 0 <? r.1 then Some (FoundPath r.1 r.2) else None
          | JoomlaBruterClass =>
              if any_indicator cfg content
              then Some (FoundPassword candidate) else None
          end
      | Raise _ => None
      end
  | Raise _ => None
  end.

(** A task in flight holds the request of its candidate, and the response
    that request received. *)
Definition task_ok (env : Env) (c : bruter_class) (cfg : BruteForceConfig)
    (t : task) : Prop :=
  match t with
  | AwaitResponse candidate req => req = probe_request c cfg candidate
  | AwaitText candidate req resp =>
      req = probe_request c cfg candidate ∧ net env req = Ok resp
  | _ => True
  end.

(** Resuming the tasks named by a list of indices, one after the other. *)
Fixpoint exec (env : Env) (idxs : list nat) (w : World) : option World :=
  match idxs with
  | [] => Some w
  | i :: idxs' =>
      match step env i w with
      | Some w' => exec env idxs' w'
      | None => None
      end
  end.

(** A candidate is well formed when it is not empty and does not begin
    with a whitespace character. *)
Definition well_formed_candidate (c : string) : Prop :=
  ∃ a r, c = String a r ∧ PyStr.is_space a = false.

(** What the login page yields: the answer to a GET of the page, its body,
    and the hidden fields of its login form, or the first failure met. *)
Definition form_detection (env : Env) (url : string) : res (gmap string string) :=
  match net env (GET url true) with
  | Raise e => Raise e
  | Ok resp =>
      match text resp with
      | Raise e => Raise e
      | Ok content => login_form env content
      end
  end.

(** ** Auxiliary notions of the proofs *)

(** The queue extended by a list of candidates. *)
Definition enqueue (l : list string) (w : World) : World :=
  on_self (λ b, set_queue (queue b ++ l) b) w.

(** What one line of the file contributes to the queue. *)
Definition line_entries (exts : list string) (line : string) : list string :=
  let word := PyStr.strip line in
  if PyStr.truthy word then entries exts word else [].

(** The states of a Joomla run with a single worker, for the candidates
    and the requests it started with: the candidates are those tried, the
    one in flight and those queued, in this order; the requests sent are
    those of the candidates tried or in flight; and either the event is
    not set and no candidate tried was accepted, or it is set, nothing is
    in flight, and the last candidate tried is the only one accepted and
    recorded. *)
Definition lone_worker (env : Env) (cfg : BruteForceConfig)
    (candidates : list string) (sent0 : list request) (u : World) : Prop :=
  ∃ t tried,
    tasks u = [t] ∧ task_ok env JoomlaBruterClass cfg t
    ∧ session (self u) = Some SessionOpen
    ∧ cls (self u) = JoomlaBruterClass ∧ config (self u) = cfg
    ∧ candidates = tried ++ option_list (candidate_of t) ++ queue (self u)
    ∧ sent u
      = sent0 ++ (probe_request JoomlaBruterClass cfg
                    <$> (tried ++ option_list (candidate_of t)))
    ∧ (stop_event (self u) = false ∧ found_paths (self u) = []
       ∧ Forall (λ c, verdict env JoomlaBruterClass cfg c = None) tried
       ∨ stop_event (self u) = true ∧ candidate_of t = None
         ∧ ∃ pre p,
             tried = pre ++ [p]
             ∧ Forall (λ c, verdict env JoomlaBruterClass cfg c = None) pre
             ∧ verdict env JoomlaBruterClass cfg p = Some (FoundPassword p)
             ∧ found_paths (self u) = [FoundPassword p]).

(** ** Concrete configurations, used to exercise the statements *)

Module Examples.

(** The wordlist of the enumeration scenario: three words, one of them
    with an extension, with line ends and a blank line. *)
Definition wordlist : list string :=
  ["admin" +:+ String "010" ""; "login.php" +:+ String "010" "";
   String "010" ""; " test " +:+ String "010" ""].

Definition passwords : list string :=
  ["123456" +:+ String "010" ""; "password" +:+ String "010" "";
   "letmein" +:+ String "010" ""; "a.b"].

Definition files (path : string) : file_read :=
  if decide (path = "words.txt") then FileLines wordlist None
  else if decide (path = "passwords.txt") then FileLines passwords None
  else if decide (path = "broken.txt")
       then FileLines ["admin"] (Some (Exception "Input/output error"))
  else OpenError (Exception "No such file or directory").

(** A site that has /admin and /admin.php and a Joomla login that accepts
    the password "letmein". *)
Definition site (r : request) : res response :=
  match r with
  | GET url _ =>
      if decide (url = "http://target/admin")
      then Ok {| status := 200; text := Ok "welcome" |}
      else if decide (url = "http://target/admin.php")
      then Ok {| status := 200; text := Ok "welcome" |}
      else if decide (url = "http://target/administrator")
      then Ok {| status := 200; text := Ok "<form name=login>" |}
      else Ok {| status := 404; text := Ok "not found" |}
  | POST url data _ =>
      if decide (data !! "passwd" = Some "letmein")
      then Ok {| status := 200; text := Ok "Joomla Control Panel" |}
      else Ok {| status := 200; text := Ok "Username and password do not match" |}
  end.

Definition env_site : Env :=
  {| fs_open := files;
     json_file := λ _, Raise (Exception "No such file or directory");
     session_error := None;
     net := site;
     login_form := λ _, Ok {["return" := "aW5kZXgucGhw"]};
     results_error := None |}.

(** The same, with every request timing out. *)
Definition env_down : Env :=
  {| fs_open := files;
     json_file := λ _, Raise (Exception "No such file or directory");
     session_error := None;
     net := λ _, Raise (Exception "TimeoutError");
     login_form := λ _, Ok ∅;
     results_error := None |}.

(** A site whose pages cannot be decoded: every request is answered with
    status 200 and reading the body raises UnicodeDecodeError. *)
Definition env_garbled : Env :=
  {| fs_open := files;
     json_file := λ _, Raise (Exception "No such file or directory");
     session_error := None;
     net := λ _, Ok {| status := 200;
                       text := Raise (Exception "UnicodeDecodeError") |};
     login_form := λ _, Ok ∅;
     results_error := None |}.

(** A login that accepts two of the passwords of the list. *)
Definition lenient_site (r : request) : res response :=
  match r with
  | POST url data _ =>
      if decide (data !! "passwd" = Some "password")
      then Ok {| status := 200; text := Ok "Joomla Control Panel" |}
      else site r
  | _ => site r
  end.

Definition env_lenient : Env :=
  {| fs_open := files;
     json_file := λ _, Raise (Exception "No such file or directory");
     session_error := None;
     net := lenient_site;
     login_form := λ _, Ok {["return" := "aW5kZXgucGhw"]};
     results_error := None |}.

(** The same, with aiohttp refusing to build a session. *)
Definition env_no_session : Env :=
  {| fs_open := files;
     json_file := λ _, Raise (Exception "No such file or directory");
     session_error := Some (Exception "invalid limit");
     net := site;
     login_form := λ _, Ok ∅;
     results_error := None |}.

Definition dir_config (wordlist_file : string) : BruteForceConfig :=
  {| target_url := "http://target/"; wordlist_path := wordlist_file;
     extensions := [".php"]; threads := 2; cookies := ∅; headers := ∅;
     form_data := ∅; success_indicators := [];
     rate_limit_delay := Finite (1 # 10) |}.

Definition joomla_config : BruteForceConfig :=
  {| target_url := "http://target/administrator";
     wordlist_path := "passwords.txt"; extensions := []; threads := 2;
     cookies := ∅; headers := {["User-Agent" := "Mozilla/5.0"]};
     form_data := {["username" := "admin"]};
     success_indicators := ["Control Panel"]; rate_limit_delay := Finite 1 |}.

(** A fresh object of each class, and the same with its session open. *)
Definition dir_world (wordlist_file : string) : World :=
  new_world (WebBruter_init WebBruterClass (dir_config wordlist_file)).

Definition joomla_world : World :=
  new_world (WebBruter_init JoomlaBruterClass joomla_config).

Definition opened (w : World) : World :=
  on_self (set_session (Some SessionOpen)) w.

(** A Joomla run caught after the event was set: one login in flight, one
    worker asleep, two passwords still queued. *)
Definition stopped_world : World :=
  {| self := set_stop_event true
               (set_queue ["password"; "letmein"] (self (opened joomla_world)));
     tasks := [AwaitResponse "123456"
                 (probe_request JoomlaBruterClass joomla_config "123456");
               Sleeping];
     sent := [probe_request JoomlaBruterClass joomla_config "123456"];
     written := []; dropped := [] |}.


Definition joomla_args : args :=
  JoomlaArgs "http://target/administrator" "admin" "passwords.txt" 2
             (Finite 1) ["Control Panel"].

End Examples.
(** * Properties *)

(** ** Strings *)

Module PyStrFacts.
Import PyStr.

Lemma app_cons c s t : String c s +:+ t = String c (s +:+ t).
Proof. reflexivity. Qed.

Lemma startswith_spec pre s :
  startswith pre s = true ↔ ∃ post, s = pre +:+ post.
Proof.
  revert s. induction pre as [|a pre IH]; intros s; simpl.
  - split; [intros _; by exists s | done].
  - destruct s as [|b s]; simpl.
    + split; [done | intros [post Hpost]; discriminate].
    + rewrite andb_true_iff, IH. split.
      * intros [Hab [post ->]]. apply Ascii.eqb_eq in Hab as ->.
        by exists post.
      * intros [post Hpost]. injection Hpost as -> ->.
        split; [apply Ascii.eqb_refl | by exists post].
Qed.

(** [contains] is the substring relation. *)
Lemma contains_spec sub s :
  contains sub s = true ↔ ∃ pre post, s = pre +:+ sub +:+ post.
Proof.
  induction s as [|c s IH]; simpl.
  - rewrite orb_false_r, startswith_spec. split.
    + intros [post ->]. by exists "", post.
    + intros [[|a pre] [post Hs]]; [by exists post | discriminate].
  - rewrite orb_true_iff, startswith_spec, IH. split.
    + intros [[post ->] | (pre & post & ->)].
      * by exists "", post.
      * by exists (String c pre), post.
    + intros [[|a pre] [post Hs]].
      * left. by exists post.
      * right. injection Hs as -> ->. by exists pre, post.
Qed.

Lemma contains_empty s : contains "" s = true.
Proof. destruct s; reflexivity. Qed.

Lemma lstrip_no_head p s :
  match lstrip p s with
  | EmptyString => True
  | String c _ => p c = false
  end.
Proof.
  induction s as [|c s IH]; simpl; [done|].
  destruct (p c) eqn:Hc; [apply IH | exact Hc].
Qed.

Lemma lstrip_suffix p s : ∃ pre, s = pre +:+ lstrip p s.
Proof.
  induction s as [|c s [pre IH]]; simpl.
  - by exists "".
  - destruct (p c).
    + exists (String c pre). by rewrite app_cons, <- IH.
    + by exists "".
Qed.

Lemma rstrip_prefix p s : ∃ post, s = rstrip p s +:+ post.
Proof.
  induction s as [|c s [post IH]]; simpl.
  - by exists "".
  - destruct (rstrip p s) eqn:Hr.
    + destruct (p c).
      * exists (String c s). reflexivity.
      * exists s. reflexivity.
    + exists post. by rewrite app_cons, <- IH.
Qed.

Lemma app_truthy s t : truthy t = true → truthy (s +:+ t) = true.
Proof. destruct s, t; done. Qed.

End PyStrFacts.


Example strip_example :
  PyStr.strip (String "009" "  admin panel " +:+ String "010" "") = "admin panel".
Proof. reflexivity. Qed.

Example rstrip_example :
  PyStr.rstrip (PyStr.is_char "/") "http://t//" = "http://t".
Proof. reflexivity. Qed.

Example contains_example :
  PyStr.contains "." "login.php" = true ∧ PyStr.contains "." "admin" = false.
Proof. split; reflexivity. Qed.

(** *** Properties of the loader *)

Lemma enqueue_nil w : enqueue [] w = w.
Proof.
  destruct w as [[] ? ? ?]. unfold enqueue, on_self, set_queue; simpl.
  by rewrite app_nil_r.
Qed.

Lemma enqueue_app l1 l2 w : enqueue l2 (enqueue l1 w) = enqueue (l1 ++ l2) w.
Proof.
  destruct w as [[] ? ? ?]. unfold enqueue, on_self, set_queue; simpl.
  by rewrite app_assoc.
Qed.

Lemma config_enqueue l w : config (self (enqueue l w)) = config (self w).
Proof. reflexivity. Qed.

Lemma queue_enqueue l w : queue (self (enqueue l w)) = queue (self w) ++ l.
Proof. reflexivity. Qed.

Lemma bind_ok {A B} (m : M A) (k : A → M B) w w' a :
  m w = (w', Ok a) → (m ≫= k) w = k a w'.
Proof. intros H. unfold mbind, M_bind. by rewrite H. Qed.

Lemma bind_raise {A B} (m : M A) (k : A → M B) w w' e :
  m w = (w', Raise e) → (m ≫= k) w = (w', Raise e).
Proof. intros H. unfold mbind, M_bind. by rewrite H. Qed.

Lemma for_each_put (f : string → string) (l : list string) w :
  for_each l (λ x, queue_put (f x)) w = (enqueue (f <$> l) w, Ok ()).
Proof.
  revert w. induction l as [|x l IH]; intros w; simpl.
  - by rewrite enqueue_nil.
  - erewrite bind_ok by reflexivity.
    rewrite IH. change (on_self _ w) with (enqueue [f x] w).
    by rewrite enqueue_app.
Qed.

Lemma load_line_spec line w :
  load_line line w
  = (enqueue (line_entries (extensions (config (self w))) line) w, Ok ()).
Proof.
  unfold load_line, line_entries, entries.
  destruct (PyStr.truthy (PyStr.strip line)); [|by rewrite enqueue_nil].
  erewrite bind_ok by reflexivity.
  erewrite bind_ok by reflexivity.
  change (on_self _ w) with (enqueue [PyStr.strip line] w).
  rewrite config_enqueue.
  destruct (PyStr.contains "." (PyStr.strip line)); [reflexivity|].
  destruct (extensions (config (self w))) as [|ext exts]; [reflexivity|].
  change (negb false && PyStr.truthy_list (ext :: exts)) with true.
  cbv iota. by rewrite for_each_put, enqueue_app.
Qed.

Lemma load_lines_spec lines w :
  for_each lines load_line w
  = (enqueue (mjoin (line_entries (extensions (config (self w))) <$> lines)) w,
     Ok ()).
Proof.
  revert w. induction lines as [|line lines IH]; intros w; simpl.
  - by rewrite enqueue_nil.
  - erewrite bind_ok by apply load_line_spec.
    by rewrite IH, config_enqueue, enqueue_app.
Qed.

Lemma line_entries_words exts lines :
  mjoin (line_entries exts <$> lines) = mjoin (entries exts <$> words lines).
Proof.
  unfold words. induction lines as [|line lines IH]; [done|].
  rewrite !fmap_cons. unfold line_entries at 1.
  destruct (PyStr.truthy (PyStr.strip line)) eqn:Ht.
  - rewrite filter_cons_True by done. simpl. by rewrite IH.
  - rewrite filter_cons_False by (rewrite Ht; done). simpl. by rewrite IH.
Qed.

Lemma length_entries exts word :
  length (entries exts word)
  = if PyStr.contains "." word then 1%nat else S (length exts).
Proof.
  unfold entries. destruct (PyStr.contains "." word); simpl; [done|].
  by rewrite length_fmap.
Qed.

Lemma all_entries_cons exts word ws :
  mjoin (entries exts <$> word :: ws)
  = entries exts word ++ mjoin (entries exts <$> ws).
Proof. reflexivity. Qed.

Lemma length_all_entries_bounds exts ws :
  (length ws ≤ length (mjoin (entries exts <$> ws))
   ≤ length ws * (1 + length exts))%nat.
Proof.
  induction ws as [|word ws IH]; [simpl; lia|].
  rewrite all_entries_cons, length_app, length_entries. simpl length.
  destruct (PyStr.contains "." word); lia.
Qed.

Lemma length_all_entries_max exts ws :
  Forall lacks_separator ws →
  length (mjoin (entries exts <$> ws)) = (length ws * (1 + length exts))%nat.
Proof.
  induction 1 as [|word ws Hw _ IH]; [done|].
  rewrite all_entries_cons, length_app, length_entries, Hw, IH.
  simpl length. lia.
Qed.

Lemma length_all_entries_max_inv exts ws :
  (0 < length exts)%nat →
  length (mjoin (entries exts <$> ws)) = (length ws * (1 + length exts))%nat →
  Forall lacks_separator ws.
Proof.
  intros HK. induction ws as [|word ws IH]; [constructor|].
  rewrite all_entries_cons, length_app, length_entries. simpl length.
  pose proof (length_all_entries_bounds exts ws) as Hb.
  unfold lacks_separator at 1.
  destruct (PyStr.contains "." word) eqn:Hc; intros Hlen.
  - exfalso. lia.
  - constructor; [done|]. apply IH. lia.
Qed.

(** ** One resumption of a worker *)

(** The operations of [M] unfold to plain functions on worlds. *)
Ltac unfold_M :=
  unfold mbind, M_bind, mret, M_ret, try_except, try_finally, raise, lift,
    gets, modify, effect in *.

(** Case analysis on everything a resumption inspects. *)
Ltac step_cases :=
  unfold worker_step, worker_loop, on_response, on_text, probe_failed,
    after_check_path, after_login, except_return, res_map, session_send in *;
  unfold_M;
  repeat (simplify_eq /=; case_match);
  simplify_eq /=.

Lemma step_inv env i w w' :
  step env i w = Some w' →
  ∃ t wt t',
    tasks w !! i = Some t ∧ worker_step env t w = Some (wt, t')
    ∧ w' = set_tasks (<[i := t']> (tasks w)) wt.
Proof.
  unfold step. intros H.
  destruct (tasks w !! i) as [t|] eqn:Ht; simplify_eq /=.
  destruct (worker_step env t w) as [[wt t']|] eqn:Hs; simplify_eq /=.
  by exists t, wt, t'.
Qed.

Section worker_step.
Context (env : Env) (t t' : task) (w w' : World).
Hypothesis Hstep : worker_step env t w = Some (w', t').

Lemma worker_step_tasks : tasks w' = tasks w.
Proof using Hstep. by step_cases. Qed.

Lemma worker_step_written : written w' = written w.
Proof using Hstep. by step_cases. Qed.

Lemma worker_step_cls : cls (self w') = cls (self w).
Proof using Hstep. by step_cases. Qed.

Lemma worker_step_config : config (self w') = config (self w).
Proof using Hstep. by step_cases. Qed.

Lemma worker_step_session : session (self w') = session (self w).
Proof using Hstep. by step_cases. Qed.

Lemma worker_step_stop :
  stop_event (self w) = true → stop_event (self w') = true.
Proof using Hstep. by step_cases. Qed.

Lemma worker_step_live : live t = true.
Proof using Hstep. by destruct t. Qed.
End worker_step.

Lemma worker_step_stopped env t t' w w' :
  stop_event (self w) = true →
  worker_step env t w = Some (w', t') →
  queue (self w') = queue (self w) ∧ sent w' = sent w
  ∧ (in_flight t' = true → in_flight t = true).
Proof. intros Hstop Hstep. step_cases; try done; congruence. Qed.

Lemma in_flight_cancel (ts : list task) j t' :
  (cancel <$> ts) !! j = Some t' → in_flight t' = true → False.
Proof.
  rewrite list_lookup_fmap. destruct (ts !! j) as [t|]; [|done].
  intros [= <-]. by destruct t.
Qed.

Lemma step_stopped env i w w' :
  stop_event (self w) = true →
  step env i w = Some w' →
  stop_event (self w') = true ∧ queue (self w') = queue (self w)
  ∧ sent w' = sent w
  ∧ ∀ j t', tasks w' !! j = Some t' → in_flight t' = true →
            ∃ t, tasks w !! j = Some t ∧ in_flight t = true.
Proof.
  intros Hstop (t & wt & t' & Ht & Hs & ->)%step_inv.
  destruct (worker_step_stopped _ _ _ _ _ Hstop Hs) as (Hq & Hsent & Hfl).
  repeat split; simpl; [by eapply worker_step_stop|done..|].
  intros j u [(-> & -> & _) | [_ Hj]]%list_lookup_insert_Some Hu; eauto.
Qed.

Lemma loop_step_stopped env w w' :
  stop_event (self w) = true →
  loop_step env w w' →
  stop_event (self w') = true ∧ queue (self w') = queue (self w)
  ∧ sent w' = sent w
  ∧ ∀ j t', tasks w' !! j = Some t' → in_flight t' = true →
            ∃ t, tasks w !! j = Some t ∧ in_flight t = true.
Proof.
  intros Hstop Hl. destruct Hl as [i w w' Hstep|w|w].
  - by eapply step_stopped.
  - repeat split; try done. intros j t' Hj Ht'.
    by destruct (in_flight_cancel _ _ _ Hj Ht').
  - repeat split; eauto.
Qed.

Lemma loop_steps_stopped env w w' :
  rtc (loop_step env) w w' →
  stop_event (self w) = true →
  stop_event (self w') = true ∧ queue (self w') = queue (self w)
  ∧ sent w' = sent w
  ∧ ∀ j t', tasks w' !! j = Some t' → in_flight t' = true →
            ∃ t, tasks w !! j = Some t ∧ in_flight t = true.
Proof.
  induction 1 as [w|w w1 w' H1 _ IH]; intros Hstop; [by eauto 10|].
  destruct (loop_step_stopped _ _ _ Hstop H1) as (Hs1 & Hq1 & Hsent1 & Hfl1).
  destruct (IH Hs1) as (Hs & Hq & Hsent & Hfl).
  repeat split; [done|congruence..|].
  intros j t' Hj Ht'. destruct (Hfl j t' Hj Ht') as (t1 & Hj1 & Ht1). eauto.
Qed.

(** ** The synchronous operations of the engine *)

Lemma init_session_spec env w :
  init_session env w
  = match session_error env with
    | Some e => (w, Raise e)
    | None => (bind_session w, Ok ())
    end.
Proof. unfold init_session. by destruct (session_error env). Qed.

Lemma load_wordlist_spec env w :
  load_wordlist env w
  = match fs_open env (wordlist_path (config (self w))) with
    | OpenError e => (w, Raise e)
    | FileLines lines err =>
        (enqueue (mjoin (line_entries (extensions (config (self w))) <$> lines)) w,
         match err with
         | None => Ok ()
         | Some e => Raise e
         end)
    end.
Proof.
  unfold load_wordlist. unfold_M.
  destruct (fs_open env _) as [e|lines err].
  - by destruct (is_Exception e).
  - rewrite load_lines_spec. destruct err as [e|]; [|done].
    by destruct (is_Exception e).
Qed.

Lemma spawn_workers_spec w :
  spawn_workers w
  = (set_tasks (replicate (Z.to_nat (threads (config (self w)))) Ready) w, Ok ()).
Proof. reflexivity. Qed.

Lemma close_session_spec w :
  close_session w
  = (match session (self w) with
     | Some _ => on_self (set_session (Some SessionClosed)) w
     | None => w
     end, Ok ()).
Proof. unfold close_session. unfold_M. by destruct (session (self w)). Qed.

Lemma save_results_spec env w :
  save_results env w
  = match found_paths (self w), results_error env with
    | [], _ => (w, Ok ())
    | _ :: _, Some e => (w, Raise e)
    | l, None => (log_write "found_paths.json" (json_dump l) w, Ok ())
    end.
Proof.
  unfold save_results. unfold_M.
  destruct (found_paths (self w)); simpl; [done|].
  by destruct (results_error env).
Qed.

Lemma finally_close_spec (r : res unit) w :
  try_finally (lift r) close_session w = ((close_session w).1, r).
Proof. unfold try_finally, lift. by rewrite close_session_spec. Qed.

(** The setup of [run], lines 114-121. *)
Lemma setup_spec env w :
  (init_session env ;; load_wordlist env ;; spawn_workers) w
  = match session_error env with
    | Some e => (w, Raise e)
    | None =>
        let w1 := bind_session w in
        match fs_open env (wordlist_path (config (self w))) with
        | OpenError e => (w1, Raise e)
        | FileLines lines err =>
            let w2 :=
              enqueue (mjoin (line_entries (extensions (config (self w))) <$> lines))
                      w1 in
            match err with
            | Some e => (w2, Raise e)
            | None =>
                (set_tasks (replicate (Z.to_nat (threads (config (self w)))) Ready) w2,
                 Ok ())
            end
        end
    end.
Proof.
  unfold mbind at 1, M_bind at 1. rewrite init_session_spec.
  destruct (session_error env) as [e|]; [done|].
  unfold mbind, M_bind. rewrite load_wordlist_spec. simpl.
  destruct (fs_open env _) as [e|lines [e|]]; done.
Qed.

(** ** The event is never cleared *)

Lemma engine_step_stop env w w' :
  engine_step env w w' →
  stop_event (self w) = true → stop_event (self w') = true.
Proof.
  intros Hstep Hstop. destruct Hstep as [w|w|w|w w' Hl|w|w].
  - rewrite init_session_spec. by destruct (session_error env).
  - rewrite load_wordlist_spec. by destruct (fs_open env _).
  - done.
  - by destruct (loop_step_stopped _ _ _ Hstop Hl).
  - rewrite save_results_spec.
    by destruct (found_paths (self w)), (results_error env).
  - rewrite close_session_spec. by destruct (session (self w)).
Qed.

(** ** Waiting for the tasks *)

Lemma first_live_Some ts d :
  first_live ts = Some d → ∃ t, ts !! d = Some t ∧ live t = true.
Proof.
  revert d. induction ts as [|t ts IH]; intros d; simpl; [done|].
  destruct (live t) eqn:Hl.
  - intros [= <-]. by exists t.
  - destruct (first_live ts) as [d'|]; simpl; [|done].
    intros [= <-]. by apply IH.
Qed.

Lemma first_live_None ts :
  first_live ts = None ↔ Forall (λ t, live t = false) ts.
Proof.
  induction ts as [|t ts IH]; simpl; [by split|].
  destruct (live t) eqn:Hl.
  - split; [done|]. intros [??]%Forall_cons. congruence.
  - destruct (first_live ts); simpl.
    + split; [done|]. intros [_ H]%Forall_cons. by apply IH in H.
    + split; [|done]. intros _. constructor; [done|by apply IH].
Qed.

Lemma step_live env i w w' :
  step env i w = Some w' → ∃ t, tasks w !! i = Some t ∧ live t = true.
Proof.
  intros (t & wt & t' & Ht & Hs & _)%step_inv.
  exists t. split; [done|]. by eapply worker_step_live.
Qed.

Lemma step_enabled env i t w :
  tasks w !! i = Some t → resumable (config (self w)) t = true →
  is_Some (step env i w).
Proof.
  intros Ht Hl. unfold step. rewrite Ht.
  destruct t; simpl in *; try done. by rewrite Hl.
Qed.

Lemma first_resumable_Some cfg ts d :
  first_resumable cfg ts = Some d →
  ∃ t, ts !! d = Some t ∧ resumable cfg t = true.
Proof.
  revert d. induction ts as [|t ts IH]; intros d; simpl; [done|].
  destruct (resumable cfg t) eqn:Hl.
  - intros [= <-]. by exists t.
  - destruct (first_resumable cfg ts) as [d'|]; simpl; [|done].
    intros [= <-]. by apply IH.
Qed.

(** When sleeps end, every task that is not done can be resumed. *)
Lemma resumable_live cfg t :
  sleep_returns (rate_limit_delay cfg) = true → resumable cfg t = live t.
Proof. intros H. by destruct t. Qed.

Lemma first_resumable_live cfg ts :
  sleep_returns (rate_limit_delay cfg) = true →
  first_resumable cfg ts = first_live ts.
Proof.
  intros H. induction ts as [|t ts IH]; simpl; [done|].
  by rewrite resumable_live, IH.
Qed.

Lemma sum_weights_insert (ts : list task) i t t' :
  ts !! i = Some t →
  (sum_list (task_weight <$> <[i := t']> ts) + task_weight t
   = sum_list (task_weight <$> ts) + task_weight t')%nat.
Proof.
  revert i. induction ts as [|u ts IH]; intros [|i] Hi; simplify_eq /=.
  - lia.
  - specialize (IH _ Hi). lia.
Qed.

Lemma sum_weights_live (ts : list task) i t :
  ts !! i = Some t → live t = true →
  (0 < sum_list (task_weight <$> ts))%nat.
Proof.
  revert i. induction ts as [|u ts IH]; intros [|i] Hi Hl; simplify_eq /=.
  - destruct t; simpl in *; try done; lia.
  - specialize (IH _ Hi Hl). lia.
Qed.

Lemma sum_weights_cancel (ts : list task) :
  (sum_list (task_weight <$> (cancel <$> ts)) ≤ sum_list (task_weight <$> ts))%nat.
Proof.
  induction ts as [|t ts IH]; [done|].
  rewrite !fmap_cons. cbn [sum_list_with]. unfold id at 1 3.
  destruct t; simpl in *; lia.
Qed.

Lemma worker_step_work env t t' w w' :
  worker_step env t w = Some (w', t') →
  (4 * length (queue (self w')) + task_weight t'
   < 4 * length (queue (self w)) + task_weight t)%nat.
Proof.
  intros Hstep. step_cases;
    repeat match goal with H : queue (self _) = _ |- _ => rewrite H end;
    simpl; lia.
Qed.

(** Every resumption uses up some of the remaining work. *)
Lemma step_work_left env i w w' :
  step env i w = Some w' → (work_left w' < work_left w)%nat.
Proof.
  intros (t & wt & t' & Ht & Hs & ->)%step_inv. unfold work_left; simpl.
  pose proof (worker_step_work _ _ _ _ _ Hs) as Hw.
  pose proof (sum_weights_insert _ _ _ t' Ht) as Hsum. lia.
Qed.

Lemma cancel_work_left w : (work_left (cancel_tasks w) ≤ work_left w)%nat.
Proof.
  unfold work_left. simpl. pose proof (sum_weights_cancel (tasks w)). lia.
Qed.

(** *** What a resumption leaves alone *)

Lemma step_written env i w w' :
  step env i w = Some w' → written w' = written w.
Proof.
  intros (t & wt & t' & Ht & Hs & ->)%step_inv. simpl.
  by eapply worker_step_written.
Qed.

Lemma step_cls env i w w' :
  step env i w = Some w' → cls (self w') = cls (self w).
Proof.
  intros (t & wt & t' & Ht & Hs & ->)%step_inv. simpl.
  by eapply worker_step_cls.
Qed.

Lemma step_config env i w w' :
  step env i w = Some w' → config (self w') = config (self w).
Proof.
  intros (t & wt & t' & Ht & Hs & ->)%step_inv. simpl.
  by eapply worker_step_config.
Qed.

Lemma step_session env i w w' :
  step env i w = Some w' → session (self w') = session (self w).
Proof.
  intros (t & wt & t' & Ht & Hs & ->)%step_inv. simpl.
  by eapply worker_step_session.
Qed.

Lemma step_length_tasks env i w w' :
  step env i w = Some w' → length (tasks w') = length (tasks w).
Proof.
  intros (t & wt & t' & Ht & Hs & ->)%step_inv. simpl. by rewrite length_insert.
Qed.

Lemma worker_step_found_class env t t' w w' :
  worker_step env t w = Some (w', t') →
  Forall (found_of_class (cls (self w))) (found_paths (self w)) →
  Forall (found_of_class (cls (self w'))) (found_paths (self w')).
Proof.
  intros Hstep. step_cases;
    repeat match goal with
           | H : cls (self _) = _ |- _ => rewrite ?H; clear H
           end;
    intros Hall; try done; apply Forall_app; split; try done;
    by repeat constructor.
Qed.

Lemma step_found_class env i w w' :
  step env i w = Some w' →
  Forall (found_of_class (cls (self w))) (found_paths (self w)) →
  Forall (found_of_class (cls (self w'))) (found_paths (self w')).
Proof.
  intros (t & wt & t' & Ht & Hs & ->)%step_inv. simpl.
  by eapply worker_step_found_class.
Qed.

Lemma worker_step_wf env t t' w w' :
  worker_step env t w = Some (w', t') → task_wf env t → task_wf env t'.
Proof. intros Hstep Hwf. by step_cases. Qed.

Lemma step_wf env i w w' :
  step env i w = Some w' →
  Forall (task_wf env) (tasks w) → Forall (task_wf env) (tasks w').
Proof.
  intros (t & wt & t' & Ht & Hs & ->)%step_inv Hall. simpl.
  apply Forall_insert; [done|].
  eapply worker_step_wf; [done|]. by eapply Forall_lookup_1.
Qed.

(** ** Waiting for the tasks *)

(** When the sleeps of the workers end, waiting always comes to an end
    with the fuel [run] provides. *)
Lemma gather_total env re fuel sched w :
  sleep_returns (rate_limit_delay (config (self w))) = true →
  (gather_fuel sched w ≤ fuel)%nat →
  is_Some (gather env re fuel sched w).
Proof.
  revert sched w. induction fuel as [|fuel IH]; intros sched w Hsleep Hfuel.
  - simpl. destruct (first_live (tasks w)) as [d|] eqn:Hd; [|by eexists].
    apply first_live_Some in Hd as (t & Ht & Hl).
    pose proof (sum_weights_live _ _ _ Ht Hl).
    unfold gather_fuel, work_left in Hfuel. lia.
  - simpl. destruct (first_live (tasks w)) as [d|] eqn:Hd; [|by eexists].
    assert (∀ i w' sched',
              step env i w = Some w' → (length sched' ≤ length sched)%nat →
              is_Some (match tasks w' !! i with
                       | Some (Crashed e) =>
                           if re then gather env re fuel sched' w'
                           else Some (w', sched', Raise e)
                       | _ => gather env re fuel sched' w'
                       end)) as Hresume.
    { intros i w' sched' Hstep Hlen.
      pose proof (step_work_left _ _ _ _ Hstep).
      assert (is_Some (gather env re fuel sched' w')) as Hrec.
      { apply IH; [by rewrite (step_config _ _ _ _ Hstep)|].
        unfold gather_fuel in *. lia. }
      destruct (tasks w' !! i) as [[]|]; try done.
      destruct re; [done|by eexists]. }
    destruct sched as [|[i|] sched]; simpl.
    + rewrite first_resumable_live, Hd by done. simpl.
      apply first_live_Some in Hd as (t & Ht & Hl).
      destruct (step_enabled env d t w Ht) as [w' Hstep];
        [by rewrite resumable_live|].
      rewrite Hstep. by apply Hresume.
    + destruct (step env i w) as [w'|] eqn:Hstep.
      * apply Hresume; [done|simpl; lia].
      * apply IH; [done|]. unfold gather_fuel in *. simpl in *. lia.
    + by eexists.
Qed.

(** Anything the resumptions and a cancellation of the tasks preserve
    holds when the waiting ends. *)
Lemma gather_invariant env (P : World → Prop) :
  (∀ i w w', P w → step env i w = Some w' → P w') →
  (∀ w, P w → P (cancel_tasks w)) →
  ∀ re fuel sched w w' sched' r,
    P w → gather env re fuel sched w = Some (w', sched', r) → P w'.
Proof.
  intros HP HC re fuel.
  induction fuel as [|fuel IH]; intros sched w w' sched' r Hw;
    simpl; destruct (first_live (tasks w)) as [d|]; try (intros; by simplify_eq).
  destruct (next_event sched w) as [[i|]|]; [| |done].
  - destruct (step env i w) as [w1|] eqn:Hstep; [|by apply IH].
    specialize (HP _ _ _ Hw Hstep).
    destruct (tasks w1 !! i) as [[]|]; try by apply IH.
    destruct re; [by apply IH|intros; by simplify_eq].
  - intros; simplify_eq. by apply HC.
Qed.

Lemma gather_reachable env re fuel sched w w' sched' r :
  gather env re fuel sched w = Some (w', sched', r) →
  rtc (loop_step env) w w'.
Proof.
  apply (gather_invariant env (λ w1, rtc (loop_step env) w w1)); [| |done].
  - intros i w1 w2 Hw1 Hstep. eapply rtc_r; [done|by econstructor].
  - intros w1 Hw1. eapply rtc_r; [done|by econstructor].
Qed.

Lemma interrupts_tl sched : (interrupts (tl sched) ≤ interrupts sched)%nat.
Proof. destruct sched as [|[]]; simpl; lia. Qed.

(** How the waiting ends: after resumptions only, or with a cancellation
    of the tasks, which uses up an interruption of the schedule. *)
Lemma gather_steps env (P : World → Prop) :
  (∀ i w w', P w → step env i w = Some w' → P w') →
  ∀ re fuel sched w w' sched' r,
    P w → gather env re fuel sched w = Some (w', sched', r) →
    (interrupts sched' ≤ interrupts sched)%nat
    ∧ (P w'
       ∨ ∃ u, P u ∧ w' = cancel_tasks u ∧ r = Raise CancelledError
              ∧ (interrupts sched' < interrupts sched)%nat).
Proof.
  intros HP re fuel.
  induction fuel as [|fuel IH]; intros sched w w' sched' r Hw; simpl;
    destruct (first_live (tasks w)) as [d|];
    try (by intros; simplify_eq);
    try (intros; simplify_eq; split; [lia|by left]).
  pose proof (interrupts_tl sched) as Htl.
  assert (∀ w1, P w1 →
            gather env re fuel (tl sched) w1 = Some (w', sched', r) →
            (interrupts sched' ≤ interrupts sched)%nat
            ∧ (P w'
               ∨ ∃ u, P u ∧ w' = cancel_tasks u ∧ r = Raise CancelledError
                      ∧ (interrupts sched' < interrupts sched)%nat)) as Hrec.
  { intros w1 H1 Hg.
    destruct (IH _ _ _ _ _ H1 Hg) as [Hle [Hq|(u & Hq & -> & -> & Hlt)]].
    - split; [lia|]. by left.
    - split; [lia|]. right. exists u.
      split; [done|]. split; [done|]. split; [done|lia]. }
  destruct (next_event sched w) as [[i|]|] eqn:Hev; [| |done].
  - destruct (step env i w) as [w1|] eqn:Hstep; [|by apply Hrec].
    specialize (HP _ _ _ Hw Hstep).
    destruct (tasks w1 !! i) as [[]|]; try by apply Hrec.
    destruct re; [by apply Hrec|].
    intros; simplify_eq. split; [done|]. by left.
  - intros; simplify_eq.
    assert (interrupts (tl sched) < interrupts sched)%nat as Hlt.
    { destruct sched as [|[] sched]; simpl in *; [|done|lia].
      by destruct (first_resumable _ _). }
    split; [lia|]. right. by exists w.
Qed.

Lemma gather_quiet env re fuel sched w w' sched' r :
  gather env re fuel sched w = Some (w', sched', r) →
  (interrupts sched' ≤ interrupts sched)%nat
  ∧ (rtc (quiet_step env) w w'
     ∨ ∃ u, rtc (quiet_step env) w u ∧ w' = cancel_tasks u
            ∧ r = Raise CancelledError
            ∧ (interrupts sched' < interrupts sched)%nat).
Proof.
  apply (gather_steps env (λ u, rtc (quiet_step env) w u)); [|done].
  intros i u u' Hu Hstep. eapply rtc_r; [done|by econstructor].
Qed.

Lemma quiet_steps_loop env w w' :
  rtc (quiet_step env) w w' → rtc (loop_step env) w w'.
Proof.
  induction 1 as [|w w1 w' H1 _ IH]; [done|].
  eapply rtc_l; [|done]. destruct H1; by econstructor.
Qed.

(** When the waiting ends normally no task is left alive. *)
Lemma gather_Ok env re fuel sched w w' sched' :
  gather env re fuel sched w = Some (w', sched', Ok ()) →
  first_live (tasks w') = None.
Proof.
  revert sched w. induction fuel as [|fuel IH]; intros sched w; simpl;
    destruct (first_live (tasks w)) as [d|] eqn:Hd;
    try (intros; by simplify_eq).
  destruct (next_event sched w) as [[i|]|]; [| |done]; [|intros; by simplify_eq].
  destruct (step env i w) as [w1|] eqn:Hstep; [|by apply IH].
  destruct (tasks w1 !! i) as [[]|]; try by apply IH.
  destruct re; [by apply IH|intros; by simplify_eq].
Qed.


Lemma config_cancel_tasks w : config (self (cancel_tasks w)) = config (self w).
Proof. reflexivity. Qed.

Lemma gather_config env re fuel sched w w' sched' r :
  gather env re fuel sched w = Some (w', sched', r) →
  config (self w') = config (self w).
Proof.
  apply (gather_invariant env (λ u, config (self u) = config (self w)));
    [| |done].
  - intros i u u' Hu Hstep. by rewrite (step_config _ _ _ _ Hstep).
  - done.
Qed.

Lemma await_workers_total env sched w :
  sleep_returns (rate_limit_delay (config (self w))) = true →
  is_Some (await_workers env sched w).
Proof.
  intros Hsleep. unfold await_workers.
  destruct (gather_total env false (gather_fuel sched w) sched w)
    as [[[w1 s1] r] H1]; [done|done|]. rewrite H1.
  destruct r as [|[]]; try by eexists.
  set (w2 := on_self _ w1).
  destruct (gather_total env true (gather_fuel s1 w2) s1 w2) as [[[w3 s3] r] ->];
    [|done|by eexists].
  unfold w2. simpl. by rewrite (gather_config _ _ _ _ _ _ _ _ H1).
Qed.

Lemma await_workers_reachable env sched w w' r :
  await_workers env sched w = Some (w', r) → rtc (loop_step env) w w'.
Proof.
  unfold await_workers.
  destruct (gather env false _ sched w) as [[[w1 s1] r1]|] eqn:H1; [|done].
  apply gather_reachable in H1.
  destruct r1 as [|[]]; try (intros; by simplify_eq).
  destruct (gather env true _ s1 _) as [[[w3 s3] r3]|] eqn:H3; [|done].
  apply gather_reachable in H3. intros; simplify_eq.
  etrans; [done|]. eapply rtc_l; [apply loop_handler|done].
Qed.

Lemma loop_steps_invariant env (P : World → Prop) w w' :
  (∀ i w w', P w → step env i w = Some w' → P w') →
  (∀ w, P w → P (cancel_tasks w)) →
  (∀ w, P w → P (on_self (set_stop_event true) w)) →
  rtc (loop_step env) w w' → P w → P w'.
Proof.
  intros Hstep Hcancel Hint. induction 1 as [|w w1 w' H1 _ IH]; [done|].
  intros Hw. apply IH. destruct H1; eauto.
Qed.

Lemma quiet_steps_invariant env (P : World → Prop) w w' :
  (∀ i w w', P w → step env i w = Some w' → P w') →
  (∀ w, P w → P (on_self (set_stop_event true) w)) →
  rtc (quiet_step env) w w' → P w → P w'.
Proof.
  intros Hstep Hint. induction 1 as [|w w1 w' H1 _ IH]; [done|].
  intros Hw. apply IH. destruct H1; eauto.
Qed.

(** *** After a cancellation *)

Lemma halted_cancel (ts : list task) : Forall halted (cancel <$> ts).
Proof. apply Forall_fmap, Forall_forall. intros t _. by destruct t. Qed.

Lemma set_stop_event_idem b :
  stop_event b = true → set_stop_event true b = b.
Proof. destruct b. simpl. by intros ->. Qed.

Lemma step_halted env i w w' :
  Forall halted (tasks w) → step env i w = Some w' →
  self w' = self w ∧ sent w' = sent w ∧ written w' = written w
  ∧ Forall halted (tasks w') ∧ length (tasks w') = length (tasks w).
Proof.
  intros Hall (t & wt & t' & Ht & Hs & ->)%step_inv. simpl.
  pose proof (Forall_lookup_1 _ _ _ _ Hall Ht) as Hh.
  destruct t; simpl in *; try done. simplify_eq.
  repeat split; [by apply Forall_insert|by rewrite length_insert].
Qed.

(** Once the tasks are cancelled and the event is set, all that happens
    is that the tasks end: the object is not touched any more, nothing is
    sent and nothing is written. *)
Lemma halted_steps env v w' :
  rtc (loop_step env) v w' →
  Forall halted (tasks v) → stop_event (self v) = true →
  self w' = self v ∧ sent w' = sent v ∧ written w' = written v
  ∧ Forall halted (tasks w') ∧ length (tasks w') = length (tasks v).
Proof.
  induction 1 as [v|v v1 w' H1 _ IH]; intros Hall Hstop; [done|].
  destruct H1 as [i v v1 Hstep|v|v].
  - destruct (step_halted _ _ _ _ Hall Hstep) as (Hs & Hsn & Hw & Hh & Hl).
    destruct IH as (-> & -> & -> & ? & ->); [done|by rewrite Hs|done].
  - destruct IH as (-> & -> & -> & ? & ->); [apply halted_cancel|done|].
    simpl. by rewrite length_fmap.
  - destruct IH as (-> & -> & -> & ? & ->); [done|done|]. simpl.
    by rewrite set_stop_event_idem.
Qed.

(** How a wait ends: after resumptions and, at most, the handler of
    [run] setting the event; or, when the schedule interrupts it, with the
    tasks cancelled in a state reached that way, in which the event is
    set. *)
Lemma await_workers_inv env sched w w' r :
  await_workers env sched w = Some (w', r) →
  rtc (quiet_step env) w w'
  ∨ ∃ u, rtc (quiet_step env) w u ∧ (0 < interrupts sched)%nat
         ∧ stop_event (self u) = true
         ∧ rtc (loop_step env) (cancel_tasks u) w'.
Proof.
  unfold await_workers.
  destruct (gather env false _ sched w) as [[[w1 s1] r1]|] eqn:H1; [|done].
  destruct (gather_quiet _ _ _ _ _ _ _ _ H1)
    as [Hle [Hq|(u & Hq & -> & -> & Hlt)]].
  - destruct r1 as [|[]]; try (intros; simplify_eq; by left).
    destruct (gather env true _ s1 _) as [[[w3 s3] r3]|] eqn:H3; [|done].
    intros; simplify_eq.
    destruct (gather_quiet _ _ _ _ _ _ _ _ H3)
      as [Hle3 [Hq3|(u3 & Hq3 & -> & -> & Hlt3)]].
    + left. etrans; [done|]. eapply rtc_l; [apply quiet_handler|done].
    + right. exists u3. split.
      { etrans; [done|]. eapply rtc_l; [apply quiet_handler|done]. }
      split; [lia|]. split; [|done].
      eapply (quiet_steps_invariant env (λ u, stop_event (self u) = true));
        [| |exact Hq3|done]; [|done].
      intros i v v' Hv (t & wt & t' & Ht & Hs & ->)%step_inv. simpl.
      by eapply worker_step_stop.
  - destruct (gather env true _ s1 _) as [[[w3 s3] r3]|] eqn:H3; [|done].
    intros; simplify_eq. right.
    exists (on_self (set_stop_event true) u). split.
    { eapply rtc_r; [done|apply quiet_handler]. }
    split; [lia|]. split; [done|].
    by eapply gather_reachable.
Qed.

(** With an ordinary transport no task is brought down, unless it is
    cancelled. *)
Lemma worker_step_no_crash env t t' w w' :
  ordinary_net env → task_wf env t → t ≠ Cancelling →
  worker_step env t w = Some (w', t') → undisturbed t'.
Proof.
  intros Hord Hwf Hnc Hstep.
  destruct t as [|c req|c req resp| | | |]; simpl in *; simplify_eq.
  - step_cases; by split.
  - specialize (Hord req). step_cases; try (by split); congruence.
  - specialize (Hord req). rewrite Hwf in Hord.
    step_cases; try (by split); congruence.
  - step_cases; by split.
Qed.

Lemma step_no_crash env i t w w' :
  ordinary_net env → Forall (task_wf env) (tasks w) →
  tasks w !! i = Some t → t ≠ Cancelling →
  step env i w = Some w' → ∀ e, tasks w' !! i ≠ Some (Crashed e).
Proof.
  intros Hord Hall Hi Hnc (t0 & wt & t' & Ht & Hs & ->)%step_inv e. simpl.
  rewrite list_lookup_insert_eq by by eapply lookup_lt_Some.
  intros [= ->]. simplify_eq.
  assert (undisturbed (Crashed e)) as [_ H]; [|by destruct (H e)].
  eapply worker_step_no_crash; [done| |done|done].
  by eapply Forall_lookup_1.
Qed.

Lemma step_undisturbed env i w w' :
  ordinary_net env →
  Forall (task_wf env) (tasks w) → Forall undisturbed (tasks w) →
  step env i w = Some w' → Forall undisturbed (tasks w').
Proof.
  intros Hord Hwf Hnc (t & wt & t' & Ht & Hs & ->)%step_inv.
  simpl. apply Forall_insert; [done|].
  eapply worker_step_no_crash; [done| | |done].
  - by eapply Forall_lookup_1.
  - by destruct (Forall_lookup_1 _ _ _ _ Hnc Ht).
Qed.

(** With an ordinary transport the first wait ends normally, unless the
    schedule interrupts it. *)
Lemma gather_ordinary env re fuel sched w w' sched' r :
  ordinary_net env →
  Forall (task_wf env) (tasks w) → Forall undisturbed (tasks w) →
  gather env re fuel sched w = Some (w', sched', r) →
  r = Ok () ∧ Forall (task_wf env) (tasks w') ∧ Forall undisturbed (tasks w')
  ∨ r = Raise CancelledError ∧ (interrupts sched' < interrupts sched)%nat.
Proof.
  intros Hord. revert sched w.
  induction fuel as [|fuel IH]; intros sched w Hwf Hnc; simpl;
    destruct (first_live (tasks w)) as [d|] eqn:Hd;
    try (intros; simplify_eq; by auto).
  pose proof (interrupts_tl sched) as Htl.
  assert (∀ w1, Forall (task_wf env) (tasks w1) →
            Forall undisturbed (tasks w1) →
            gather env re fuel (tl sched) w1 = Some (w', sched', r) →
            r = Ok () ∧ Forall (task_wf env) (tasks w')
            ∧ Forall undisturbed (tasks w')
            ∨ r = Raise CancelledError
              ∧ (interrupts sched' < interrupts sched)%nat) as Hrec.
  { intros w1 Hwf1 Hnc1 Hg. destruct (IH _ _ Hwf1 Hnc1 Hg) as [?|[? ?]];
      [by left|]. right. split; [done|lia]. }
  destruct (next_event sched w) as [[i|]|] eqn:Hev; [| |done].
  - destruct (step env i w) as [w1|] eqn:Hstep; [|by apply Hrec].
    pose proof (step_wf _ _ _ _ Hstep Hwf) as Hwf1.
    pose proof (step_undisturbed _ _ _ _ Hord Hwf Hnc Hstep) as Hnc1.
    destruct (tasks w1 !! i) as [[]|] eqn:Hi; try by apply Hrec.
    destruct (Forall_lookup_1 _ _ _ _ Hnc1 Hi) as [_ H]. by destruct (H e).
  - intros; simplify_eq. right. split; [done|].
    destruct sched as [|[] sched]; simpl in *; [|done|lia].
    by destruct (first_resumable _ _).
Qed.


(** ** The run *)

Lemma setup_config env w w1 r :
  (init_session env ;; load_wordlist env ;; spawn_workers) w = (w1, r) →
  config (self w1) = config (self w).
Proof.
  rewrite setup_spec.
  destruct (session_error env); [by intros [= <- <-]|].
  destruct (fs_open env _) as [e|lines [e|]]; by intros [= <- <-].
Qed.

(** When the sleeps of the workers end, [run] returns or raises. *)
Lemma run_total env sched w :
  sleep_returns (rate_limit_delay (config (self w))) = true →
  is_Some (run env sched w).
Proof.
  intros Hsleep. unfold run.
  destruct ((init_session env ;; load_wordlist env ;; spawn_workers) w)
    as [w1 [[]|e]] eqn:Hs; simpl; [|by eexists].
  destruct (await_workers_total env sched w1) as [[w2 [[]|e]] ->]; simpl;
    [|by eexists..].
  by rewrite (setup_config _ _ _ _ Hs).
Qed.

(** The three ways through [run]: a failed setup, an exception while
    waiting, and the normal path that ends with the results. *)
Lemma run_inv env sched w w' r :
  run env sched w = Some (w', r) →
  ∃ w3, w' = (close_session w3).1 ∧
    ((init_session env ;; load_wordlist env ;; spawn_workers) w = (w3, r)
     ∧ (∃ e, r = Raise e)
     ∨ ∃ w1,
         (init_session env ;; load_wordlist env ;; spawn_workers) w
         = (w1, Ok ())
         ∧ (await_workers env sched w1 = Some (w3, r) ∧ (∃ e, r = Raise e)
            ∨ ∃ w2, await_workers env sched w1 = Some (w2, Ok ())
                    ∧ save_results env w2 = (w3, r))).
Proof.
  unfold run.
  destruct ((init_session env ;; load_wordlist env ;; spawn_workers) w)
    as [w1 [[]|e]]; simpl.
  - destruct (await_workers env sched w1) as [[w2 [[]|e]]|] eqn:Ha; simpl;
      [| |done].
    + destruct (save_results env w2) as [w3 r3] eqn:Hs. simpl.
      rewrite finally_close_spec. intros [= <- <-].
      exists w3. split; [done|]. right. exists w1. split; [done|].
      right. by exists w2.
    + rewrite finally_close_spec. intros [= <- <-].
      exists w2. split; [done|]. right. exists w1. split; [done|].
      left. split; [done|by exists e].
  - rewrite finally_close_spec. intros [= <- <-].
    exists w1. split; [done|]. left. split; [done|by exists e].
Qed.

Lemma loop_steps_engine env w w' :
  rtc (loop_step env) w w' → rtc (engine_step env) w w'.
Proof.
  induction 1 as [|w w1 w' H1 _ IH]; [done|].
  eapply rtc_l; [by apply engine_loop|done].
Qed.

Lemma setup_reachable env w :
  rtc (engine_step env) w
      ((init_session env ;; load_wordlist env ;; spawn_workers) w).1.
Proof.
  unfold mbind, M_bind.
  destruct (init_session env w) as [w1 [[]|e]] eqn:H1.
  - assert (w1 = (init_session env w).1) as -> by by rewrite H1.
    eapply rtc_l; [apply engine_init|].
    destruct (load_wordlist env _) as [w2 [[]|e]] eqn:H2.
    + assert (w2 = (load_wordlist env (init_session env w).1).1) as ->
        by by rewrite H2.
      eapply rtc_l; [apply engine_load|].
      eapply rtc_l; [apply engine_spawn|done].
    + assert (w2 = (load_wordlist env (init_session env w).1).1) as ->
        by by rewrite H2.
      eapply rtc_l; [apply engine_load|done].
  - assert (w1 = (init_session env w).1) as -> by by rewrite H1.
    eapply rtc_l; [apply engine_init|done].
Qed.

(** Every state [run] ends in is reached by the operations of the engine. *)
Lemma run_reachable env sched w w' r :
  run env sched w = Some (w', r) → rtc (engine_step env) w w'.
Proof.
  intros (w3 & -> & H)%run_inv.
  eapply rtc_r; [|apply engine_close].
  pose proof (setup_reachable env w) as Hsetup.
  destruct H as [[Hs _]|(w1 & Hs & H)]; rewrite Hs in Hsetup; simpl in *;
    [done|].
  destruct H as [[Ha _]|(w2 & Ha & Hsave)].
  - etrans; [done|]. eapply loop_steps_engine, await_workers_reachable, Ha.
  - etrans; [done|]. etrans.
    { eapply loop_steps_engine, await_workers_reachable, Ha. }
    assert (w3 = (save_results env w2).1) as -> by by rewrite Hsave.
    eapply rtc_l; [apply engine_save|done].
Qed.

(** ** The probes *)

Lemma any_indicator_spec cfg content :
  any_indicator cfg content = true ↔ has_indicator cfg content.
Proof.
  unfold any_indicator, has_indicator, is_substring.
  rewrite existsb_exists. split.
  - intros (ind & Hin & Hc). exists ind.
    split; [by apply list_elem_of_In|by apply PyStrFacts.contains_spec].
  - intros (ind & Hin & Hc). exists ind.
    split; [by apply list_elem_of_In|by apply PyStrFacts.contains_spec].
Qed.

Lemma interesting_spec st : interesting st = true ↔ interesting_status st.
Proof. unfold interesting, interesting_status. lia. Qed.

Lemma check_path_url_nonempty cfg path : check_path_url cfg path ≠ "".
Proof.
  unfold check_path_url.
  destruct (PyStr.rstrip _ (target_url cfg)); discriminate.
Qed.

Lemma classify_hit cfg st url content :
  has_indicator cfg content ∨ interesting_status st →
  classify cfg st url content = (st, url).
Proof.
  rewrite <- any_indicator_spec, <- interesting_spec. unfold classify.
  intros [->| ->]; [done|]. by destruct (any_indicator cfg content).
Qed.

Lemma classify_miss cfg st url content :
  ¬ (has_indicator cfg content ∨ interesting_status st) →
  classify cfg st url content = miss.
Proof.
  rewrite <- any_indicator_spec, <- interesting_spec. unfold classify.
  intros H. destruct (any_indicator cfg content); [by destruct H; left|].
  destruct (interesting st); [by destruct H; right|done].
Qed.

(** [check_path] in closed form. *)
Lemma check_path_spec env path w :
  let url := check_path_url (config (self w)) path in
  check_path env path w
  = match session (self w) with
    | Some SessionOpen =>
        let w1 := log_request (GET url false) w in
        match net env (GET url false) with
        | Raise e => (w1, except_return (Raise e) miss)
        | Ok resp =>
            (on_self (λ b, set_scanned_count (scanned_count b + 1) b) w1,
             except_return
               (res_map (classify (config (self w)) (status resp) url) (text resp))
               miss)
        end
    | _ => (w, Ok miss)
    end.
Proof.
  unfold check_path, session_send, except_return, res_map. unfold_M.
  destruct (session (self w)) as [[]|]; simpl; try done.
  destruct (net env _) as [resp|e]; simpl.
  - destruct (text resp) as [content|e]; simpl; [done|].
    by destruct (is_Exception e).
  - by destruct (is_Exception e).
Qed.

(** [brute_force_login] in closed form. *)
Lemma brute_force_login_spec env username password w :
  let cfg := config (self w) in
  let req := POST (target_url cfg) (login_data cfg username password) true in
  brute_force_login env username password w
  = match session (self w) with
    | Some SessionOpen =>
        (log_request req w,
         match net env req with
         | Raise e => except_return (Raise e) false
         | Ok resp => except_return (res_map (any_indicator cfg) (text resp)) false
         end)
    | _ => (w, Ok false)
    end.
Proof.
  unfold brute_force_login, session_send, except_return, res_map. unfold_M.
  destruct (session (self w)) as [[]|]; simpl; try done.
  destruct (net env _) as [resp|e]; simpl.
  - destruct (text resp) as [content|e]; simpl; [done|].
    by destruct (is_Exception e).
  - by destruct (is_Exception e).
Qed.

Lemma login_data_lookup cfg username password :
  let data := login_data cfg username password in
  data !! "username" = Some username
  ∧ data !! "passwd" = Some password
  ∧ data !! "task" = Some "login"
  ∧ data !! "option" = Some "com_login"
  ∧ ∀ k, k ∉ ["username"; "passwd"; "task"; "option"] →
         data !! k = form_data cfg !! k.
Proof.
  cbv zeta. unfold login_data. repeat split.
  - by rewrite !lookup_insert_ne, lookup_insert_eq by done.
  - by rewrite !lookup_insert_ne, lookup_insert_eq by done.
  - by rewrite lookup_insert_ne, lookup_insert_eq by done.
  - by rewrite lookup_insert_eq.
  - intros k Hk. rewrite !lookup_insert_ne; [done|..];
      intros <-; apply Hk; set_solver.
Qed.

(** *** The workers run the probes *)

(** Three resumptions of a worker without any other task in between amount
    to one uninterrupted call of the probe on the candidate at the head of
    the queue. *)
Lemma worker_runs_check_path env w candidate rest resp :
  cls (self w) = WebBruterClass → stop_event (self w) = false →
  queue (self w) = candidate :: rest →
  session (self w) = Some SessionOpen →
  let req := probe_request WebBruterClass (config (self w)) candidate in
  let w1 := log_request req (on_self (set_queue rest) w) in
  let w2 := on_self (λ b, set_scanned_count (scanned_count b + 1) b) w1 in
  net env req = Ok resp →
  worker_step env Ready w = Some (w1, AwaitResponse candidate req)
  ∧ worker_step env (AwaitResponse candidate req) w1
    = Some (w2, AwaitText candidate req resp)
  ∧ worker_step env (AwaitText candidate req resp) w2
    = Some (let out := check_path env candidate (on_self (set_queue rest) w) in
            after_check_path out.2 out.1).
Proof.
  intros Hcls Hstop Hq Hsess req w1 w2 Hnet. subst req w1 w2. simpl in *.
  rewrite check_path_spec. simpl. rewrite Hsess, Hnet.
  unfold worker_step, worker_loop, on_response, on_text, session_send.
  unfold_M. rewrite Hq, Hstop, Hcls. simpl. rewrite Hsess, Hnet, Hcls. simpl.
  rewrite ?Hcls. done.
Qed.

Lemma worker_runs_brute_force_login env w password rest resp :
  cls (self w) = JoomlaBruterClass → stop_event (self w) = false →
  queue (self w) = password :: rest →
  session (self w) = Some SessionOpen →
  let req := probe_request JoomlaBruterClass (config (self w)) password in
  let w1 := log_request req (on_self (set_queue rest) w) in
  net env req = Ok resp →
  worker_step env Ready w = Some (w1, AwaitResponse password req)
  ∧ worker_step env (AwaitResponse password req) w1
    = Some (w1, AwaitText password req resp)
  ∧ worker_step env (AwaitText password req resp) w1
    = Some (let out := brute_force_login env (login_username (config (self w)))
                         password (on_self (set_queue rest) w) in
            after_login password out.2 out.1).
Proof.
  intros Hcls Hstop Hq Hsess req w1 Hnet. subst req w1. simpl in *.
  rewrite brute_force_login_spec. simpl. rewrite Hsess, Hnet.
  unfold worker_step, worker_loop, on_response, on_text, session_send.
  unfold_M. rewrite Hq, Hstop, Hcls. simpl. rewrite Hsess, Hnet, Hcls. simpl.
  rewrite ?Hcls. done.
Qed.

(** ** The candidate source *)

(** C2, as the code has it.  When the wordlist is read without error,
    [load_wordlist] appends to the queue, for each non-empty trimmed line in
    file order, the word itself once and then, when the word contains no
    dot, the word followed by each configured extension; the next line's
    entries come after.  With N such lines and K extensions the number of
    candidates is between N and N·(1+K); it is N·(1+K) when no word
    contains a dot, and, provided K is at least one, only then. *)
Theorem load_wordlist_candidates env w lines :
  fs_open env (wordlist_path (config (self w))) = FileLines lines None →
  let exts := extensions (config (self w)) in
  let added := mjoin (entries exts <$> words lines) in
  load_wordlist env w = (enqueue added w, Ok ())
  ∧ queue (self (load_wordlist env w).1) = queue (self w) ++ added
  ∧ (length (words lines) ≤ length added
     ≤ length (words lines) * (1 + length exts))%nat
  ∧ (Forall lacks_separator (words lines) →
     length added = (length (words lines) * (1 + length exts))%nat)
  ∧ ((0 < length exts)%nat →
     length added = (length (words lines) * (1 + length exts))%nat →
     Forall lacks_separator (words lines)).
Proof.
  intros Hfile exts added.
  assert (load_wordlist env w = (enqueue added w, Ok ())) as Hload.
  { rewrite load_wordlist_spec, Hfile. unfold added, exts.
    by rewrite line_entries_words. }
  split; [done|]. rewrite Hload. split; [done|].
  split; [apply length_all_entries_bounds|].
  split; [apply length_all_entries_max|apply length_all_entries_max_inv].
Qed.

Lemma load_wordlist_candidates_witness :
  let w := Examples.dir_world "words.txt" in
  fs_open Examples.env_site (wordlist_path (config (self w)))
  = FileLines Examples.wordlist None
  ∧ queue (self (load_wordlist Examples.env_site w).1)
    = ["admin"; "admin.php"; "login.php"; "test"; "test.php"].
Proof.
  split; [reflexivity|].
  exact (proj1 (proj2 (load_wordlist_candidates Examples.env_site
                         (Examples.dir_world "words.txt") Examples.wordlist
                         eq_refl))).
Defined.

(** C2 as stated fails without extensions: the Joomla configuration has
    none, so the count is N·(1+0) although a password contains a dot. *)
Lemma load_wordlist_equality_counterexample :
  let w := Examples.joomla_world in
  let lines := Examples.passwords in
  let exts := extensions (config (self w)) in
  fs_open Examples.env_site (wordlist_path (config (self w)))
  = FileLines lines None
  ∧ length (queue (self (load_wordlist Examples.env_site w).1))
    = (length (words lines) * (1 + length exts))%nat
  ∧ ¬ Forall lacks_separator (words lines).
Proof.
  split; [reflexivity|]. split; [reflexivity|].
  intros H. apply Forall_lookup_1 with (i := 3%nat) (x := "a.b") in H;
    [discriminate H|reflexivity].
Qed.

(** ** The path probe *)

(** C1, as the code has it.  With an open session, [check_path] sends
    exactly one request: a GET, redirects not followed, for the target base
    without its trailing slashes, a slash, and the candidate without its
    leading slashes.  It returns the response status with that URL if and
    only if the body of the response can be read and either the body
    contains a success indicator or the status is one of 200, 301, 302,
    403; an indicator alone suffices, whatever the status; otherwise,
    also when the body cannot be read and on any other ordinary failure,
    it returns (0, ""). *)
Theorem check_path_hit_iff env path w :
  session (self w) = Some SessionOpen →
  let cfg := config (self w) in
  let url :=
    PyStr.rstrip (PyStr.is_char "/") (target_url cfg)
    +:+ "/" +:+ PyStr.lstrip (PyStr.is_char "/") path in
  let out := check_path env path w in
  sent out.1 = sent w ++ [GET url false]
  ∧ (∀ resp, net env (GET url false) = Ok resp →
       (out.2 = Ok (status resp, url)
        ↔ ∃ content,
            text resp = Ok content
            ∧ (has_indicator cfg content ∨ interesting_status (status resp))))
  ∧ match net env (GET url false) with
    | Ok resp =>
        match text resp with
        | Ok content =>
            (out.2 = Ok (status resp, url)
             ↔ has_indicator cfg content ∨ interesting_status (status resp))
            ∧ (has_indicator cfg content → out.2 = Ok (status resp, url))
            ∧ (¬ (has_indicator cfg content ∨ interesting_status (status resp))
               → out.2 = Ok (0, ""))
        | Raise e => is_Exception e = true → out.2 = Ok (0, "")
        end
    | Raise e => is_Exception e = true → out.2 = Ok (0, "")
    end.
Proof.
  intros Hsess cfg url out.
  assert (url = check_path_url cfg path) as Hurl by done.
  assert (out = check_path env path w) as Hout by done.
  rewrite check_path_spec, Hsess in Hout. fold cfg in Hout.
  rewrite <- Hurl in Hout. clearbody url out.
  assert (∀ resp content,
            text resp = Ok content →
            classify cfg (status resp) url content = (status resp, url)
            ↔ has_indicator cfg content ∨ interesting_status (status resp))
    as Hclass.
  { intros resp content Htext. split; [|by intros H; rewrite classify_hit].
    intros Hc.
    destruct (any_indicator cfg content) eqn:Hi;
      [left; by apply any_indicator_spec|].
    destruct (interesting (status resp)) eqn:Hs;
      [right; by apply interesting_spec|].
    unfold classify in Hc. rewrite Hi, Hs in Hc.
    injection Hc as _ Hc. subst url.
    by destruct (check_path_url_nonempty cfg path). }
  destruct (net env (GET url false)) as [resp|e]; subst out; simpl.
  - split; [done|]. split.
    + intros ? [= <-]. destruct (text resp) as [content|e] eqn:Htext; simpl.
      * split.
        -- intros [= Hc]. exists content. split; [done|]. by eapply Hclass.
        -- intros (? & [= <-] & H). f_equal. by eapply Hclass.
      * split; [|by intros (? & ? & _)].
        destruct (is_Exception e); [|done]. intros [= _ Hc]. subst url.
        by destruct (check_path_url_nonempty cfg path).
    + destruct (text resp) as [content|e] eqn:Htext; simpl.
      * split; [|split].
        -- split; [intros [= Hc]; by eapply Hclass|].
           intros H. f_equal. by eapply Hclass.
        -- intros H. rewrite classify_hit; auto.
        -- intros H. by rewrite classify_miss.
      * by intros ->.
  - split; [done|]. split; [done|]. by intros ->.
Qed.

Lemma check_path_hit_iff_witness :
  let w := Examples.opened (Examples.dir_world "words.txt") in
  session (self w) = Some SessionOpen
  ∧ sent (check_path Examples.env_site "/admin" w).1
    = [GET "http://target/admin" false]
  ∧ ((check_path Examples.env_site "/admin" w).2
     = Ok (200, "http://target/admin")
     ↔ has_indicator (config (self w)) "welcome" ∨ interesting_status 200).
Proof.
  split; [reflexivity|].
  pose proof (check_path_hit_iff Examples.env_site "/admin"
                (Examples.opened (Examples.dir_world "words.txt")) eq_refl)
    as [Hsent [_ [Hiff _]]].
  split; [exact Hsent|exact Hiff].
Defined.

(** C1 as stated fails when the body of the response cannot be read: a
    page answered with status 200 whose body does not decode is a miss. *)
Lemma check_path_unreadable_body_counterexample :
  let w := Examples.opened (Examples.dir_world "words.txt") in
  let out := check_path Examples.env_garbled "admin" w in
  ∃ resp,
    net Examples.env_garbled (GET "http://target/admin" false) = Ok resp
    ∧ interesting_status (status resp)
    ∧ out.2 = Ok (0, "")
    ∧ out.2 ≠ Ok (status resp, "http://target/admin").
Proof.
  eexists. split; [reflexivity|]. split; [by left|].
  split; [reflexivity|]. vm_compute. discriminate.
Qed.

(** C4, as the code has it.  [check_path] adds one to [scanned_count] when
    the request obtains a response, whatever happens afterwards (a hit, a
    miss, or a body that cannot be read), and leaves it unchanged when the
    request itself fails or there is no open session. *)
Theorem check_path_counts_responses env path w :
  scanned_count (self (check_path env path w).1)
  = scanned_count (self w)
    + match session (self w),
            net env (GET (check_path_url (config (self w)) path) false) with
      | Some SessionOpen, Ok _ => 1
      | _, _ => 0
      end.
Proof.
  rewrite check_path_spec.
  destruct (session (self w)) as [[]|]; simpl; try lia.
  destruct (net env _); simpl; lia.
Qed.

(** C4 as stated fails when the request times out: the probe is a miss
    and the counter has not moved. *)
Lemma check_path_count_counterexample :
  let w := Examples.opened (Examples.dir_world "words.txt") in
  let out := check_path Examples.env_down "admin" w in
  out.2 = Ok (0, "")
  ∧ scanned_count (self out.1) ≠ scanned_count (self w) + 1.
Proof. split; [reflexivity|]. vm_compute. discriminate. Qed.

Lemma engine_steps_stop env w w' :
  rtc (engine_step env) w w' →
  stop_event (self w) = true → stop_event (self w') = true.
Proof.
  induction 1 as [|w w1 w' H1 _ IH]; [done|].
  intros Hstop. apply IH. by eapply engine_step_stop.
Qed.

(** ** Failures of the transport *)

Lemma worker_step_failed_probe env t w :
  ordinary_net env → task_wf env t → failing env t →
  worker_step env t w = Some (w, Sleeping).
Proof.
  intros Hord Hwf Hfail.
  destruct t as [|c req|c req resp| | | |]; simpl in *; try done.
  - destruct Hfail as [e He]. specialize (Hord req). rewrite He in Hord.
    unfold on_response, probe_failed, except_return. rewrite He, Hord.
    by destruct (cls (self w)).
  - destruct Hfail as [e He]. specialize (Hord req).
    rewrite Hwf, He in Hord.
    unfold on_text, except_return, res_map. rewrite He, Hord.
    by destruct (cls (self w)).
Qed.

Lemma worker_step_no_hit env t t' w w' :
  ordinary_net env → (∀ req, probe_fails env req) → task_wf env t →
  worker_step env t w = Some (w', t') →
  found_paths (self w') = found_paths (self w).
Proof.
  intros Hord Hall Hwf Hstep.
  destruct t as [|c req|c req resp| | | |]; simpl in *; simplify_eq;
    [| | | |done].
  - by step_cases.
  - step_cases; done.
  - specialize (Hall req). specialize (Hord req).
    unfold probe_fails in Hall. rewrite Hwf in Hall, Hord.
    destruct Hall as [e He]. rewrite He in Hord.
    unfold on_text, except_return, res_map in Hstep.
    rewrite He, Hord in Hstep. by destruct (cls (self w)); simplify_eq /=.
  - by step_cases.
Qed.

Lemma step_no_hit env i w w' :
  ordinary_net env → (∀ req, probe_fails env req) →
  Forall (task_wf env) (tasks w) →
  step env i w = Some w' → found_paths (self w') = found_paths (self w).
Proof.
  intros Hord Hall Hwf (t & wt & t' & Ht & Hs & ->)%step_inv. simpl.
  eapply worker_step_no_hit; [done..| |done]. by eapply Forall_lookup_1.
Qed.

Lemma replicate_Ready_wf env n : Forall (task_wf env) (replicate n Ready).
Proof. by apply Forall_replicate. Qed.

Lemma replicate_Ready_not_crashed n : Forall not_crashed (replicate n Ready).
Proof. by apply Forall_replicate. Qed.

Lemma replicate_Ready_undisturbed n : Forall undisturbed (replicate n Ready).
Proof. by apply Forall_replicate. Qed.

Lemma check_path_never_raises env path w :
  ordinary_net env →
  (∃ r, (check_path env path w).2 = Ok r)
  ∧ (probe_fails env (GET (check_path_url (config (self w)) path) false) →
     (check_path env path w).2 = Ok (0, "")).
Proof.
  intros Hord. rewrite check_path_spec. cbv zeta.
  destruct (session (self w)) as [[]|]; simpl; try by eauto.
  specialize (Hord (GET (check_path_url (config (self w)) path) false)).
  unfold probe_fails.
  destruct (net env _) as [resp|e]; simpl.
  - destruct (text resp) as [content|e]; simpl.
    + split; [by eauto|]. by intros [e ?].
    + rewrite Hord. by eauto.
  - rewrite Hord. by eauto.
Qed.

Lemma brute_force_login_never_raises env username password w :
  ordinary_net env →
  let cfg := config (self w) in
  (∃ r, (brute_force_login env username password w).2 = Ok r)
  ∧ (probe_fails env (POST (target_url cfg) (login_data cfg username password) true) →
     (brute_force_login env username password w).2 = Ok false).
Proof.
  intros Hord cfg. rewrite brute_force_login_spec. cbv zeta. fold cfg.
  destruct (session (self w)) as [[]|]; simpl; try by eauto.
  specialize (Hord (POST (target_url cfg) (login_data cfg username password) true)).
  unfold probe_fails.
  destruct (net env _) as [resp|e]; simpl.
  - destruct (text resp) as [content|e]; simpl.
    + split; [by eauto|]. by intros [e ?].
    + rewrite Hord. by eauto.
  - rewrite Hord. by eauto.
Qed.

(** ** The stop event *)

(** C7.  No operation of the engine or of a worker clears the event: in
    every state reached from one in which it is set, it is set. *)
Theorem stop_event_is_monotone env w w' :
  rtc (engine_step env) w w' →
  stop_event (self w) = true → stop_event (self w') = true.
Proof. apply engine_steps_stop. Qed.

(** In particular the event is still set when [run] returns. *)
Corollary run_keeps_stop_event env sched w w' r :
  run env sched w = Some (w', r) →
  stop_event (self w) = true → stop_event (self w') = true.
Proof. intros Hrun. by eapply engine_steps_stop, run_reachable. Qed.

Lemma stop_event_is_monotone_witness :
  let w := Examples.stopped_world in
  let w' := (close_session (set_tasks (<[1%nat := Finished]> (tasks w)) w)).1 in
  rtc (engine_step Examples.env_site) w w'
  ∧ stop_event (self w) = true
  ∧ stop_event (self w') = true.
Proof.
  assert (rtc (engine_step Examples.env_site) Examples.stopped_world
            (close_session
               (set_tasks (<[1%nat := Finished]> (tasks Examples.stopped_world))
                          Examples.stopped_world)).1) as Hreach.
  { eapply rtc_l.
    - apply engine_loop. apply (loop_resume _ 1%nat). reflexivity.
    - eapply rtc_l; [apply engine_close|apply rtc_refl]. }
  split; [exact Hreach|]. split; [reflexivity|].
  exact (stop_event_is_monotone _ _ _ Hreach eq_refl).
Defined.

(** ** Fatal setup errors *)

Lemma exit_of_Exception e : is_Exception e = true → exit_of (Raise e) = ExitCode 1.
Proof. unfold exit_of. by intros ->. Qed.

Lemma main_runs env sched a w :
  prepare env a = (Some w, Ok ()) →
  main env sched a = (λ r, (Some r.1, exit_of r.2)) <$> run env sched w.
Proof.
  intros Hprep. unfold main, main_body. rewrite Hprep.
  by destruct (run env sched w) as [[w' r]|].
Qed.

(** C8.  When the session cannot be created, or the wordlist cannot be
    opened or read to its end, [run] raises that very exception to its
    caller, having created no task, sent no request and written nothing;
    [main], if the error is an ordinary exception, exits with code 1.  A
    KeyboardInterrupt, like a normal return, ends the process with code 0. *)
Theorem setup_failure_is_fatal env sched w e :
  setup_failure env (config (self w)) e →
  ∃ w', run env sched w = Some (w', Raise e)
        ∧ tasks w' = tasks w ∧ sent w' = sent w ∧ written w' = written w
        ∧ found_paths (self w') = found_paths (self w)
        ∧ (is_Exception e = true →
           exit_of (Raise e) = ExitCode 1
           ∧ ∀ a, prepare env a = (Some w, Ok ()) →
                  main env sched a = Some (Some w', ExitCode 1))
        ∧ exit_of (Raise KeyboardInterrupt) = ExitCode 0
        ∧ exit_of (Ok ()) = ExitCode 0.
Proof.
  intros Hfail.
  assert (∃ w1, (init_session env ;; load_wordlist env ;; spawn_workers) w
                = (w1, Raise e)
                ∧ tasks w1 = tasks w ∧ sent w1 = sent w
                ∧ written w1 = written w
                ∧ found_paths (self w1) = found_paths (self w))
    as (w1 & Hsetup & Ht & Hs & Hw & Hf).
  { rewrite setup_spec.
    destruct Hfail as [-> | [-> [-> | [lines ->]]]]; eexists; by split. }
  assert (run env sched w = Some ((close_session w1).1, Raise e)) as Hrun.
  { unfold run. rewrite Hsetup. simpl. by rewrite finally_close_spec. }
  exists (close_session w1).1. split; [done|].
  split; [by rewrite close_session_spec; destruct (session (self w1))|].
  split; [by rewrite close_session_spec; destruct (session (self w1))|].
  split; [by rewrite close_session_spec; destruct (session (self w1))|].
  split; [by rewrite close_session_spec; destruct (session (self w1))|].
  split; [|done].
  intros He. split; [by apply exit_of_Exception|].
  intros a Hprep. rewrite (main_runs _ _ _ _ Hprep), Hrun.
  cbn [fmap option_fmap option_map fst snd].
  by rewrite exit_of_Exception.
Qed.

Lemma setup_failure_is_fatal_witness :
  let w := Examples.dir_world "missing.txt" in
  setup_failure Examples.env_site (config (self w))
                (Exception "No such file or directory")
  ∧ ∃ w', run Examples.env_site [] w
          = Some (w', Raise (Exception "No such file or directory"))
          ∧ tasks w' = [] ∧ sent w' = [] ∧ written w' = [].
Proof.
  assert (setup_failure Examples.env_site
            (config (self (Examples.dir_world "missing.txt")))
            (Exception "No such file or directory")) as Hfail.
  { right. split; [reflexivity|]. left. reflexivity. }
  split; [exact Hfail|].
  destruct (setup_failure_is_fatal Examples.env_site []
              (Examples.dir_world "missing.txt") _ Hfail)
    as (w' & Hrun & Ht & Hs & Hw & _).
  exists w'. split; [exact Hrun|]. split; [exact Ht|]. split; [exact Hs|exact Hw].
Defined.

(** The Joomla command creates a session before [run]: that failure too
    ends the process with code 1, before anything is sent. *)
Lemma joomla_session_failure_is_fatal env sched url username wordlist n delay
    indicators e :
  session_error env = Some e → is_Exception e = true →
  ∃ w, main env sched (JoomlaArgs url username wordlist n delay indicators)
       = Some (Some w, ExitCode 1)
       ∧ tasks w = [] ∧ sent w = [] ∧ written w = [].
Proof.
  intros Hsess He.
  assert (∃ w, prepare env (JoomlaArgs url username wordlist n delay indicators)
               = (Some w, Raise e)
               ∧ tasks w = [] ∧ sent w = [] ∧ written w = [])
    as (w & Hprep & Hw).
  { unfold prepare. unfold mbind, M_bind.
    rewrite init_session_spec, Hsess. by eexists. }
  exists w. split; [|done]. unfold main, main_body. rewrite Hprep.
  cbn [mbind option_bind fst snd]. by rewrite exit_of_Exception.
Qed.

(** A run that returns normally ends the process with code 0. *)
Lemma main_exit_zero env sched a w w' :
  prepare env a = (Some w, Ok ()) →
  run env sched w = Some (w', Ok ()) →
  main env sched a = Some (Some w', ExitCode 0).
Proof. intros Hprep Hrun. by rewrite (main_runs _ _ _ _ Hprep), Hrun. Qed.

(** ** The results file *)

Lemma setup_frame env w w1 r :
  (init_session env ;; load_wordlist env ;; spawn_workers) w = (w1, r) →
  written w1 = written w ∧ sent w1 = sent w
  ∧ found_paths (self w1) = found_paths (self w)
  ∧ cls (self w1) = cls (self w).
Proof.
  rewrite setup_spec.
  destruct (session_error env); [by intros [= <- <-]|].
  destruct (fs_open env _) as [e|lines [e|]]; by intros [= <- <-].
Qed.

Lemma await_workers_frame env sched w w' r :
  await_workers env sched w = Some (w', r) →
  written w' = written w ∧ cls (self w') = cls (self w)
  ∧ (Forall (found_of_class (cls (self w))) (found_paths (self w)) →
     Forall (found_of_class (cls (self w'))) (found_paths (self w'))).
Proof.
  intros Hreach%await_workers_reachable.
  apply (loop_steps_invariant env
           (λ u, written u = written w ∧ cls (self u) = cls (self w)
                 ∧ (Forall (found_of_class (cls (self w))) (found_paths (self w)) →
                    Forall (found_of_class (cls (self u))) (found_paths (self u))))
           w w'); [| | |done|done].
  - intros i u u' (Hw & Hc & Hf) Hstep. split; [|split].
    + by rewrite (step_written _ _ _ _ Hstep).
    + by rewrite (step_cls _ _ _ _ Hstep).
    + intros H. by eapply step_found_class, Hf.
  - by intros u (Hw & Hc & Hf).
  - by intros u (Hw & Hc & Hf).
Qed.

Lemma close_session_frame w :
  written (close_session w).1 = written w
  ∧ found_paths (self (close_session w).1) = found_paths (self w)
  ∧ cls (self (close_session w).1) = cls (self w).
Proof. rewrite close_session_spec. by destruct (session (self w)). Qed.

(** What [run] writes: nothing, or the dump of [found_paths], which is
    then not empty, at the end of a run that returns normally. *)
Lemma run_written env sched w w' r :
  run env sched w = Some (w', r) →
  written w' = written w ∧ (found_paths (self w') = [] ∨ r ≠ Ok ())
  ∨ written w'
    = written w ++ [("found_paths.json", json_dump (found_paths (self w')))]
    ∧ found_paths (self w') ≠ [] ∧ r = Ok ().
Proof.
  intros (w3 & -> & H)%run_inv.
  destruct (close_session_frame w3) as (-> & -> & _).
  destruct H as [[Hs [e ->]]|(w1 & Hs & H)].
  { left. destruct (setup_frame _ _ _ _ Hs) as (-> & _).
    split; [done|by right]. }
  destruct (setup_frame _ _ _ _ Hs) as (<- & _).
  destruct H as [[Ha [e ->]]|(w2 & Ha & Hsave)].
  { left. destruct (await_workers_frame _ _ _ _ _ Ha) as (-> & _).
    split; [done|by right]. }
  destruct (await_workers_frame _ _ _ _ _ Ha) as (<- & _).
  rewrite save_results_spec in Hsave.
  destruct (found_paths (self w2)) as [|f fs] eqn:Hf.
  { simplify_eq. left. auto. }
  destruct (results_error env); simplify_eq.
  - left. split; [done|by right].
  - right. simpl. by rewrite Hf.
Qed.

(** C10.  A run that returns normally has written the results file exactly
    when [found_paths] is not empty; with no hit, nothing is written. *)
Theorem results_written_iff_hits env sched w w' :
  run env sched w = Some (w', Ok ()) →
  found_paths (self w') ≠ []
  ∧ written w'
    = written w ++ [("found_paths.json", json_dump (found_paths (self w')))]
  ∨ found_paths (self w') = [] ∧ written w' = written w.
Proof.
  intros [[Hw [Hf|Hr]]|(Hw & Hf & _)]%run_written; auto. done.
Qed.

Lemma results_written_iff_hits_witness :
  let w := Examples.dir_world "words.txt" in
  ∃ w', run Examples.env_site [] w = Some (w', Ok ())
        ∧ written w'
          = [("found_paths.json",
              JArray [JArray [JInt 200; JString "http://target/admin"];
                      JArray [JInt 200; JString "http://target/admin.php"]])].
Proof.
  eexists.
  match goal with
  | |- ?A ∧ _ => assert A as Hrun by (vm_compute; reflexivity)
  end.
  split; [exact Hrun|].
  destruct (results_written_iff_hits _ _ _ _ Hrun) as [[_ H]|[H _]].
  - exact H.
  - discriminate H.
Defined.

(** A run that raises has written nothing. *)
Lemma failed_run_writes_nothing env sched w w' e :
  run env sched w = Some (w', Raise e) → written w' = written w.
Proof. intros [[Hw _]|(_ & _ & ?)]%run_written; done. Qed.

Lemma found_to_json_class c f :
  found_of_class c f → json_of_class c (found_to_json f).
Proof. destruct c, f; simpl; try done; by eauto. Qed.

Lemma run_found_class env sched w w' r :
  run env sched w = Some (w', r) →
  Forall (found_of_class (cls (self w))) (found_paths (self w)) →
  cls (self w') = cls (self w)
  ∧ Forall (found_of_class (cls (self w))) (found_paths (self w')).
Proof.
  intros Hrun Hall.
  apply run_inv in Hrun as (w3 & -> & H).
  destruct (close_session_frame w3) as (_ & -> & ->).
  destruct H as [[Hs _]|(w1 & Hs & H)].
  { destruct (setup_frame _ _ _ _ Hs) as (_ & _ & -> & ->). done. }
  destruct (setup_frame _ _ _ _ Hs) as (_ & _ & Hf1 & Hc1).
  rewrite <- Hf1, <- Hc1 in Hall. rewrite <- Hc1.
  assert (∀ w2 r2, await_workers env sched w1 = Some (w2, r2) →
            cls (self w2) = cls (self w1)
            ∧ Forall (found_of_class (cls (self w1))) (found_paths (self w2)))
    as Hawait.
  { intros w2 r2 Ha.
    destruct (await_workers_frame _ _ _ _ _ Ha) as (_ & Hc & Hf).
    split; [done|]. rewrite <- Hc. auto. }
  destruct H as [[Ha _]|(w2 & Ha & Hsave)]; [by eapply Hawait|].
  destruct (Hawait _ _ Ha) as [Hc2 Hf2].
  rewrite save_results_spec in Hsave.
  destruct (found_paths (self w2)) eqn:?, (results_error env);
    simplify_eq; simpl; split; congruence.
Qed.

(** C9, as the code has it.  A run that returns normally from a fresh
    object and has recorded a hit has written one file, the array of the
    entries of [found_paths], one item per entry and in the order recorded;
    for a directory object every item is the two-component array
    [status, url], for a Joomla object every item is a bare string, the
    password. *)
Theorem results_file_entries env sched w w' :
  run env sched w = Some (w', Ok ()) →
  found_paths (self w) = [] →
  let items := found_to_json <$> found_paths (self w') in
  (found_paths (self w') ≠ [] →
   written w' = written w ++ [("found_paths.json", JArray items)])
  ∧ length items = length (found_paths (self w'))
  ∧ (∀ i f, found_paths (self w') !! i = Some f →
            items !! i = Some (found_to_json f))
  ∧ Forall (json_of_class (cls (self w))) items
  ∧ (cls (self w) = WebBruterClass →
     Forall is_pair items
     ∧ ∀ i f, found_paths (self w') !! i = Some f →
              ∃ st url, f = FoundPath st url
                        ∧ items !! i = Some (JArray [JInt st; JString url]))
  ∧ (cls (self w) = JoomlaBruterClass →
     Forall (λ j, ¬ is_pair j) items
     ∧ ∀ i f, found_paths (self w') !! i = Some f →
              ∃ password, f = FoundPassword password
                          ∧ items !! i = Some (JString password)).
Proof.
  intros Hrun Hnil items.
  assert (∀ i f, found_paths (self w') !! i = Some f →
                 items !! i = Some (found_to_json f)) as Hitems.
  { intros i f Hi. unfold items. by rewrite list_lookup_fmap, Hi. }
  split.
  { intros Hne.
    destruct (run_written _ _ _ _ _ Hrun) as [[_ [?|?]]|(Hw & _ & _)]; done. }
  split; [unfold items; by rewrite length_fmap|]. split; [done|].
  destruct (run_found_class _ _ _ _ _ Hrun) as [_ Hall];
    [by rewrite Hnil|].
  assert (Forall (json_of_class (cls (self w))) items) as Hjson.
  { unfold items. apply Forall_fmap. eapply Forall_impl; [done|].
    intros f. apply found_to_json_class. }
  split; [done|]. split; intros Hc; rewrite Hc in Hjson, Hall.
  - split.
    + eapply Forall_impl; [done|]. intros j (st & url & ->). by eexists _, _.
    + intros i f Hi. pose proof (Forall_lookup_1 _ _ _ _ Hall Hi) as Hf.
      destruct f as [st url|]; [|done]. exists st, url. split; [done|].
      by rewrite (Hitems _ _ Hi).
  - split.
    + eapply Forall_impl; [done|]. intros j (pw & ->) (a & b & ?). done.
    + intros i f Hi. pose proof (Forall_lookup_1 _ _ _ _ Hall Hi) as Hf.
      destruct f as [|pw]; [done|]. exists pw. split; [done|].
      by rewrite (Hitems _ _ Hi).
Qed.

Lemma results_file_entries_witness :
  let w := Examples.dir_world "words.txt" in
  found_paths (self w) = []
  ∧ ∃ w', run Examples.env_site [] w = Some (w', Ok ())
          ∧ found_paths (self w')
            = [FoundPath 200 "http://target/admin";
               FoundPath 200 "http://target/admin.php"]
          ∧ written w'
            = [("found_paths.json",
                JArray [JArray [JInt 200; JString "http://target/admin"];
                        JArray [JInt 200; JString "http://target/admin.php"]])].
Proof.
  split; [reflexivity|].
  eexists.
  match goal with
  | |- ?A ∧ _ => assert A as Hrun by (vm_compute; reflexivity)
  end.
  split; [exact Hrun|]. split; [reflexivity|].
  destruct (results_file_entries _ _ _ _ Hrun eq_refl) as (Hw & _).
  apply Hw. discriminate.
Defined.

(** C9 as stated fails in credential mode: the file written by the Joomla
    command holds the password itself, not a pair. *)
Lemma joomla_results_counterexample :
  ∃ w', main Examples.env_site [] Examples.joomla_args
        = Some (Some w', ExitCode 0)
        ∧ written w' = [("found_paths.json", JArray [JString "letmein"])]
        ∧ ¬ Forall is_pair [JString "letmein"].
Proof.
  eexists. split; [vm_compute; reflexivity|]. split; [reflexivity|].
  intros [(a & b & H) _]%Forall_cons. discriminate H.
Qed.

(** ** The credential probe *)

Lemma step_login_hit env i w password req resp content :
  cls (self w) = JoomlaBruterClass →
  tasks w !! i = Some (AwaitText password req resp) →
  text resp = Ok content → has_indicator (config (self w)) content →
  step env i w
  = Some (set_tasks (<[i := Sleeping]> (tasks w))
            (on_self (λ b, set_stop_event true
                             (set_found_paths
                                (found_paths b ++ [FoundPassword password]) b))
                     w)).
Proof.
  intros Hcls Ht Htext Hind%any_indicator_spec.
  unfold step. rewrite Ht. simpl.
  unfold on_text, res_map, except_return. by rewrite Hcls, Htext, Hind.
Qed.

(** * Further properties of the engine *)

(** ** Results only grow *)

Lemma worker_step_grows env t t' w w' :
  worker_step env t w = Some (w', t') →
  found_paths (self w) `prefix_of` found_paths (self w')
  ∧ scanned_count (self w) ≤ scanned_count (self w')
  ∧ sent w `prefix_of` sent w'
  ∧ queue (self w') `suffix_of` queue (self w).
Proof.
  intros Hstep. step_cases;
    repeat match goal with H : queue (self _) = _ |- _ => rewrite H end;
    repeat split;
    try done; try lia; try (by apply prefix_app_r);
    try (by apply suffix_cons_r).
Qed.

Lemma engine_step_grows env w w' :
  engine_step env w w' →
  found_paths (self w) `prefix_of` found_paths (self w')
  ∧ scanned_count (self w) ≤ scanned_count (self w')
  ∧ sent w `prefix_of` sent w'
  ∧ written w `prefix_of` written w'.
Proof.
  intros Hstep. destruct Hstep as [w|w|w|w w' Hl|w|w].
  - rewrite init_session_spec. by destruct (session_error env).
  - rewrite load_wordlist_spec. by destruct (fs_open env _).
  - done.
  - destruct Hl as [i w w' Hstep|w|w]; [|done|done].
    destruct (step_inv _ _ _ _ Hstep) as (t & wt & t' & Ht & Hs & ->).
    simpl. rewrite (worker_step_written _ _ _ _ _ Hs).
    by destruct (worker_step_grows _ _ _ _ _ Hs) as (? & ? & ? & _).
  - assert (self (save_results env w).1 = self w
            ∧ sent (save_results env w).1 = sent w
            ∧ written w `prefix_of` written (save_results env w).1)
      as (-> & -> & Hw); [|done].
    rewrite save_results_spec.
    destruct (found_paths (self w)), (results_error env); simpl;
      repeat split; try done; by apply prefix_app_r.
  - rewrite close_session_spec. by destruct (session (self w)).
Qed.

(** Whatever the engine and the workers do, [found_paths], the record of
    requests and the files written are only ever appended to, and
    [scanned_count] never decreases. *)
Theorem results_only_grow env w w' :
  rtc (engine_step env) w w' →
  found_paths (self w) `prefix_of` found_paths (self w')
  ∧ scanned_count (self w) ≤ scanned_count (self w')
  ∧ sent w `prefix_of` sent w'
  ∧ written w `prefix_of` written w'.
Proof.
  induction 1 as [|w w1 w' H1 _ IH]; [done|].
  destruct (engine_step_grows _ _ _ H1) as (Hf & Hn & Hs & Hw).
  destruct IH as (Hf' & Hn' & Hs' & Hw').
  repeat split; [by etrans|lia|by etrans|by etrans].
Qed.

Lemma results_only_grow_witness :
  ∃ w', run Examples.env_site [] (Examples.dir_world "words.txt")
        = Some (w', Ok ())
        ∧ [] `prefix_of` found_paths (self w')
        ∧ 0 ≤ scanned_count (self w').
Proof.
  eexists.
  match goal with
  | |- ?A ∧ _ => assert A as Hrun by (vm_compute; reflexivity)
  end.
  split; [exact Hrun|].
  destruct (results_only_grow _ _ _ (run_reachable _ _ _ _ _ Hrun))
    as (Hf & Hn & _).
  split; [exact Hf|exact Hn].
Defined.

(** ** The session is released *)

Lemma step_dropped env i w w' :
  step env i w = Some w' → dropped w' = dropped w.
Proof.
  intros (t & wt & t' & Ht & Hs & ->)%step_inv. simpl.
  clear Ht. by step_cases.
Qed.

Lemma await_workers_session env sched w w' r :
  await_workers env sched w = Some (w', r) →
  session (self w') = session (self w) ∧ dropped w' = dropped w.
Proof.
  intros Hreach%await_workers_reachable.
  apply (loop_steps_invariant env
           (λ u, session (self u) = session (self w) ∧ dropped u = dropped w)
           w w'); [| | |done|done].
  - intros i u u' [Hs Hd] Hstep.
    by rewrite (step_session _ _ _ _ Hstep), (step_dropped _ _ _ _ Hstep).
  - by intros u [Hs Hd].
  - by intros u [Hs Hd].
Qed.

(** However [run] ends, the session the object refers to is not left
    open, and when the session could be created it is closed.  A session
    the object already had when [run] was entered is the only one [run]
    drops: it is replaced by the new one and stays as it was, so an open
    one is never closed. *)
Theorem run_closes_session env sched w w' r :
  run env sched w = Some (w', r) →
  session (self w') ≠ Some SessionOpen
  ∧ (session_error env = None →
     session (self w') = Some SessionClosed
     ∧ dropped w' = dropped w ++ option_list (session (self w)))
  ∧ (session (self w) = None → dropped w' = dropped w).
Proof.
  intros (w3 & -> & H)%run_inv. rewrite close_session_spec. simpl.
  split; [destruct (session (self w3)) eqn:E; [done|by rewrite E]|].
  assert (dropped (match session (self w3) with
                   | Some _ => on_self (set_session (Some SessionClosed)) w3
                   | None => w3
                   end) = dropped w3) as ->
    by by destruct (session (self w3)).
  assert (∀ w1 r1,
            (init_session env ;; load_wordlist env ;; spawn_workers) w = (w1, r1) →
            (session_error env = None →
             session (self w1) = Some SessionOpen
             ∧ dropped w1 = dropped w ++ option_list (session (self w)))
            ∧ (session (self w) = None → dropped w1 = dropped w)) as Hsetup.
  { intros w1 r1. rewrite setup_spec.
    destruct (session_error env); [by intros [= <- <-]|].
    destruct (fs_open env _) as [e|lines [e|]]; intros [= <- <-]; simpl;
      (split; [done|intros ->; simpl; by rewrite app_nil_r]). }
  assert (∀ w2, session (self w3) = session (self w2) →
            dropped w3 = dropped w2 →
            (session_error env = None →
             session (self w2) = Some SessionOpen
             ∧ dropped w2 = dropped w ++ option_list (session (self w)))
            ∧ (session (self w) = None → dropped w2 = dropped w) →
            (session_error env = None →
             session (self match session (self w3) with
                           | Some _ => on_self (set_session (Some SessionClosed)) w3
                           | None => w3
                           end) = Some SessionClosed
             ∧ dropped w3 = dropped w ++ option_list (session (self w)))
            ∧ (session (self w) = None → dropped w3 = dropped w)) as Hend.
  { intros w2 Hs Hd [H1 H2]. rewrite Hs, Hd. split; [|done].
    intros Hsess. destruct (H1 Hsess) as [-> ->]. done. }
  destruct H as [[Hs _]|(w1 & Hs & H)]; [by eapply Hend, Hsetup|].
  apply Hsetup in Hs.
  destruct H as [[Ha _]|(w2 & Ha & Hsave)].
  { destruct (await_workers_session _ _ _ _ _ Ha) as [Hs3 Hd3].
    by eapply (Hend w1). }
  destruct (await_workers_session _ _ _ _ _ Ha) as [Hs2 Hd2].
  apply (Hend w1); [| |done].
  - rewrite <- Hs2. rewrite save_results_spec in Hsave.
    by destruct (found_paths (self w2)), (results_error env); simplify_eq.
  - rewrite <- Hd2. rewrite save_results_spec in Hsave.
    by destruct (found_paths (self w2)), (results_error env); simplify_eq.
Qed.

Lemma run_closes_session_witness :
  ∃ w w', prepare Examples.env_site Examples.joomla_args = (Some w, Ok ())
          ∧ run Examples.env_site [Resume 1; Interrupt] w = Some (w', Ok ())
          ∧ session (self w) = Some SessionOpen
          ∧ session (self w') = Some SessionClosed
          ∧ dropped w' = [SessionOpen].
Proof.
  eexists _, _.
  match goal with
  | |- ?A ∧ _ => assert A as Hprep by (vm_compute; reflexivity)
  end.
  split; [exact Hprep|].
  match goal with
  | |- ?A ∧ _ => assert A as Hrun by (vm_compute; reflexivity)
  end.
  split; [exact Hrun|]. split; [reflexivity|].
  destruct (run_closes_session _ _ _ _ _ Hrun) as (_ & Hclosed & _).
  exact (Hclosed eq_refl).
Defined.

(** ** Every execution is finite *)

Lemma work_left_bound w :
  (work_left w ≤ 4 * length (queue (self w)) + 3 * length (tasks w))%nat.
Proof.
  assert (∀ ts, sum_list (task_weight <$> ts) ≤ 3 * length ts)%nat as Hsum.
  { induction ts as [|t ts IH]; [simpl; lia|].
    rewrite fmap_cons. cbn [sum_list_with length]. unfold id at 1.
    destruct t; cbn [task_weight]; lia. }
  unfold work_left. specialize (Hsum (tasks w)). lia.
Qed.

(** No sequence of resumptions is longer than four times the length of the
    queue plus three times the number of tasks: the workers cannot keep
    each other busy for ever. *)
Theorem executions_are_bounded env idxs w w' :
  exec env idxs w = Some w' →
  (length idxs + work_left w' ≤ work_left w)%nat
  ∧ (length idxs ≤ 4 * length (queue (self w)) + 3 * length (tasks w))%nat.
Proof.
  intros Hexec.
  assert (length idxs + work_left w' ≤ work_left w)%nat as Hlen.
  { revert w Hexec. induction idxs as [|i idxs IH]; intros w; simpl.
    - intros [= ->]. lia.
    - destruct (step env i w) as [w1|] eqn:Hstep; [|done].
      intros Hexec. specialize (IH _ Hexec).
      pose proof (step_work_left _ _ _ _ Hstep). lia. }
  split; [done|]. pose proof (work_left_bound w). lia.
Qed.

Lemma executions_are_bounded_witness :
  let w := Examples.stopped_world in
  ∃ w', exec Examples.env_site [0; 1; 0]%nat w = Some w'
        ∧ (3 ≤ 4 * length (queue (self w)) + 3 * length (tasks w))%nat.
Proof.
  eexists.
  match goal with
  | |- ?A ∧ _ => assert A as Hexec by (vm_compute; reflexivity)
  end.
  split; [exact Hexec|].
  exact (proj2 (executions_are_bounded _ _ _ _ Hexec)).
Defined.

(** ** Stripping *)

Lemma lstrip_split p s :
  ∃ pre, s = pre +:+ PyStr.lstrip p s ∧ all_chars p pre = true.
Proof.
  induction s as [|c s (pre & IH & Hpre)]; simpl.
  - by exists "".
  - destruct (p c) eqn:Hc.
    + exists (String c pre). rewrite PyStrFacts.app_cons, <- IH. simpl.
      by rewrite Hc.
    + by exists "".
Qed.

Lemma lstrip_first p s :
  ∀ c, first_char (PyStr.lstrip p s) = Some c → p c = false.
Proof.
  intros c. pose proof (PyStrFacts.lstrip_no_head p s) as H.
  destruct (PyStr.lstrip p s); simpl; [done|]. by intros [= <-].
Qed.

Lemma rstrip_split p s :
  ∃ post, s = PyStr.rstrip p s +:+ post ∧ all_chars p post = true.
Proof.
  induction s as [|c s (post & IH & Hpost)]; simpl.
  - by exists "".
  - destruct (PyStr.rstrip p s) eqn:Hr.
    + destruct (p c) eqn:Hc.
      * exists (String c s). split; [done|]. simpl. rewrite Hc. simpl.
        simpl in IH. by rewrite IH.
      * exists s. split; [done|]. simpl in IH. by rewrite IH.
    + exists post. by rewrite PyStrFacts.app_cons, <- IH.
Qed.

Lemma rstrip_last p s :
  ∀ c, last_char (PyStr.rstrip p s) = Some c → p c = false.
Proof.
  induction s as [|a s IH]; intros c; simpl; [done|].
  destruct (PyStr.rstrip p s) as [|b r] eqn:Hr.
  - destruct (p a) eqn:Ha; simpl; [done|]. by intros [= <-].
  - intros Hc. apply IH. simpl in *.
    by destruct (last_char r).
Qed.

Lemma lstrip_app_all p t s :
  all_chars p t = true → PyStr.lstrip p (t +:+ s) = PyStr.lstrip p s.
Proof.
  induction t as [|c t IH]; [done|].
  intros Hall. simpl in Hall. apply andb_true_iff in Hall as [Hc Ht].
  change (String c t +:+ s) with (String c (t +:+ s)). simpl.
  rewrite Hc. by apply IH.
Qed.

Lemma rstrip_all p t : all_chars p t = true → PyStr.rstrip p t = "".
Proof.
  induction t as [|c t IH]; [done|].
  intros Hall. simpl in Hall. apply andb_true_iff in Hall as [Hc Ht].
  simpl. by rewrite IH, Hc.
Qed.

Lemma rstrip_app_all p s t :
  all_chars p t = true → PyStr.rstrip p (s +:+ t) = PyStr.rstrip p s.
Proof.
  intros Ht. induction s as [|c s IH].
  - by apply rstrip_all.
  - change (String c s +:+ t) with (String c (s +:+ t)). simpl.
    by rewrite IH.
Qed.

Lemma rstrip_cons_keep p c s :
  p c = false → ∃ r, PyStr.rstrip p (String c s) = String c r.
Proof.
  intros Hc. simpl. destruct (PyStr.rstrip p s); rewrite ?Hc; by eexists.
Qed.

(** The URL of a probe has exactly one slash at the joint: it is the base
    without the slashes at its end, a slash, and the candidate without the
    slashes at its start; the part before the joint does not end with a
    slash and the part after it does not start with one. *)
Theorem check_path_url_joint cfg path :
  ∃ base rest s1 s2,
    target_url cfg = base +:+ s1 ∧ path = s2 +:+ rest
    ∧ all_chars (PyStr.is_char "/") s1 = true
    ∧ all_chars (PyStr.is_char "/") s2 = true
    ∧ last_char base ≠ Some "/"%char
    ∧ first_char rest ≠ Some "/"%char
    ∧ check_path_url cfg path = base +:+ "/" +:+ rest.
Proof.
  destruct (rstrip_split (PyStr.is_char "/") (target_url cfg)) as (s1 & H1 & Hs1).
  destruct (lstrip_split (PyStr.is_char "/") path) as (s2 & H2 & Hs2).
  exists (PyStr.rstrip (PyStr.is_char "/") (target_url cfg)),
         (PyStr.lstrip (PyStr.is_char "/") path), s1, s2.
  repeat split; try done.
  - intros H%rstrip_last. discriminate H.
  - intros H%lstrip_first. discriminate H.
Qed.

(** Slashes at the end of the base and at the start of the candidate do
    not matter: adding any number of them gives the same URL. *)
Theorem check_path_url_ignores_slashes cfg cfg' path s1 s2 :
  target_url cfg' = target_url cfg +:+ s1 →
  all_chars (PyStr.is_char "/") s1 = true →
  all_chars (PyStr.is_char "/") s2 = true →
  check_path_url cfg' (s2 +:+ path) = check_path_url cfg path.
Proof.
  intros Hurl Hs1 Hs2. unfold check_path_url.
  by rewrite Hurl, rstrip_app_all, lstrip_app_all.
Qed.

Lemma check_path_url_ignores_slashes_witness :
  let cfg := Examples.dir_config "words.txt" in
  target_url cfg = "http://target" +:+ "/"
  ∧ all_chars (PyStr.is_char "/") "/" = true
  ∧ all_chars (PyStr.is_char "/") "//" = true
  ∧ check_path_url cfg ("//" +:+ "admin") = "http://target/admin".
Proof.
  split; [reflexivity|]. split; [reflexivity|]. split; [reflexivity|].
  exact (check_path_url_ignores_slashes
           {| target_url := "http://target"; wordlist_path := "";
              extensions := []; threads := 1; cookies := ∅; headers := ∅;
              form_data := ∅; success_indicators := [];
              rate_limit_delay := 0 |}
           (Examples.dir_config "words.txt") "admin" "/" "//"
           eq_refl eq_refl eq_refl).
Defined.

(** ** What the loader puts in the queue *)

Lemma strip_well_formed line :
  PyStr.truthy (PyStr.strip line) = true →
  well_formed_candidate (PyStr.strip line).
Proof.
  unfold PyStr.strip.
  pose proof (PyStrFacts.lstrip_no_head PyStr.is_space line) as Hhead.
  destruct (PyStr.lstrip PyStr.is_space line) as [|a s]; [done|].
  destruct (rstrip_cons_keep PyStr.is_space a s Hhead) as [r ->].
  intros _. by exists a, r.
Qed.

Lemma line_entries_well_formed exts line :
  Forall well_formed_candidate (line_entries exts line).
Proof.
  unfold line_entries, entries.
  destruct (PyStr.truthy (PyStr.strip line)) eqn:Ht; [|constructor].
  destruct (strip_well_formed line Ht) as (a & r & Hw & Ha).
  constructor; [by exists a, r|].
  destruct (PyStr.contains "." (PyStr.strip line)); [constructor|].
  apply Forall_fmap, Forall_forall. intros ext _. rewrite Hw.
  by exists a, (r +:+ ext).
Qed.

(** Whatever the file holds and however reading it ends, [load_wordlist]
    only appends to the queue, and every candidate it appends is non-empty
    and does not begin with whitespace: blank lines give nothing. *)
Theorem loaded_candidates_well_formed env w :
  ∃ added,
    queue (self (load_wordlist env w).1) = queue (self w) ++ added
    ∧ Forall well_formed_candidate added.
Proof.
  rewrite load_wordlist_spec.
  destruct (fs_open env _) as [e|lines err].
  - exists []. by rewrite app_nil_r.
  - eexists. split; [done|].
    apply Forall_join, Forall_fmap, Forall_forall. intros line _.
    apply line_entries_well_formed.
Qed.

(** ** Candidates leave the queue in order, once *)

Lemma worker_loop_takes w w' t' :
  session (self w) = Some SessionOpen →
  worker_loop w = (w', t') →
  ∃ taken,
    queue (self w) = taken ++ queue (self w')
    ∧ sent w' = sent w
                ++ (probe_request (cls (self w)) (config (self w)) <$> taken)
    ∧ (length taken ≤ 1)%nat.
Proof.
  intros Hsess Hstep. unfold worker_loop, session_send in Hstep. unfold_M.
  destruct (queue (self w)) as [|c q] eqn:Hq.
  { simplify_eq. exists []. simpl. rewrite ?Hq, ?app_nil_r.
    repeat split; done || lia. }
  destruct (stop_event (self w)); simpl in Hstep.
  - simplify_eq. exists []. simpl. rewrite ?Hq, ?app_nil_r.
    repeat split; done || lia.
  - rewrite Hsess in Hstep. simplify_eq. exists [c]. simpl.
    split; [done|]. split; [done|lia].
Qed.

Lemma worker_step_takes env t t' w w' :
  session (self w) = Some SessionOpen →
  worker_step env t w = Some (w', t') →
  ∃ taken,
    queue (self w) = taken ++ queue (self w')
    ∧ sent w' = sent w
                ++ (probe_request (cls (self w)) (config (self w)) <$> taken)
    ∧ (length taken ≤ 1)%nat.
Proof.
  intros Hsess Hstep.
  destruct t as [|c req|c req resp| | | |]; simpl in *; simplify_eq.
  - by eapply worker_loop_takes.
  - exists []. simpl. rewrite app_nil_r.
    step_cases; repeat split; done || lia.
  - exists []. simpl. rewrite app_nil_r.
    step_cases; repeat split; done || lia.
  - destruct (sleep_returns _); simplify_eq. by eapply worker_loop_takes.
  - exists []. simpl. rewrite !app_nil_r. repeat split; done || lia.
Qed.

Lemma loop_steps_taken env w w' :
  rtc (loop_step env) w w' →
  session (self w) = Some SessionOpen →
  ∃ taken,
    queue (self w) = taken ++ queue (self w')
    ∧ sent w' = sent w
                ++ (probe_request (cls (self w)) (config (self w)) <$> taken).
Proof.
  induction 1 as [w|w w1 w' H1 _ IH]; intros Hsess.
  { exists []. by rewrite app_nil_r. }
  destruct H1 as [i w w1 Hstep|w|w].
  - destruct (step_inv _ _ _ _ Hstep) as (t & wt & t' & Ht & Hs & ->).
    destruct (worker_step_takes _ _ _ _ _ Hsess Hs) as (k1 & Hq1 & Hs1 & _).
    destruct IH as (k2 & Hq2 & Hs2).
    { simpl. by rewrite (worker_step_session _ _ _ _ _ Hs). }
    simpl in *. exists (k1 ++ k2).
    rewrite (worker_step_cls _ _ _ _ _ Hs),
            (worker_step_config _ _ _ _ _ Hs) in Hs2.
    rewrite Hq1, Hq2, Hs2, Hs1, fmap_app. by rewrite !app_assoc.
  - destruct IH as (k2 & Hq2 & Hs2); [done|]. by exists k2.
  - destruct IH as (k2 & Hq2 & Hs2); [done|]. by exists k2.
Qed.

(** While the session is open the requests that go out are those of the
    candidates that left the queue, in the order of the queue: no
    candidate is skipped, none is sent twice, and what has not been sent
    is still queued. *)
Theorem candidates_are_taken_in_order env w w' :
  rtc (loop_step env) w w' →
  session (self w) = Some SessionOpen →
  ∃ taken,
    queue (self w) = taken ++ queue (self w')
    ∧ sent w' = sent w
                ++ (probe_request (cls (self w)) (config (self w)) <$> taken).
Proof. apply loop_steps_taken. Qed.

Lemma candidates_are_taken_in_order_witness :
  let w := Examples.opened
             (on_self (set_queue ["admin"; "login.php"])
                      (set_tasks [Ready; Ready] (Examples.dir_world "words.txt"))) in
  ∃ w', rtc (loop_step Examples.env_site) w w'
        ∧ session (self w) = Some SessionOpen
        ∧ ∃ taken, queue (self w) = taken ++ queue (self w')
                   ∧ sent w' = sent w
                         ++ (probe_request WebBruterClass (config (self w))
                               <$> taken).
Proof.
  eexists.
  match goal with
  | |- ?A ∧ _ =>
      assert A as Hreach
        by (eapply rtc_l;
            [apply (loop_resume _ 1%nat); vm_compute; reflexivity
            |apply rtc_refl])
  end.
  split; [exact Hreach|]. split; [reflexivity|].
  exact (candidates_are_taken_in_order _ _ _ Hreach eq_refl).
Defined.

(** ** A run tries every candidate, unless it is stopped *)

Lemma step_tasks env i w w' :
  step env i w = Some w' →
  ∃ t', tasks w' = <[i := t']> (tasks w) ∧ tasks w' !! i = Some t'.
Proof.
  intros (t & wt & t' & Ht & Hs & ->)%step_inv. exists t'. simpl.
  split; [done|]. apply list_lookup_insert_eq. by eapply lookup_lt_Some.
Qed.

(** The first wait ends normally only with every task finished. *)
Lemma gather_false_Ok env fuel sched w w' sched' :
  gather env false fuel sched w = Some (w', sched', Ok ()) →
  Forall not_crashed (tasks w) →
  Forall (λ t, t = Finished) (tasks w').
Proof.
  revert sched w. induction fuel as [|fuel IH]; intros sched w; simpl;
    destruct (first_live (tasks w)) as [d|] eqn:Hd; try done.
  - intros [= <- <-] Hnc. apply first_live_None in Hd.
    apply Forall_lookup. intros k t Hk.
    pose proof (Forall_lookup_1 _ _ _ _ Hd Hk) as Hl.
    pose proof (Forall_lookup_1 _ _ _ _ Hnc Hk) as Hn.
    destruct t; try done. by destruct (Hn e).
  - destruct (next_event sched w) as [[i|]|]; [|done|done].
    destruct (step env i w) as [w1|] eqn:Hstep; [|by apply IH].
    destruct (step_tasks _ _ _ _ Hstep) as (t' & Hts & Hi). rewrite Hi.
    intros Hg Hnc.
    assert (not_crashed t' → Forall not_crashed (tasks w1)) as Hnc1.
    { intros H'. rewrite Hts. by apply Forall_insert. }
    destruct t'; try (apply (IH _ _ Hg), Hnc1; by intros ?). done.
  - intros [= <- <-] Hnc. apply first_live_None in Hd.
    apply Forall_lookup. intros k t Hk.
    pose proof (Forall_lookup_1 _ _ _ _ Hd Hk) as Hl.
    pose proof (Forall_lookup_1 _ _ _ _ Hnc Hk) as Hn.
    destruct t; try done. by destruct (Hn e).
Qed.

Lemma worker_step_drained env t t' w w' :
  worker_step env t w = Some (w', t') →
  (t' = Finished → queue (self w') = [] ∨ stop_event (self w') = true)
  ∧ (queue (self w) = [] ∨ stop_event (self w) = true →
     queue (self w') = [] ∨ stop_event (self w') = true).
Proof.
  intros Hstep. step_cases; (split; [intros Hfin|intros Hd]); try done; auto.
  all: simpl.
  all: try (destruct Hd as [Hd|Hd]; congruence).
  all: try (right; congruence).
  all: try (left; congruence).
Qed.

Lemma step_drained env i w w' :
  step env i w = Some w' →
  (∀ j, tasks w !! j = Some Finished →
        queue (self w) = [] ∨ stop_event (self w) = true) →
  ∀ j, tasks w' !! j = Some Finished →
       queue (self w') = [] ∨ stop_event (self w') = true.
Proof.
  intros (t & wt & t' & Ht & Hs & ->)%step_inv Hinv j. simpl.
  destruct (worker_step_drained _ _ _ _ _ Hs) as [Hfin Hkeep].
  intros [(-> & -> & _) | [_ Hj]]%list_lookup_insert_Some; eauto.
Qed.

Lemma setup_Ok env w w1 :
  (init_session env ;; load_wordlist env ;; spawn_workers) w = (w1, Ok ()) →
  ∃ lines,
    session_error env = None
    ∧ fs_open env (wordlist_path (config (self w))) = FileLines lines None
    ∧ w1 = set_tasks
             (replicate (Z.to_nat (threads (config (self w)))) Ready)
             (enqueue (mjoin (line_entries (extensions (config (self w))) <$> lines))
                      (bind_session w)).
Proof.
  rewrite setup_spec.
  destruct (session_error env); [done|].
  destruct (fs_open env _) as [e|lines [e|]]; try done.
  intros [= <-]. by exists lines.
Qed.

Lemma run_drains env sched w w' :
  run env sched w = Some (w', Ok ()) →
  0 < threads (config (self w)) →
  queue (self w') = [] ∨ stop_event (self w') = true.
Proof.
  intros (w3 & -> & H)%run_inv Hthreads.
  assert (queue (self (close_session w3).1) = queue (self w3)
          ∧ stop_event (self (close_session w3).1) = stop_event (self w3))
    as [-> ->].
  { rewrite close_session_spec. by destruct (session (self w3)). }
  destruct H as [[_ [e ?]]|(w1 & Hs & H)]; [done|].
  destruct H as [[_ [e ?]]|(w2 & Ha & Hsave)]; [done|].
  assert (self w3 = self w2) as ->.
  { rewrite save_results_spec in Hsave.
    by destruct (found_paths (self w2)), (results_error env); simplify_eq. }
  clear Hsave w3.
  apply setup_Ok in Hs as (lines & _ & _ & Hw1).
  set (n := Z.to_nat (threads (config (self w)))) in *.
  assert (0 < n)%nat as Hn by (unfold n; lia).
  assert (tasks w1 = replicate n Ready) as Ht1 by by rewrite Hw1.
  clear Hw1. unfold await_workers in Ha.
  destruct (gather env false _ sched w1) as [[[u1 s1] r1]|] eqn:H1; [|done].
  destruct r1 as [[]|e].
  - simplify_eq.
    assert (Forall (λ t, t = Finished) (tasks w2)) as Hfin.
    { eapply gather_false_Ok; [done|]. rewrite Ht1.
      apply replicate_Ready_not_crashed. }
    assert (length (tasks w2) = length (tasks w1)) as Hlen.
    { eapply (gather_invariant env (λ u, length (tasks u) = length (tasks w1)));
        [| |reflexivity|exact H1].
      - intros i u u' Hu Hstep. by rewrite (step_length_tasks _ _ _ _ Hstep).
      - intros u Hu. simpl. by rewrite length_fmap. }
    rewrite Ht1, length_replicate in Hlen.
    destruct (tasks w2) as [|t ts] eqn:Hts; [simpl in Hlen; lia|].
    apply Forall_cons in Hfin as [-> _].
    assert (∀ j, tasks w2 !! j = Some Finished →
                 queue (self w2) = [] ∨ stop_event (self w2) = true) as Hinv.
    { eapply (gather_invariant env
                (λ u, ∀ j, tasks u !! j = Some Finished →
                           queue (self u) = [] ∨ stop_event (self u) = true));
        [| | |exact H1].
      - intros i u u' Hu Hstep j. exact (step_drained env i u u' Hstep Hu j).
      - intros u Hu j. simpl. rewrite list_lookup_fmap.
        destruct (tasks u !! j) as [t|] eqn:Hj; [|done].
        destruct t; try done. intros _. by apply (Hu j).
      - intros j. rewrite Ht1. intros [Hr _]%lookup_replicate. discriminate Hr. }
    apply (Hinv 0%nat). by rewrite Hts.
  - destruct e; try (by simplify_eq).
    destruct (gather env true _ s1 _) as [[[u3 s3] r3]|] eqn:H3; [|done].
    simplify_eq. right.
    eapply (gather_invariant env (λ u, stop_event (self u) = true));
      [| | |exact H3]; [|done|done].
    intros i u u' Hu Hstep.
    by destruct (step_stopped _ _ _ _ Hu Hstep).
Qed.

(** When [run] returns normally with at least one worker, the queue is
    empty or the event is set: without a stop every candidate was taken. *)
Theorem run_exhausts_queue env sched w w' :
  run env sched w = Some (w', Ok ()) →
  0 < threads (config (self w)) →
  queue (self w') = [] ∨ stop_event (self w') = true.
Proof. apply run_drains. Qed.

Lemma run_exhausts_queue_witness :
  ∃ w', run Examples.env_site [Resume 1; Resume 0; Resume 1]
            (Examples.dir_world "words.txt")
        = Some (w', Ok ())
        ∧ 0 < threads (config (self (Examples.dir_world "words.txt")))
        ∧ (queue (self w') = [] ∨ stop_event (self w') = true).
Proof.
  eexists.
  match goal with
  | |- ?A ∧ _ => assert A as Hrun by (vm_compute; reflexivity)
  end.
  split; [exact Hrun|]. split; [reflexivity|].
  exact (run_exhausts_queue _ _ _ _ Hrun eq_refl).
Defined.

(** With a thread count of zero or less no worker is created: [run] loads
    the wordlist and ends without a single request or hit. *)
Theorem no_workers_no_probes env sched w w' r :
  threads (config (self w)) ≤ 0 →
  run env sched w = Some (w', r) →
  sent w' = sent w
  ∧ found_paths (self w') = found_paths (self w)
  ∧ scanned_count (self w') = scanned_count (self w)
  ∧ (written w' = written w
     ∨ written w'
       = written w ++ [("found_paths.json", json_dump (found_paths (self w)))]).
Proof.
  intros Hthreads (w3 & -> & H)%run_inv.
  assert (sent (close_session w3).1 = sent w3
          ∧ found_paths (self (close_session w3).1) = found_paths (self w3)
          ∧ scanned_count (self (close_session w3).1) = scanned_count (self w3)
          ∧ written (close_session w3).1 = written w3)
    as (-> & -> & -> & ->).
  { rewrite close_session_spec. by destruct (session (self w3)). }
  assert (∀ u rr,
            (init_session env ;; load_wordlist env ;; spawn_workers) w = (u, rr) →
            sent u = sent w ∧ found_paths (self u) = found_paths (self w)
            ∧ scanned_count (self u) = scanned_count (self w)
            ∧ written u = written w) as Hsetup.
  { intros u rr. rewrite setup_spec. destruct (session_error env);
      [by intros [= <- <-]|].
    destruct (fs_open env _) as [e|lines [e|]]; by intros [= <- <-]. }
  destruct H as [[Hs [e ->]]|(w1 & Hs & H)].
  { destruct (Hsetup _ _ Hs) as (-> & -> & -> & ->). auto. }
  destruct (Hsetup _ _ Hs) as (<- & <- & <- & <-).
  apply setup_Ok in Hs as (lines & _ & _ & Hw1).
  assert (tasks w1 = []) as Ht1.
  { rewrite Hw1. simpl. by replace (Z.to_nat _) with 0%nat by lia. }
  assert (await_workers env sched w1 = Some (w1, Ok ())) as Hawait.
  { unfold await_workers.
    assert (∀ fuel, gather env false fuel sched w1 = Some (w1, sched, Ok ()))
      as ->; [|done].
    intros [|fuel]; simpl; by rewrite Ht1. }
  rewrite Hawait in H.
  destruct H as [[H0 [e He]]|(w2 & H0 & Hsave)]; [congruence|].
  assert (w2 = w1) as -> by congruence. clear H0 Hw1.
  rewrite save_results_spec in Hsave.
  destruct (found_paths (self w1)) as [|f fs] eqn:Hf.
  { simplify_eq. auto. }
  destruct (results_error env); simplify_eq; simpl; rewrite ?Hf; auto.
Qed.

Lemma no_workers_no_probes_witness :
  let w := on_self (set_config
                      {| target_url := "http://target/";
                         wordlist_path := "words.txt"; extensions := [".php"];
                         threads := 0; cookies := ∅; headers := ∅;
                         form_data := ∅; success_indicators := [];
                         rate_limit_delay := 0 |})
                   (Examples.dir_world "words.txt") in
  threads (config (self w)) ≤ 0
  ∧ ∃ w', run Examples.env_site [] w = Some (w', Ok ())
          ∧ sent w' = [] ∧ found_paths (self w') = [].
Proof.
  split; [vm_compute; discriminate|].
  eexists.
  match goal with
  | |- ?A ∧ _ => assert A as Hrun by (vm_compute; reflexivity)
  end.
  split; [exact Hrun|].
  match type of Hrun with
  | run ?env ?sched ?w = Some (?w', ?r) =>
      destruct (no_workers_no_probes env sched w w' r
                  ltac:(vm_compute; discriminate) Hrun) as (Hs & Hf & _)
  end.
  split; [exact Hs|exact Hf].
Defined.

(** ** What is recorded is what the target said *)

Lemma candidates_in_flight_insert (ts : list task) i t t' :
  ts !! i = Some t →
  candidates_in_flight ts ++ option_list (candidate_of t')
  ≡ₚ candidates_in_flight (<[i := t']> ts) ++ option_list (candidate_of t).
Proof.
  unfold candidates_in_flight.
  revert i. induction ts as [|u ts IH]; intros [|i] Hi; simplify_eq /=.
  - destruct (candidate_of t), (candidate_of t'); simpl;
      rewrite ?app_nil_r; try done.
    + rewrite (Permutation_app_comm _ [s0]). simpl.
      rewrite (Permutation_app_comm _ [s]). simpl. apply perm_swap.
    + by rewrite (Permutation_app_comm _ [s]).
    + by rewrite (Permutation_app_comm _ [s]).
  - specialize (IH _ Hi). destruct (candidate_of u); simpl; [|done].
    by rewrite IH.
Qed.

Lemma worker_step_verdict env c cfg t t' w w' :
  session (self w) = Some SessionOpen →
  cls (self w) = c → config (self w) = cfg →
  task_ok env c cfg t →
  worker_step env t w = Some (w', t') →
  task_ok env c cfg t'
  ∧ ∃ concluded,
      option_list (candidate_of t) ++ queue (self w)
      = concluded ++ option_list (candidate_of t') ++ queue (self w')
      ∧ found_paths (self w')
        = found_paths (self w) ++ omap (verdict env c cfg) concluded.
Proof.
  intros Hsess Hcls Hcfg Hok Hstep.
  assert (worker_loop w = (w', t') →
          task_ok env c cfg t'
          ∧ ∃ concluded,
              queue (self w)
              = concluded ++ option_list (candidate_of t') ++ queue (self w')
              ∧ found_paths (self w')
                = found_paths (self w) ++ omap (verdict env c cfg) concluded)
    as Hloop.
  { intros Hl. unfold worker_loop, session_send in Hl. unfold_M.
    destruct (queue (self w)) as [|cand q] eqn:Hq.
    { simplify_eq. split; [done|]. exists []. simpl. by rewrite Hq, app_nil_r. }
    destruct (stop_event (self w)); simpl in Hl.
    { simplify_eq. split; [done|]. exists []. simpl. by rewrite Hq, app_nil_r. }
    rewrite Hsess in Hl. simplify_eq. simpl. split; [done|]. exists [].
    simpl. by rewrite app_nil_r. }
  destruct t as [|cand req|cand req resp| | | |]; simpl in *; simplify_eq.
  - by apply Hloop.
  - unfold on_response, probe_failed in *.
    destruct (net env _) as [resp|e] eqn:Hnet.
    + simplify_eq. split; [done|]. exists []. simpl. rewrite app_nil_r.
      by destruct (cls (self w)).
    + assert (found_paths (self w') = found_paths (self w) ∧
                queue (self w') = queue (self w) ∧ candidate_of t' = None) as (Hf & Hqu & Hc).
      { unfold after_check_path, after_login, except_return, miss in *.
        by destruct (cls (self w)), (is_Exception e); simplify_eq /=. }
      split; [by destruct t'|].
      exists [cand]. simpl. unfold verdict. rewrite Hnet, Hc, Hf, Hqu.
      by rewrite app_nil_r.
  - destruct Hok as [-> Hnet]. unfold on_text in *.
    assert (∀ ov,
              verdict env (cls (self w)) (config (self w)) cand = ov →
              found_paths (self w') = found_paths (self w) ++ option_list ov →
              queue (self w') = queue (self w) → candidate_of t' = None →
              task_ok env (cls (self w)) (config (self w)) t'
              ∧ ∃ concluded,
                  cand :: queue (self w)
                  = concluded ++ option_list (candidate_of t') ++ queue (self w')
                  ∧ found_paths (self w')
                    = found_paths (self w)
                      ++ omap (verdict env (cls (self w)) (config (self w)))
                              concluded) as Hgoal.
    { intros ov Hv Hf Hqu Hc. split; [by destruct t'|].
      exists [cand]. simpl. rewrite Hv, Hc, Hf, Hqu. by destruct ov. }
    unfold verdict in Hgoal. rewrite Hnet in Hgoal.
    unfold after_check_path, after_login, except_return, res_map, miss in *.
    destruct (text resp) as [content|e]; simpl in *.
    + destruct (cls (self w)); simpl in *.
      * destruct (classify _ _ _ _) as [st url]. simpl in *.
        eapply Hgoal; [done|..];
          destruct (0 <? st); simplify_eq /=; by rewrite ?app_nil_r.
      * eapply Hgoal; [done|..];
          destruct (any_indicator _ _); simplify_eq /=; by rewrite ?app_nil_r.
    + eapply Hgoal; [done|..];
        destruct (cls (self w)), (is_Exception e); simplify_eq /=;
        by rewrite ?app_nil_r.
  - destruct (sleep_returns _); simplify_eq. by apply Hloop.
  - split; [done|]. exists []. simpl. by rewrite app_nil_r.
Qed.

Lemma step_verdict env c cfg i w w' :
  session (self w) = Some SessionOpen →
  cls (self w) = c → config (self w) = cfg →
  Forall (task_ok env c cfg) (tasks w) →
  step env i w = Some w' →
  Forall (task_ok env c cfg) (tasks w')
  ∧ ∃ concluded,
      candidates_in_flight (tasks w) ++ queue (self w)
      ≡ₚ concluded ++ candidates_in_flight (tasks w') ++ queue (self w')
      ∧ found_paths (self w')
        = found_paths (self w) ++ omap (verdict env c cfg) concluded.
Proof.
  intros Hsess Hcls Hcfg Hall (t & wt & t' & Ht & Hs & ->)%step_inv.
  destruct (worker_step_verdict env c cfg t t' w wt Hsess Hcls Hcfg
              (Forall_lookup_1 _ _ _ _ Hall Ht) Hs)
    as (Hok' & concluded & E1 & Hf).
  simpl. split; [by apply Forall_insert|].
  exists concluded. split; [|done].
  pose proof (candidates_in_flight_insert _ _ _ t' Ht) as E2.
  apply (Permutation_app_inv_r (option_list (candidate_of t'))).
  transitivity ((candidates_in_flight (tasks w) ++ option_list (candidate_of t'))
                  ++ queue (self w)).
  { rewrite <- !app_assoc. f_equiv. apply Permutation_app_comm. }
  rewrite E2, <- app_assoc, E1.
  rewrite <- !app_assoc.
  rewrite (Permutation_app_comm (queue (self wt)) (option_list _)).
  rewrite !app_assoc. do 2 f_equiv. apply Permutation_app_comm.
Qed.

Lemma quiet_steps_verdict env c cfg w w' :
  rtc (quiet_step env) w w' →
  session (self w) = Some SessionOpen →
  cls (self w) = c → config (self w) = cfg →
  Forall (task_ok env c cfg) (tasks w) →
  ∃ done,
    candidates_in_flight (tasks w) ++ queue (self w)
    ≡ₚ done ++ candidates_in_flight (tasks w') ++ queue (self w')
    ∧ found_paths (self w')
      = found_paths (self w) ++ omap (verdict env c cfg) done.
Proof.
  induction 1 as [w|w w1 w' H1 _ IH]; intros Hsess Hcls Hcfg Hall.
  { exists []. by rewrite app_nil_r. }
  destruct H1 as [i w w1 Hstep|w].
  - destruct (step_verdict _ _ _ _ _ _ Hsess Hcls Hcfg Hall Hstep)
      as (Hall1 & k1 & Hp1 & Hf1).
    destruct IH as (k2 & Hp2 & Hf2); [| | |done|].
    + by rewrite (step_session _ _ _ _ Hstep).
    + by rewrite (step_cls _ _ _ _ Hstep).
    + by rewrite (step_config _ _ _ _ Hstep).
    + exists (k1 ++ k2). split.
      * rewrite Hp1, Hp2. by rewrite !app_assoc.
      * by rewrite Hf2, Hf1, omap_app, app_assoc.
  - destruct IH as (k2 & Hp2 & Hf2); try done. by exists k2.
Qed.

Lemma quiet_steps_length env w w' :
  rtc (quiet_step env) w w' → length (tasks w') = length (tasks w).
Proof.
  intros H.
  apply (quiet_steps_invariant env (λ u, length (tasks u) = length (tasks w))
           w w'); [| |done|done]; [|done].
  intros i u u' Hu Hstep. by rewrite (step_length_tasks _ _ _ _ Hstep).
Qed.

Lemma candidates_in_flight_length (ts : list task) :
  (length (candidates_in_flight ts) ≤ length ts)%nat.
Proof.
  unfold candidates_in_flight. induction ts as [|t ts IH]; [done|].
  destruct t; simpl;
    change (list_omap _ _ candidate_of ts) with (omap candidate_of ts); lia.
Qed.

Lemma omap_replicate_Ready n : omap candidate_of (replicate n Ready) = [].
Proof. induction n as [|n IH]; [done|]. by simpl. Qed.

Lemma not_live_no_candidate ts :
  first_live ts = None → candidates_in_flight ts = [].
Proof.
  intros Hall%first_live_None. unfold candidates_in_flight.
  induction Hall as [|t ts Ht _ IH]; [done|].
  destruct t; try done; exact IH.
Qed.

Lemma await_workers_Ok env sched w w' :
  await_workers env sched w = Some (w', Ok ()) →
  first_live (tasks w') = None.
Proof.
  unfold await_workers.
  destruct (gather env false _ sched w) as [[[w1 s1] r1]|] eqn:H1; [|done].
  destruct r1 as [[]|e].
  - intros [= <-]. by eapply gather_Ok.
  - destruct e; try done.
    destruct (gather env true _ s1 _) as [[[w3 s3] r3]|] eqn:H3; [|done].
    intros [= <- ->]. by eapply gather_Ok.
Qed.

(** The bookkeeping of a run that returns normally: the candidates, those
    queued before and those loaded, split into the ones whose probe was
    concluded, the ones whose probe was in flight when the run was
    cancelled, and the ones still queued; [found_paths] grew by exactly the
    verdicts of the concluded ones, in the order they were concluded. *)
Lemma run_verdicts env sched w w' :
  run env sched w = Some (w', Ok ()) →
  ∃ lines done aborted,
    fs_open env (wordlist_path (config (self w))) = FileLines lines None
    ∧ queue (self w)
        ++ mjoin (entries (extensions (config (self w))) <$> words lines)
      ≡ₚ done ++ aborted ++ queue (self w')
    ∧ found_paths (self w')
      = found_paths (self w)
        ++ omap (verdict env (cls (self w)) (config (self w))) done
    ∧ (length aborted ≤ Z.to_nat (threads (config (self w))))%nat
    ∧ (aborted ≠ [] →
       (0 < interrupts sched)%nat ∧ stop_event (self w') = true).
Proof.
  intros (w3 & -> & H)%run_inv.
  assert (queue (self (close_session w3).1) = queue (self w3)
          ∧ found_paths (self (close_session w3).1) = found_paths (self w3)
          ∧ stop_event (self (close_session w3).1) = stop_event (self w3))
    as (-> & -> & ->).
  { rewrite close_session_spec. by destruct (session (self w3)). }
  destruct H as [[_ [e ?]]|(w1 & Hs & H)]; [done|].
  destruct H as [[_ [e ?]]|(w2 & Ha & Hsave)]; [done|].
  assert (self w3 = self w2) as ->.
  { rewrite save_results_spec in Hsave.
    by destruct (found_paths (self w2)), (results_error env); simplify_eq. }
  clear Hsave w3.
  apply setup_Ok in Hs as (lines & _ & Hfile & Hw1).
  exists lines.
  assert (session (self w1) = Some SessionOpen) as Hsess1 by by rewrite Hw1.
  assert (cls (self w1) = cls (self w)) as Hcls1 by by rewrite Hw1.
  assert (config (self w1) = config (self w)) as Hcfg1 by by rewrite Hw1.
  assert (Forall (task_ok env (cls (self w)) (config (self w))) (tasks w1))
    as Hok1 by (rewrite Hw1; simpl; by apply Forall_replicate).
  assert (candidates_in_flight (tasks w1) ++ queue (self w1)
          = queue (self w)
            ++ mjoin (entries (extensions (config (self w))) <$> words lines))
    as Hstart.
  { rewrite Hw1. simpl. unfold candidates_in_flight.
    by rewrite omap_replicate_Ready, line_entries_words. }
  assert (length (tasks w1) = Z.to_nat (threads (config (self w)))) as Hlen1.
  { rewrite Hw1. simpl. by rewrite length_replicate. }
  assert (found_paths (self w1) = found_paths (self w)) as Hfound1
    by by rewrite Hw1.
  clear Hw1.
  pose proof (await_workers_Ok _ _ _ _ Ha) as Hdone%not_live_no_candidate.
  destruct (await_workers_inv _ _ _ _ _ Ha)
    as [Hq|(u & Hq & Hint & Hstop & Hloop)].
  - destruct (quiet_steps_verdict env _ _ _ _ Hq Hsess1 Hcls1 Hcfg1 Hok1)
      as (done & Hp & Hf).
    rewrite Hfound1 in Hf.
    exists done, []. split; [done|]. rewrite Hdone, Hstart in Hp.
    split; [done|]. split; [done|]. split; [simpl; lia|done].
  - destruct (quiet_steps_verdict env _ _ _ _ Hq Hsess1 Hcls1 Hcfg1 Hok1)
      as (done & Hp & Hf).
    rewrite Hfound1 in Hf.
    destruct (halted_steps _ _ _ Hloop) as (Hself & _);
      [apply halted_cancel|done|].
    exists done, (candidates_in_flight (tasks u)). rewrite Hself. simpl.
    split; [done|]. rewrite Hstart in Hp. split; [done|]. split; [done|].
    split; [|done].
    pose proof (candidates_in_flight_length (tasks u)).
    rewrite (quiet_steps_length _ _ _ Hq) in *. lia.
Qed.

(** A run that returns normally has recorded exactly the verdicts of the
    candidates whose probe was concluded.  Every other candidate is still
    in the queue, except those whose probe was in flight when the run was
    cancelled: at most one per worker, and none in a run that was not
    interrupted. *)
Theorem run_records_the_verdicts env sched w w' :
  run env sched w = Some (w', Ok ()) →
  ∃ lines done aborted,
    fs_open env (wordlist_path (config (self w))) = FileLines lines None
    ∧ queue (self w)
        ++ mjoin (entries (extensions (config (self w))) <$> words lines)
      ≡ₚ done ++ aborted ++ queue (self w')
    ∧ found_paths (self w')
      = found_paths (self w)
        ++ omap (verdict env (cls (self w)) (config (self w))) done
    ∧ (length aborted ≤ Z.to_nat (threads (config (self w))))%nat
    ∧ (aborted ≠ [] →
       (0 < interrupts sched)%nat ∧ stop_event (self w') = true).
Proof. apply run_verdicts. Qed.

Lemma run_records_the_verdicts_witness :
  ∃ w', run Examples.env_site [Resume 1; Resume 0; Resume 1; Resume 1; Interrupt]
            (Examples.dir_world "words.txt")
        = Some (w', Ok ())
        ∧ ∃ done aborted,
            ["admin"; "admin.php"; "login.php"; "test"; "test.php"]
            ≡ₚ done ++ aborted ++ queue (self w')
            ∧ found_paths (self w')
              = omap (verdict Examples.env_site WebBruterClass
                        (Examples.dir_config "words.txt")) done
            ∧ (length aborted ≤ 2)%nat.
Proof.
  eexists.
  match goal with
  | |- ?A ∧ _ => assert A as Hrun by (vm_compute; reflexivity)
  end.
  split; [exact Hrun|].
  destruct (run_records_the_verdicts _ _ _ _ Hrun)
    as (lines & done & aborted & Hfile & Hp & Hf & Hlen & _).
  exists done, aborted. injection Hfile as <-.
  split; [exact Hp|]. split; [exact Hf|exact Hlen].
Defined.

(** If the event is not set when a run with at least one worker returns
    normally, [found_paths] has grown by the verdicts of all the
    candidates, each counted once: the hits do not depend on the schedule
    nor on the number of workers, only their order does. *)
Theorem uninterrupted_run_finds_every_hit env sched w w' :
  run env sched w = Some (w', Ok ()) →
  0 < threads (config (self w)) →
  stop_event (self w') = false →
  ∃ lines,
    fs_open env (wordlist_path (config (self w))) = FileLines lines None
    ∧ queue (self w') = []
    ∧ found_paths (self w')
      ≡ₚ found_paths (self w)
         ++ omap (verdict env (cls (self w)) (config (self w)))
              (queue (self w)
                 ++ mjoin (entries (extensions (config (self w))) <$> words lines)).
Proof.
  intros Hrun Hthreads Hstop.
  destruct (run_drains _ _ _ _ Hrun Hthreads) as [Hq|?]; [|congruence].
  destruct (run_verdicts _ _ _ _ Hrun)
    as (lines & done & aborted & Hfile & Hp & Hf & _ & Hab).
  exists lines. split; [done|]. split; [done|].
  destruct aborted as [|a ab]; [|destruct Hab as [_ ?]; [done|congruence]].
  rewrite Hq, !app_nil_r in Hp. by rewrite Hf, Hp.
Qed.

Lemma uninterrupted_run_finds_every_hit_witness :
  ∃ w', run Examples.env_site [Resume 1; Resume 0; Resume 1; Resume 1]
            (Examples.dir_world "words.txt")
        = Some (w', Ok ())
        ∧ 0 < threads (config (self (Examples.dir_world "words.txt")))
        ∧ stop_event (self w') = false
        ∧ found_paths (self w')
          ≡ₚ omap (verdict Examples.env_site WebBruterClass
                     (Examples.dir_config "words.txt"))
                  ["admin"; "admin.php"; "login.php"; "test"; "test.php"].
Proof.
  eexists.
  match goal with
  | |- ?A ∧ _ => assert A as Hrun by (vm_compute; reflexivity)
  end.
  split; [exact Hrun|]. split; [reflexivity|]. split; [reflexivity|].
  destruct (uninterrupted_run_finds_every_hit _ _ _ _ Hrun eq_refl eq_refl)
    as (lines & Hfile & _ & Hp).
  injection Hfile as <-. exact Hp.
Defined.

(** *** What a verdict is *)

Lemma hit_or_not cfg st content :
  (has_indicator cfg content ∨ interesting_status st)
  ∨ ¬ (has_indicator cfg content ∨ interesting_status st).
Proof.
  destruct (any_indicator cfg content) eqn:Hi.
  { left. left. by apply any_indicator_spec. }
  destruct (interesting st) eqn:Hs.
  { left. right. by apply interesting_spec. }
  right. intros [H|H].
  - apply any_indicator_spec in H. congruence.
  - apply interesting_spec in H. congruence.
Qed.

Lemma verdict_dir env cfg candidate f :
  verdict env WebBruterClass cfg candidate = Some f ↔
  ∃ resp content,
    net env (GET (check_path_url cfg candidate) false) = Ok resp
    ∧ text resp = Ok content
    ∧ 0 < status resp
    ∧ (has_indicator cfg content ∨ interesting_status (status resp))
    ∧ f = FoundPath (status resp) (check_path_url cfg candidate).
Proof.
  unfold verdict. simpl.
  destruct (net env _) as [resp|e]; [|split; [done|by intros (? & ? & ? & _)]].
  destruct (text resp) as [content|e] eqn:Htext;
    [|split; [done|intros (? & ? & [= <-] & ? & _); congruence]].
  destruct (hit_or_not cfg (status resp) content) as [Hh|Hn].
  - rewrite classify_hit by done. simpl.
    destruct (0 <? status resp) eqn:Hs; split.
    + intros [= <-]. exists resp, content. repeat split; [done|lia|done].
    + by intros (? & ? & [= <-] & _ & _ & _ & ->).
    + done.
    + intros (? & ? & [= <-] & _ & ? & _). lia.
  - rewrite classify_miss by done. simpl. split; [done|].
    intros (? & ? & [= <-] & Ht & _ & ? & _).
    rewrite Htext in Ht. injection Ht as <-. done.
Qed.

Lemma verdict_joomla env cfg candidate f :
  verdict env JoomlaBruterClass cfg candidate = Some f ↔
  ∃ resp content,
    net env (POST (target_url cfg)
                  (login_data cfg (login_username cfg) candidate) true)
    = Ok resp
    ∧ text resp = Ok content
    ∧ has_indicator cfg content
    ∧ f = FoundPassword candidate.
Proof.
  unfold verdict. simpl.
  destruct (net env _) as [resp|e]; [|split; [done|by intros (? & ? & ? & _)]].
  destruct (text resp) as [content|e] eqn:Htext;
    [|split; [done|intros (? & ? & [= <-] & ? & _); congruence]].
  destruct (any_indicator cfg content) eqn:Hi; split.
  - intros [= <-]. exists resp, content.
    repeat split; [done|by apply any_indicator_spec].
  - by intros (? & ? & _ & _ & _ & ->).
  - done.
  - intros (? & ? & [= <-] & Ht & H & _).
    rewrite Htext in Ht. injection Ht as <-.
    apply any_indicator_spec in H. congruence.
Qed.

(** Every entry a run adds to [found_paths] is backed by a response of the
    target to the request of a candidate: for the directory class a
    response with positive status whose body holds an indicator or whose
    status is 200, 301, 302 or 403, recorded with that status and the
    candidate's URL; for the Joomla class a response whose body holds an
    indicator, recorded as the candidate itself. *)
Theorem recorded_hits_are_justified env sched w w' f :
  run env sched w = Some (w', Ok ()) →
  f ∈ found_paths (self w') →
  f ∈ found_paths (self w)
  ∨ ∃ candidate resp content,
      net env (probe_request (cls (self w)) (config (self w)) candidate) = Ok resp
      ∧ text resp = Ok content
      ∧ match cls (self w) with
        | WebBruterClass =>
            f = FoundPath (status resp)
                          (check_path_url (config (self w)) candidate)
            ∧ 0 < status resp
            ∧ (has_indicator (config (self w)) content
               ∨ interesting_status (status resp))
        | JoomlaBruterClass =>
            f = FoundPassword candidate
            ∧ has_indicator (config (self w)) content
        end.
Proof.
  intros Hrun Hf.
  destruct (run_verdicts _ _ _ _ Hrun)
    as (lines & done & aborted & _ & _ & Hfound & _).
  rewrite Hfound in Hf. apply elem_of_app in Hf as [Hf|Hf]; [by left|].
  right. apply list_elem_of_omap in Hf as (candidate & _ & Hv).
  destruct (cls (self w)).
  - apply verdict_dir in Hv as (resp & content & ? & ? & ? & ? & ?).
    by exists candidate, resp, content.
  - apply verdict_joomla in Hv as (resp & content & ? & ? & ? & ?).
    by exists candidate, resp, content.
Qed.

Lemma recorded_hits_are_justified_witness :
  ∃ w', run Examples.env_site [Resume 1; Resume 0]
            (Examples.dir_world "words.txt")
        = Some (w', Ok ())
        ∧ FoundPath 200 "http://target/admin" ∈ found_paths (self w')
        ∧ ∃ candidate resp,
            Examples.site
              (GET (check_path_url (Examples.dir_config "words.txt") candidate)
                   false) = Ok resp
            ∧ FoundPath 200 "http://target/admin"
              = FoundPath (status resp)
                  (check_path_url (Examples.dir_config "words.txt") candidate).
Proof.
  eexists.
  match goal with
  | |- ?A ∧ _ => assert A as Hrun by (vm_compute; reflexivity)
  end.
  split; [exact Hrun|].
  assert (FoundPath 200 "http://target/admin"
          ∈ [FoundPath 200 "http://target/admin.php";
             FoundPath 200 "http://target/admin"]) as Hin
    by (apply list_elem_of_further, list_elem_of_here).
  split; [exact Hin|].
  destruct (recorded_hits_are_justified _ _ _ _ _ Hrun Hin)
    as [Hold|(candidate & resp & content & Hnet & _ & Hf & _)].
  - inversion Hold.
  - exists candidate, resp. split; [exact Hnet|exact Hf].
Defined.

(** ** The directory run does not depend on the schedule *)

Lemma worker_step_dir_stop env t t' w w' :
  cls (self w) = WebBruterClass →
  worker_step env t w = Some (w', t') →
  stop_event (self w') = stop_event (self w).
Proof. intros Hcls Hstep. step_cases; congruence. Qed.

Lemma step_dir_stop env i w w' :
  cls (self w) = WebBruterClass →
  step env i w = Some w' → stop_event (self w') = stop_event (self w).
Proof.
  intros Hcls (t & wt & t' & Ht & Hs & ->)%step_inv. simpl.
  by eapply worker_step_dir_stop.
Qed.

(** With an ordinary transport a wait that is not interrupted consists
    of resumptions only, and ends normally with every task finished. *)
Lemma await_workers_uninterrupted env (P : World → Prop) sched w w' r :
  ordinary_net env →
  Forall (task_wf env) (tasks w) → Forall undisturbed (tasks w) →
  interrupts sched = 0%nat →
  (∀ i u u', Forall (task_wf env) (tasks u) → P u →
             step env i u = Some u' → P u') →
  P w →
  await_workers env sched w = Some (w', r) →
  r = Ok () ∧ P w' ∧ Forall (λ t, t = Finished) (tasks w').
Proof.
  intros Hord Hwf Hnc Hint HP Hw. unfold await_workers.
  destruct (gather env false _ sched w) as [[[w1 s1] r1]|] eqn:H1; [|done].
  destruct (gather_ordinary _ _ _ _ _ _ _ _ Hord Hwf Hnc H1)
    as [(-> & Hwf1 & Hnc1)|[_ ?]]; [|lia].
  intros [= <- <-]. split; [done|].
  destruct (gather_steps env (λ u, Forall (task_wf env) (tasks u) ∧ P u))
    with (1 := λ i u u' '(conj Hu1 Hu2) Hstep,
                 conj (step_wf env i u u' Hstep Hu1)
                      (HP i u u' Hu1 Hu2 Hstep))
         (3 := H1) as [_ [[_ HP1]|(u & _ & _ & ? & _)]]; [done| |done].
  split; [done|].
  pose proof (gather_Ok _ _ _ _ _ _ _ H1) as Hdone%first_live_None.
  apply Forall_lookup. intros k t Hk.
  pose proof (Forall_lookup_1 _ _ _ _ Hdone Hk) as Hl.
  destruct (Forall_lookup_1 _ _ _ _ Hnc1 Hk) as [Hn1 Hn2].
  destruct t; try done. by destruct (Hn2 e).
Qed.

(** A run that is not interrupted, with an ordinary transport, a session,
    a wordlist that loads, sleeps that end and a results file that can be
    written: it returns normally, with every worker finished, and whatever
    the resumptions preserve from the moment the tasks are created holds of
    the state in which the workers have finished. *)
Lemma run_uninterrupted env (P : World → Prop) sched w lines :
  ordinary_net env →
  session_error env = None →
  fs_open env (wordlist_path (config (self w))) = FileLines lines None →
  results_error env = None →
  sleep_returns (rate_limit_delay (config (self w))) = true →
  interrupts sched = 0%nat →
  (∀ i u u', Forall (task_wf env) (tasks u) → P u →
             step env i u = Some u' → P u') →
  P (set_tasks (replicate (Z.to_nat (threads (config (self w)))) Ready)
       (enqueue (mjoin (line_entries (extensions (config (self w))) <$> lines))
                (bind_session w))) →
  ∃ w2 w',
    run env sched w = Some (w', Ok ())
    ∧ P w2 ∧ Forall (λ t, t = Finished) (tasks w2)
    ∧ tasks w' = tasks w2 ∧ sent w' = sent w2
    ∧ queue (self w') = queue (self w2)
    ∧ found_paths (self w') = found_paths (self w2)
    ∧ stop_event (self w') = stop_event (self w2).
Proof.
  intros Hord Hsess Hfile Hres Hsleep Hint HP Hw1. unfold run.
  rewrite setup_spec, Hsess, Hfile. cbv zeta.
  set (w1 := set_tasks _ _) in *.
  destruct (await_workers_total env sched w1) as [[w2 r] Ha]; [done|].
  rewrite Ha.
  destruct (await_workers_uninterrupted env P sched w1 w2 r Hord)
    as (-> & HP2 & Hfin); try done.
  { apply replicate_Ready_wf. }
  { apply replicate_Ready_undisturbed. }
  exists w2. simpl. rewrite save_results_spec, Hres.
  destruct (found_paths (self w2)) as [|f fs] eqn:Hfound; simpl;
    rewrite finally_close_spec, close_session_spec; eexists;
    (split; [done|]); (split; [done|]); (split; [done|]).
  all: simpl.
  all: destruct (session (self w2)); simpl.
  all: rewrite ?Hfound.
  all: done.
Qed.


(** A directory run that is not interrupted returns normally with the
    queue empty and has recorded the verdicts of all candidates, each
    once, whatever the schedule and the number of workers: given a
    transport that fails only with ordinary exceptions, a session, a
    wordlist that loads, a delay after which the sleeps end, a results
    file that can be written and at least one worker. *)
Theorem dir_run_is_schedule_independent env sched w lines :
  cls (self w) = WebBruterClass →
  stop_event (self w) = false →
  ordinary_net env →
  session_error env = None →
  fs_open env (wordlist_path (config (self w))) = FileLines lines None →
  results_error env = None →
  sleep_returns (rate_limit_delay (config (self w))) = true →
  interrupts sched = 0%nat →
  0 < threads (config (self w)) →
  ∃ w', run env sched w = Some (w', Ok ())
        ∧ queue (self w') = []
        ∧ found_paths (self w')
          ≡ₚ found_paths (self w)
             ++ omap (verdict env WebBruterClass (config (self w)))
                  (queue (self w)
                     ++ mjoin (entries (extensions (config (self w))) <$> words lines)).
Proof.
  intros Hcls Hstop Hord Hsess Hfile Hres Hsleep Hint Hthreads.
  destruct (run_uninterrupted env
              (λ u, cls (self u) = WebBruterClass ∧ stop_event (self u) = false)
              sched w lines Hord Hsess Hfile Hres Hsleep Hint)
    as (w2 & w' & Hrun & [_ Hstop2] & _ & _ & _ & _ & _ & Hstop');
    [|by split|].
  { intros i u u' _ [Hc Hs] Hstep. split.
    - by rewrite (step_cls _ _ _ _ Hstep).
    - by rewrite (step_dir_stop _ _ _ _ Hc Hstep). }
  exists w'. split; [done|]. rewrite Hstop2 in Hstop'.
  destruct (run_drains _ _ _ _ Hrun Hthreads) as [Hq|?]; [|congruence].
  split; [done|].
  destruct (run_verdicts _ _ _ _ Hrun)
    as (lines' & done & aborted & Hfile' & Hp & Hf & _ & Hab).
  rewrite Hfile in Hfile'. injection Hfile' as <-.
  destruct aborted as [|a ab]; [|destruct Hab as [? _]; [done|lia]].
  rewrite Hq, !app_nil_r in Hp. by rewrite Hf, Hp, Hcls.
Qed.

Lemma site_is_ordinary : ordinary_net Examples.env_site.
Proof.
  intros [url ?|url data ?]; simpl; unfold Examples.site;
    repeat case_decide; exact I.
Qed.

Lemma dir_run_is_schedule_independent_witness :
  let w := Examples.dir_world "words.txt" in
  cls (self w) = WebBruterClass
  ∧ stop_event (self w) = false
  ∧ ordinary_net Examples.env_site
  ∧ sleep_returns (rate_limit_delay (config (self w))) = true
  ∧ interrupts [Resume 1; Resume 1; Resume 0] = 0%nat
  ∧ ∃ w', run Examples.env_site [Resume 1; Resume 1; Resume 0] w
          = Some (w', Ok ())
          ∧ found_paths (self w')
            ≡ₚ omap (verdict Examples.env_site WebBruterClass (config (self w)))
                    ["admin"; "admin.php"; "login.php"; "test"; "test.php"].
Proof.
  split; [reflexivity|]. split; [reflexivity|].
  split; [exact site_is_ordinary|]. split; [reflexivity|].
  split; [reflexivity|].
  destruct (dir_run_is_schedule_independent Examples.env_site
              [Resume 1; Resume 1; Resume 0]
              (Examples.dir_world "words.txt") Examples.wordlist
              eq_refl eq_refl site_is_ordinary eq_refl eq_refl eq_refl eq_refl
              eq_refl eq_refl) as (w' & Hrun & _ & Hp).
  exists w'. split; [exact Hrun|exact Hp].
Defined.

(** ** How many passwords a Joomla run can record *)

Lemma worker_step_joomla env t t' w w' :
  cls (self w) = JoomlaBruterClass →
  worker_step env t w = Some (w', t') →
  found_paths (self w') = found_paths (self w)
  ∧ (stop_event (self w) = true →
     (length (option_list (candidate_of t'))
      ≤ length (option_list (candidate_of t)))%nat)
  ∨ (∃ x, found_paths (self w') = found_paths (self w) ++ [x])
    ∧ stop_event (self w') = true
    ∧ candidate_of t' = None ∧ is_Some (candidate_of t).
Proof.
  intros Hcls Hstep.
  destruct t as [|c req|c req resp| | | |]; simpl in *; simplify_eq.
  - left. step_cases; split; try done; simpl; intros; congruence || lia.
  - left. step_cases; split; try done; simpl; intros; lia.
  - unfold on_text in Hstep. rewrite Hcls in Hstep.
    unfold after_login, except_return, res_map in Hstep.
    destruct (text resp) as [content|e]; simpl in Hstep.
    + destruct (any_indicator _ _); simplify_eq.
      * right. simpl. split; [by eexists|]. by split.
      * left. split; [done|]. simpl. lia.
    + left. destruct (is_Exception e); simplify_eq; split; try done;
        simpl; lia.
  - left. step_cases; split; try done; simpl; intros; congruence || lia.
  - left. split; [done|]. simpl. lia.
Qed.

Lemma step_joomla_bound env i w w' :
  cls (self w) = JoomlaBruterClass →
  step env i w = Some w' →
  found_paths (self w) = []
  ∨ stop_event (self w) = true
    ∧ (length (found_paths (self w))
       + length (candidates_in_flight (tasks w)) ≤ length (tasks w))%nat →
  found_paths (self w') = []
  ∨ stop_event (self w') = true
    ∧ (length (found_paths (self w'))
       + length (candidates_in_flight (tasks w')) ≤ length (tasks w'))%nat.
Proof.
  intros Hcls (t & wt & t' & Ht & Hs & ->)%step_inv Hinv. simpl.
  pose proof (candidates_in_flight_insert _ _ _ t' Ht) as Hperm.
  apply Permutation_length in Hperm. rewrite !length_app in Hperm.
  pose proof (candidates_in_flight_length (tasks w)) as Hle.
  rewrite length_insert.
  destruct (worker_step_joomla _ _ _ _ _ Hcls Hs)
    as [[Hf Hfl]|([x Hf] & Hstop' & Hc' & [c Hc])].
  - rewrite Hf. destruct Hinv as [Hnil|[Hstop Hb]]; [by left|].
    right. split; [by eapply worker_step_stop|].
    specialize (Hfl Hstop). lia.
  - right. split; [done|]. rewrite Hf, length_app, Hc' in *.
    rewrite Hc in Hperm. simpl in *.
    destruct Hinv as [->|[_ Hb]]; simpl; lia.
Qed.

Lemma candidates_in_flight_cancel (ts : list task) :
  candidates_in_flight (cancel <$> ts) = [].
Proof.
  unfold candidates_in_flight. induction ts as [|t ts IH]; [done|].
  rewrite fmap_cons. by destruct t.
Qed.

Lemma run_passwords_bound env sched w w' r :
  cls (self w) = JoomlaBruterClass →
  found_paths (self w) = [] →
  run env sched w = Some (w', r) →
  (length (found_paths (self w')) ≤ Z.to_nat (threads (config (self w))))%nat.
Proof.
  intros Hcls Hnil (w3 & -> & H)%run_inv.
  destruct (close_session_frame w3) as (_ & -> & _).
  assert (∀ w1 w2 r2,
            (init_session env ;; load_wordlist env ;; spawn_workers) w
            = (w1, Ok ()) →
            await_workers env sched w1 = Some (w2, r2) →
            (length (found_paths (self w2))
             ≤ Z.to_nat (threads (config (self w))))%nat) as Hawait.
  { intros w1 w2 r2 (lines & _ & _ & Hw1)%setup_Ok Hreach%await_workers_reachable.
    assert (cls (self w2) = JoomlaBruterClass
            ∧ length (tasks w2) = Z.to_nat (threads (config (self w)))
            ∧ (found_paths (self w2) = []
               ∨ stop_event (self w2) = true
                 ∧ (length (found_paths (self w2))
                    + length (candidates_in_flight (tasks w2))
                    ≤ length (tasks w2))%nat)) as (_ & Hlen & Hb).
    { apply (loop_steps_invariant env
               (λ u, cls (self u) = JoomlaBruterClass
                     ∧ length (tasks u) = Z.to_nat (threads (config (self w)))
                     ∧ (found_paths (self u) = []
                        ∨ stop_event (self u) = true
                          ∧ (length (found_paths (self u))
                             + length (candidates_in_flight (tasks u))
                             ≤ length (tasks u))%nat)) w1 w2); [| | |done|].
      - intros i u u' (Hc & Hl & Hb) Hstep. split; [|split].
        + by rewrite (step_cls _ _ _ _ Hstep).
        + by rewrite (step_length_tasks _ _ _ _ Hstep).
        + by eapply step_joomla_bound.
      - intros u (Hc & Hl & Hb). split; [done|]. simpl.
        rewrite length_fmap, candidates_in_flight_cancel.
        split; [done|]. destruct Hb as [?|[? ?]]; [by left|right].
        split; [done|]. simpl. lia.
      - intros u (Hc & Hl & Hb). split; [done|]. split; [done|].
        destruct Hb as [?|[_ ?]]; [by left|by right].
      - rewrite Hw1. simpl. rewrite length_replicate.
        split; [done|]. split; [done|]. by left. }
    destruct Hb as [->|[_ Hb]]; simpl; lia. }
  destruct H as [[Hs _]|(w1 & Hs & H)].
  { destruct (setup_frame _ _ _ _ Hs) as (_ & _ & -> & _).
    rewrite Hnil. simpl. lia. }
  destruct H as [[Ha _]|(w2 & Ha & Hsave)]; [by eapply Hawait|].
  assert (self w3 = self w2) as ->; [|by eapply Hawait].
  rewrite save_results_spec in Hsave.
  by destruct (found_paths (self w2)), (results_error env); simplify_eq.
Qed.


(** From a fresh Joomla object a run records at most as many passwords as
    it has workers: the first success sets the event, and only logins
    already in flight at that moment can still be recorded.  With one
    worker at most one password is recorded. *)
Theorem recorded_passwords_bound env sched w w' r :
  cls (self w) = JoomlaBruterClass →
  found_paths (self w) = [] →
  run env sched w = Some (w', r) →
  (length (found_paths (self w')) ≤ Z.to_nat (threads (config (self w))))%nat.
Proof. apply run_passwords_bound. Qed.

Lemma recorded_passwords_bound_witness :
  let w := Examples.joomla_world in
  cls (self w) = JoomlaBruterClass
  ∧ found_paths (self w) = []
  ∧ ∃ w', run Examples.env_site [Resume 1; Resume 0; Resume 1] w
          = Some (w', Ok ())
          ∧ (length (found_paths (self w')) ≤ 2)%nat.
Proof.
  split; [reflexivity|]. split; [reflexivity|].
  eexists.
  match goal with
  | |- ?A ∧ _ => assert A as Hrun by (vm_compute; reflexivity)
  end.
  split; [exact Hrun|].
  exact (recorded_passwords_bound Examples.env_site _ Examples.joomla_world
           _ _ eq_refl eq_refl Hrun).
Defined.

(** ** The Joomla command before the run *)

Lemma detect_login_form_spec env w :
  detect_login_form env w
  = match session (self w) with
    | Some SessionOpen =>
        (log_request (GET (target_url (config (self w))) true) w,
         form_detection env (target_url (config (self w))))
    | Some SessionClosed => (w, Raise (Exception "Session is closed"))
    | None => (w, Raise (Exception "NoneType object has no attribute"))
    end.
Proof.
  unfold detect_login_form, session_send, form_detection. unfold_M.
  destruct (session (self w)) as [[]|]; simpl; try done.
  destruct (net env _) as [resp|e]; simpl; [|by destruct (is_Exception e)].
  destruct (text resp) as [content|e]; simpl; [|by destruct (is_Exception e)].
  destruct (login_form env content) as [fields|e]; [done|].
  by destruct (is_Exception e).
Qed.

Lemma joomla_prepare_spec env url username wordlist n delay indicators :
  session_error env = None →
  prepare env (JoomlaArgs url username wordlist n delay indicators)
  = let cfg :=
      {| target_url := url; wordlist_path := wordlist; extensions := [];
         threads := n; cookies := ∅;
         headers := {["User-Agent" := "Mozilla/5.0"]};
         form_data := {["username" := username]};
         success_indicators := indicators; rate_limit_delay := delay |} in
    let w1 := log_request (GET url true)
                (on_self (set_session (Some SessionOpen))
                         (new_world (WebBruter_init JoomlaBruterClass cfg))) in
    match form_detection env url with
    | Raise e => (Some w1, Raise e)
    | Ok fields => (Some (on_self (update_form_data fields) w1), Ok ())
    end.
Proof.
  intros Hsess. unfold prepare. unfold mbind, M_bind.
  rewrite init_session_spec, Hsess, detect_login_form_spec. simpl.
  by destruct (form_detection env url).
Qed.

(** When the Joomla command gets as far as the run, it has sent one GET
    for the login page, redirects followed, and merged the hidden fields
    of the form into the template: the username of every login attempt is
    the one given on the command line, unless the form has a hidden field
    named "username", whose value then replaces it. *)
Theorem joomla_prepare_username env url username wordlist n delay indicators w :
  prepare env (JoomlaArgs url username wordlist n delay indicators)
  = (Some w, Ok ()) →
  ∃ fields,
    form_detection env url = Ok fields
    ∧ sent w = [GET url true]
    ∧ session (self w) = Some SessionOpen
    ∧ form_data (config (self w)) = fields ∪ {["username" := username]}
    ∧ login_username (config (self w)) = default username (fields !! "username")
    ∧ ∀ password,
        probe_request JoomlaBruterClass (config (self w)) password
        = POST url
            (login_data (config (self w))
                        (default username (fields !! "username")) password)
            true.
Proof.
  intros Hprep.
  destruct (session_error env) as [e|] eqn:Hsess.
  { unfold prepare in Hprep. unfold mbind, M_bind in Hprep.
    rewrite init_session_spec, Hsess in Hprep. done. }
  rewrite joomla_prepare_spec in Hprep by done. cbv zeta in Hprep.
  destruct (form_detection env url) as [fields|e]; [|done].
  injection Hprep as <-. exists fields.
  assert (default "admin" ((fields ∪ {["username" := username]}) !! "username")
          = default username (fields !! "username")) as Huser.
  { rewrite lookup_union. destruct (fields !! "username"); simpl.
    - by rewrite lookup_singleton_eq.
    - by rewrite lookup_singleton_eq. }
  repeat split; try done.
  intros password. simpl. unfold login_username. simpl. by rewrite Huser.
Qed.

Lemma joomla_prepare_username_witness :
  ∃ w, prepare Examples.env_site Examples.joomla_args = (Some w, Ok ())
       ∧ sent w = [GET "http://target/administrator" true]
       ∧ login_username (config (self w)) = "admin".
Proof.
  eexists.
  match goal with
  | |- ?A ∧ _ => assert A as Hprep by (vm_compute; reflexivity)
  end.
  split; [exact Hprep|].
  destruct (joomla_prepare_username _ _ _ _ _ _ _ _ Hprep)
    as (fields & Hdet & Hsent & _ & _ & Huser & _).
  split; [exact Hsent|].
  vm_compute in Hdet. injection Hdet as <-. exact Huser.
Defined.

(** When the login form cannot be obtained, the Joomla command ends with
    code 1 without entering the run: the wordlist is not read, no task is
    created, no login is attempted; the session [main] opened stays open. *)
Theorem failed_form_detection_is_fatal env sched url username wordlist n delay
    indicators e :
  session_error env = None →
  form_detection env url = Raise e →
  is_Exception e = true →
  ∃ w, main env sched (JoomlaArgs url username wordlist n delay indicators)
       = Some (Some w, ExitCode 1)
       ∧ sent w = [GET url true]
       ∧ tasks w = [] ∧ queue (self w) = [] ∧ written w = []
       ∧ session (self w) = Some SessionOpen.
Proof.
  intros Hsess Hdet He. unfold main, main_body.
  rewrite joomla_prepare_spec by done. cbv zeta. rewrite Hdet.
  cbn [mbind option_bind fst snd]. rewrite exit_of_Exception by done.
  by eexists.
Qed.

Lemma failed_form_detection_is_fatal_witness :
  session_error Examples.env_down = None
  ∧ form_detection Examples.env_down "http://target/administrator"
    = Raise (Exception "TimeoutError")
  ∧ ∃ w, main Examples.env_down [] Examples.joomla_args
         = Some (Some w, ExitCode 1)
         ∧ session (self w) = Some SessionOpen.
Proof.
  split; [reflexivity|]. split; [reflexivity|].
  destruct (failed_form_detection_is_fatal Examples.env_down []
              "http://target/administrator" "admin" "passwords.txt" 2 1
              ["Control Panel"] _ eq_refl eq_refl eq_refl)
    as (w & Hmain & _ & _ & _ & _ & Hsess).
  exists w. split; [exact Hmain|exact Hsess].
Defined.

(** ** The directory command *)



(** An option file of the directory command that cannot be loaded is fatal
    before anything exists: [main] ends with code 1 without having created
    the object, so that no session is opened and no request sent.  A path
    given as the empty string counts as no file. *)
Theorem unreadable_option_file_is_fatal env sched url wordlist n exts
    cookies_file headers_file delay e :
  is_Exception e = true →
  load_optional env cookies_file = Raise e
  ∨ load_optional env headers_file = Raise e
    ∧ (∃ cks, load_optional env cookies_file = Ok cks) →
  main env sched (DirArgs url wordlist n exts cookies_file headers_file delay)
  = Some (None, ExitCode 1)
  ∧ (∀ file, load_optional env file = Raise e →
       ∃ path, file = Some path ∧ path ≠ EmptyString
               ∧ json_file env path = Raise e).
Proof.
  intros He Hload. split.
  - unfold main, main_body, prepare.
    destruct Hload as [->|[-> [cks ->]]]; simpl; by rewrite He.
  - intros [path|] Hfile; [|done]. exists path. split; [done|].
    destruct path; [done|]. by split.
Qed.

Lemma unreadable_option_file_is_fatal_witness :
  main Examples.env_site []
    (DirArgs "http://target/" "words.txt" 2 [".php"] (Some "cookies.json")
             None (1 # 10))
  = Some (None, ExitCode 1).
Proof.
  apply (unreadable_option_file_is_fatal Examples.env_site []
           "http://target/" "words.txt" 2 [".php"] (Some "cookies.json") None
           (1 # 10) (Exception "No such file or directory") eq_refl).
  left. reflexivity.
Defined.

(** * The claims about whole runs *)

(** ** Failures of the transport do not end the run *)

Lemma worker_step_no_stop env t t' w w' :
  ordinary_net env → (∀ req, probe_fails env req) → task_wf env t →
  worker_step env t w = Some (w', t') →
  stop_event (self w') = stop_event (self w).
Proof.
  intros Hord Hall Hwf Hstep.
  destruct t as [|c req|c req resp| | | |]; simpl in *; simplify_eq;
    [| | | |done].
  - by step_cases.
  - step_cases; done.
  - specialize (Hall req). specialize (Hord req).
    unfold probe_fails in Hall. rewrite Hwf in Hall, Hord.
    destruct Hall as [e He]. rewrite He in Hord.
    unfold on_text, except_return, res_map in Hstep.
    rewrite He, Hord in Hstep. by destruct (cls (self w)); simplify_eq /=.
  - by step_cases.
Qed.

Lemma step_no_stop env i w w' :
  ordinary_net env → (∀ req, probe_fails env req) →
  Forall (task_wf env) (tasks w) →
  step env i w = Some w' → stop_event (self w') = stop_event (self w).
Proof.
  intros Hord Hall Hwf (t & wt & t' & Ht & Hs & ->)%step_inv. simpl.
  eapply worker_step_no_stop; [done..| |done]. by eapply Forall_lookup_1.
Qed.

(** C5.  When the transport fails with ordinary exceptions only, neither
    probe ever raises: a failed request or an unreadable body makes
    [check_path] return (0, "") and [brute_force_login] return False.  The
    worker whose probe failed goes on to its sleep, from where it evaluates
    the loop condition again; no worker is brought down, unless it is
    cancelled.  A run that is not interrupted, with a delay after which the
    sleeps end, returns normally with all workers finished; and even if
    every single probe fails, every candidate has been taken from the queue
    and its request sent, in the order of the queue, without a hit and
    without writing anything. *)
Theorem network_failure_is_a_miss env :
  ordinary_net env →
  (∀ path w,
     (∃ r, (check_path env path w).2 = Ok r)
     ∧ (probe_fails env (GET (check_path_url (config (self w)) path) false) →
        (check_path env path w).2 = Ok (0, "")))
  ∧ (∀ username password w,
       (∃ r, (brute_force_login env username password w).2 = Ok r)
       ∧ (probe_fails env
            (POST (target_url (config (self w)))
                  (login_data (config (self w)) username password) true) →
          (brute_force_login env username password w).2 = Ok false))
  ∧ (∀ i t w,
       Forall (task_wf env) (tasks w) → tasks w !! i = Some t → failing env t →
       step env i w = Some (set_tasks (<[i := Sleeping]> (tasks w)) w))
  ∧ (∀ i t w w',
       Forall (task_wf env) (tasks w) →
       tasks w !! i = Some t → t ≠ Cancelling →
       step env i w = Some w' →
       ∀ e, tasks w' !! i ≠ Some (Crashed e))
  ∧ (∀ sched w lines,
       session_error env = None →
       fs_open env (wordlist_path (config (self w))) = FileLines lines None →
       results_error env = None →
       sleep_returns (rate_limit_delay (config (self w))) = true →
       interrupts sched = 0%nat →
       ∃ w', run env sched w = Some (w', Ok ())
             ∧ Forall (λ t, t = Finished) (tasks w')
             ∧ ((∀ req, probe_fails env req) →
                stop_event (self w) = false →
                0 < threads (config (self w)) →
                queue (self w') = []
                ∧ sent w'
                  = sent w
                    ++ (probe_request (cls (self w)) (config (self w))
                          <$> (queue (self w)
                               ++ mjoin (entries (extensions (config (self w)))
                                           <$> words lines)))
                ∧ found_paths (self w') = found_paths (self w)
                ∧ (found_paths (self w) = [] → written w' = written w))).
Proof.
  intros Hord. split; [|split; [|split; [|split]]].
  - intros path w. by apply check_path_never_raises.
  - intros username password w. by apply brute_force_login_never_raises.
  - intros i t w Hwf Ht Hfail. unfold step. rewrite Ht. simpl.
    rewrite (worker_step_failed_probe env t w Hord); [done| |done].
    by eapply Forall_lookup_1.
  - intros i t w w' Hwf Ht Hnc Hstep. by eapply step_no_crash.
  - intros sched w lines Hsess Hfile Hres Hsleep Hint.
    set (w1 := set_tasks
                 (replicate (Z.to_nat (threads (config (self w)))) Ready)
                 (enqueue
                    (mjoin (line_entries (extensions (config (self w))) <$> lines))
                    (bind_session w))).
    destruct (run_uninterrupted env
                (λ u, rtc (loop_step env) w1 u
                      ∧ ((∀ req, probe_fails env req) →
                         found_paths (self u) = found_paths (self w)
                         ∧ stop_event (self u) = stop_event (self w)))
                sched w lines Hord Hsess Hfile Hres Hsleep Hint)
      as (w2 & w' & Hrun & [Hreach Hnone] & Hfin & Htasks & Hsent & Hq & Hf
          & Hstop).
    { intros i u u' Hwf [Hu1 Hu2] Hstep. split.
      - eapply rtc_r; [done|by econstructor].
      - intros Hall. destruct (Hu2 Hall) as [<- <-].
        split; [by eapply step_no_hit|by eapply step_no_stop]. }
    { split; [done|]. by intros _. }
    exists w'. split; [done|]. split; [by rewrite Htasks|].
    intros Hall Hstop0 Hthreads. destruct (Hnone Hall) as [Hf2 Hs2].
    assert (queue (self w') = []) as Hq'.
    { destruct (run_drains _ _ _ _ Hrun Hthreads) as [?|Hs']; [done|].
      congruence. }
    split; [done|]. split; [|split; [congruence|]].
    + destruct (loop_steps_taken _ _ _ Hreach eq_refl) as (taken & Ht & Hs).
      rewrite <- Hq, Hq', app_nil_r in Ht. rewrite Hsent, Hs, <- Ht.
      unfold w1. simpl. by rewrite line_entries_words.
    + intros Hnil.
      destruct (run_written _ _ _ _ _ Hrun) as [[Hw _]|(_ & Hne & _)];
        [done|]. congruence.
Qed.

Lemma network_failure_is_a_miss_witness :
  ordinary_net Examples.env_down
  ∧ (check_path Examples.env_down "admin"
       (Examples.opened (Examples.dir_world "words.txt"))).2 = Ok (0, "")
  ∧ ∃ w', run Examples.env_down [Resume 1; Resume 0]
              (Examples.dir_world "words.txt")
          = Some (w', Ok ())
          ∧ sent w'
            = [GET "http://target/admin" false;
               GET "http://target/admin.php" false;
               GET "http://target/login.php" false;
               GET "http://target/test" false;
               GET "http://target/test.php" false]
          ∧ found_paths (self w') = [] ∧ written w' = [].
Proof.
  assert (ordinary_net Examples.env_down) as Hord by (intros req; reflexivity).
  split; [exact Hord|].
  destruct (network_failure_is_a_miss Examples.env_down Hord)
    as (Hcheck & _ & _ & _ & Hrun).
  split.
  - apply Hcheck. exact I.
  - destruct (Hrun [Resume 1; Resume 0] (Examples.dir_world "words.txt")
                Examples.wordlist eq_refl eq_refl eq_refl eq_refl eq_refl)
      as (w' & Hw' & _ & Hnone).
    exists w'. split; [exact Hw'|].
    destruct Hnone as (_ & Hsent & Hfound & Hwritten);
      [intros req; exact I|reflexivity|reflexivity|].
    split; [exact Hsent|]. split; [exact Hfound|].
    apply Hwritten. reflexivity.
Defined.

(** ** A cancellation of the run *)

(** C6.  Where the stop is requested by a cancellation of [run], the probe
    in flight does not run to completion.  Two workers, the first one
    resumed once: it has taken "admin" and its GET is in flight when [run]
    is cancelled.  The tasks of both workers are cancelled with it and end
    with CancelledError; the answer for "admin", which would have been a
    hit, is never looked at: nothing is counted, recorded or written,
    although the handler of [run] sets the event and waits for the tasks. *)
Theorem cancellation_aborts_the_probe_in_flight :
  let w := Examples.dir_world "words.txt" in
  verdict Examples.env_site WebBruterClass (config (self w)) "admin"
  = Some (FoundPath 200 "http://target/admin")
  ∧ ∃ w', run Examples.env_site [Resume 0; Interrupt] w = Some (w', Ok ())
          ∧ sent w' = [GET "http://target/admin" false]
          ∧ queue (self w') = ["admin.php"; "login.php"; "test"; "test.php"]
          ∧ tasks w' = [Crashed CancelledError; Crashed CancelledError]
          ∧ stop_event (self w') = true
          ∧ scanned_count (self w') = 0
          ∧ found_paths (self w') = []
          ∧ written w' = [].
Proof.
  split; [reflexivity|]. eexists.
  match goal with
  | |- ?A ∧ _ => assert A as Hrun by (vm_compute; reflexivity)
  end.
  split; [exact Hrun|]. repeat split.
Qed.

(** The same holds in general: once the tasks are cancelled, whatever
    happens afterwards leaves the counter, the hits, the queue and the
    record of requests as they were when the cancellation arrived. *)
Lemma nothing_concludes_after_cancellation env w w' :
  rtc (loop_step env) (cancel_tasks w) w' →
  found_paths (self w') = found_paths (self w)
  ∧ scanned_count (self w') = scanned_count (self w)
  ∧ queue (self w') = queue (self w)
  ∧ sent w' = sent w
  ∧ candidates_in_flight (tasks w') = [].
Proof.
  intros Hreach.
  apply (loop_steps_invariant env
           (λ u, Forall halted (tasks u)
                 ∧ found_paths (self u) = found_paths (self w)
                 ∧ scanned_count (self u) = scanned_count (self w)
                 ∧ queue (self u) = queue (self w)
                 ∧ sent u = sent w)
           (cancel_tasks w) w') in Hreach as (Hh & ? & ? & ? & ?).
  - repeat split; try done. unfold candidates_in_flight.
    induction Hh as [|t ts Ht _ IH]; [done|]. by destruct t.
  - intros i u u' (Hh & <- & <- & <- & <-) Hstep.
    by destruct (step_halted _ _ _ _ Hh Hstep) as (-> & -> & _ & ? & _).
  - intros u (Hh & ? & ? & ? & ?). split; [apply halted_cancel|done].
  - by intros u (Hh & ? & ? & ? & ?).
  - split; [apply halted_cancel|done].
Qed.

(** ** The first valid credential *)

Lemma worker_step_login env cfg t t' w w' :
  session (self w) = Some SessionOpen →
  cls (self w) = JoomlaBruterClass → config (self w) = cfg →
  task_ok env JoomlaBruterClass cfg t →
  worker_step env t w = Some (w', t') →
  task_ok env JoomlaBruterClass cfg t'
  ∧ ∃ concluded taken,
      option_list (candidate_of t) ++ taken
      = concluded ++ option_list (candidate_of t')
      ∧ queue (self w) = taken ++ queue (self w')
      ∧ sent w' = sent w ++ (probe_request JoomlaBruterClass cfg <$> taken)
      ∧ (taken ≠ [] → stop_event (self w) = false)
      ∧ (concluded = []
         ∧ found_paths (self w') = found_paths (self w)
         ∧ stop_event (self w') = stop_event (self w)
         ∨ ∃ p, concluded = [p] ∧ candidate_of t' = None
                ∧ (verdict env JoomlaBruterClass cfg p = None
                   ∧ found_paths (self w') = found_paths (self w)
                   ∧ stop_event (self w') = stop_event (self w)
                   ∨ verdict env JoomlaBruterClass cfg p = Some (FoundPassword p)
                     ∧ found_paths (self w')
                       = found_paths (self w) ++ [FoundPassword p]
                     ∧ stop_event (self w') = true)).
Proof.
  intros Hsess Hcls Hcfg Hok Hstep.
  assert (worker_loop w = (w', t') →
          task_ok env JoomlaBruterClass cfg t'
          ∧ ∃ concluded taken,
              taken = concluded ++ option_list (candidate_of t')
              ∧ queue (self w) = taken ++ queue (self w')
              ∧ sent w' = sent w ++ (probe_request JoomlaBruterClass cfg <$> taken)
              ∧ (taken ≠ [] → stop_event (self w) = false)
              ∧ concluded = []
              ∧ found_paths (self w') = found_paths (self w)
              ∧ stop_event (self w') = stop_event (self w)) as Hloop.
  { intros Hl. unfold worker_loop, session_send in Hl. unfold_M.
    destruct (queue (self w)) as [|cand q] eqn:Hq.
    { simplify_eq. split; [done|]. exists [], []. simpl.
      rewrite Hq, app_nil_r. by repeat split. }
    destruct (stop_event (self w)) eqn:Hst; simpl in Hl.
    { simplify_eq. split; [done|]. exists [], []. simpl.
      rewrite Hq, app_nil_r. by repeat split. }
    rewrite Hsess in Hl. simplify_eq. simpl. rewrite Hcls.
    split; [done|]. exists [], [cand]. simpl. by repeat split. }
  destruct t as [|cand req|cand req resp| | | |]; simpl in *; simplify_eq.
  - destruct (Hloop Hstep) as (Hok' & concluded & taken & H1 & H2 & H3 & H4 & H5).
    split; [done|]. exists concluded, taken. repeat split; try done. by left.
  - unfold on_response, probe_failed in *. rewrite Hcls in *.
    destruct (net env _) as [resp|e] eqn:Hnet.
    + simplify_eq. split; [done|]. exists [], []. simpl.
      rewrite app_nil_r. repeat split; try done. by left.
    + unfold after_login, except_return in *.
      assert (found_paths (self w') = found_paths (self w)
              ∧ stop_event (self w') = stop_event (self w)
              ∧ queue (self w') = queue (self w) ∧ sent w' = sent w
              ∧ candidate_of t' = None) as (Hf & Hst & Hqu & Hsn & Hc).
      { by destruct (is_Exception e); simplify_eq /=. }
      split; [by destruct t'|].
      exists [cand], []. simpl. rewrite Hc, Hqu, Hsn, app_nil_r.
      repeat split; try done. right. exists cand. split; [done|].
      split; [done|]. left. unfold verdict. simpl. by rewrite Hnet.
  - destruct Hok as [-> Hnet]. unfold on_text in *. rewrite Hcls in *.
    unfold after_login, except_return, res_map in *.
    assert (∀ P : Prop,
              (queue (self w') = queue (self w) → sent w' = sent w →
               candidate_of t' = None →
               (verdict env JoomlaBruterClass (config (self w)) cand = None
                ∧ found_paths (self w') = found_paths (self w)
                ∧ stop_event (self w') = stop_event (self w)
                ∨ verdict env JoomlaBruterClass (config (self w)) cand
                  = Some (FoundPassword cand)
                  ∧ found_paths (self w')
                    = found_paths (self w) ++ [FoundPassword cand]
                  ∧ stop_event (self w') = true) → P) → P) as Hcase.
    { intros P HP. unfold verdict in HP. simpl in *. rewrite Hnet in HP.
      destruct (text resp) as [content|e]; simpl in *.
      - destruct (any_indicator _ _); simplify_eq /=; apply HP; auto.
      - destruct (is_Exception e); simplify_eq /=; apply HP; auto. }
    apply Hcase. intros Hqu Hsn Hc Hv.
    split; [by destruct t'|].
    exists [cand], []. simpl. rewrite Hc, Hqu, Hsn, app_nil_r.
    repeat split; try done. right. by exists cand.
  - destruct (sleep_returns _); simplify_eq.
    destruct (Hloop ltac:(done)) as (Hok' & concluded & taken & H1 & H2 & H3 & H4 & H5).
    split; [done|]. exists concluded, taken. repeat split; try done. by left.
  - split; [done|]. exists [], []. simpl. rewrite app_nil_r.
    repeat split; try done. by left.
Qed.

Lemma step_lone_worker env cfg candidates sent0 i u u' :
  lone_worker env cfg candidates sent0 u →
  step env i u = Some u' →
  lone_worker env cfg candidates sent0 u'.
Proof.
  intros (t & tried & Ht & Hok & Hsess & Hcls & Hcfg & Hcands & Hsent & Hbr)
         (t0 & wt & t' & Hi & Hstep & ->)%step_inv.
  rewrite Ht in Hi. destruct i as [|i]; simpl in Hi; [|by destruct i].
  injection Hi as <-. simpl.
  destruct (worker_step_login _ _ _ _ _ _ Hsess Hcls Hcfg Hok Hstep)
    as (Hok' & concluded & taken & E1 & E2 & E3 & E4 & E5).
  exists t', (tried ++ concluded). rewrite Ht. simpl.
  split; [done|]. split; [done|].
  split; [by rewrite (worker_step_session _ _ _ _ _ Hstep)|].
  split; [by rewrite (worker_step_cls _ _ _ _ _ Hstep)|].
  split; [by rewrite (worker_step_config _ _ _ _ _ Hstep)|].
  split.
  { rewrite Hcands, E2, (app_assoc (option_list _) taken), E1.
    by rewrite <- !app_assoc. }
  split.
  { rewrite E3, Hsent, <- !app_assoc, <- fmap_app, <- !app_assoc, E1.
    done. }
  destruct Hbr as [(Hst & Hf & Hnone)|(Hst & Hc & pre & p & -> & Hpre & Hp & Hf)].
  - destruct E5 as [(-> & Hf' & Hst')|(p & -> & Hc' & [(Hv & Hf' & Hst')|(Hv & Hf' & Hst')])].
    + left. rewrite app_nil_r. split; [congruence|]. split; [congruence|done].
    + left. split; [congruence|]. split; [congruence|].
      apply Forall_app. split; [done|]. by constructor.
    + right. split; [done|]. split; [done|]. exists tried, p.
      split; [done|]. split; [done|]. split; [done|]. by rewrite Hf', Hf.
  - assert (taken = []) as ->.
    { destruct taken as [|c tk]; [done|]. rewrite E4 in Hst; done. }
    rewrite Hc in E1. simpl in E1.
    destruct concluded as [|c cs]; [|done]. simpl in E1.
    destruct E5 as [(_ & Hf' & Hst')|(? & ? & _)]; [|done].
    right. rewrite app_nil_r. split; [congruence|].
    split; [by destruct (candidate_of t')|].
    exists pre, p. split; [done|]. split; [done|]. split; [done|]. congruence.
Qed.

Lemma lone_worker_run env sched u u' :
  ordinary_net env →
  cls (self u) = JoomlaBruterClass →
  threads (config (self u)) = 1 →
  found_paths (self u) = [] → stop_event (self u) = false →
  interrupts sched = 0%nat →
  run env sched u = Some (u', Ok ()) →
  ∃ lines tried,
    fs_open env (wordlist_path (config (self u))) = FileLines lines None
    ∧ queue (self u)
        ++ mjoin (entries (extensions (config (self u))) <$> words lines)
      = tried ++ queue (self u')
    ∧ sent u'
      = sent u ++ (probe_request JoomlaBruterClass (config (self u)) <$> tried)
    ∧ (found_paths (self u') = [] ∧ queue (self u') = []
       ∧ Forall (λ c, verdict env JoomlaBruterClass (config (self u)) c = None)
                tried
       ∨ ∃ pre p,
           tried = pre ++ [p]
           ∧ Forall (λ c, verdict env JoomlaBruterClass (config (self u)) c = None)
                    pre
           ∧ verdict env JoomlaBruterClass (config (self u)) p
             = Some (FoundPassword p)
           ∧ found_paths (self u') = [FoundPassword p]
           ∧ stop_event (self u') = true).
Proof.
  intros Hord Hcls Hthreads Hnil Hstop Hint Hrun.
  assert (0 < threads (config (self u))) as Hpos by lia.
  pose proof (run_drains _ _ _ _ Hrun Hpos) as Hdrain.
  apply run_inv in Hrun as (w3 & -> & H).
  assert (queue (self (close_session w3).1) = queue (self w3)
          ∧ found_paths (self (close_session w3).1) = found_paths (self w3)
          ∧ stop_event (self (close_session w3).1) = stop_event (self w3)
          ∧ sent (close_session w3).1 = sent w3) as (Eq & Ef & Es & Esn).
  { rewrite close_session_spec. by destruct (session (self w3)). }
  rewrite Eq, Es in Hdrain. rewrite Eq, Ef, Es, Esn. clear Eq Ef Es Esn.
  destruct H as [[_ [e ?]]|(w1 & Hs & H)]; [done|].
  destruct H as [[_ [e ?]]|(w2 & Ha & Hsave)]; [done|].
  assert (self w3 = self w2 ∧ sent w3 = sent w2) as [Eself Esent].
  { rewrite save_results_spec in Hsave.
    by destruct (found_paths (self w2)), (results_error env); simplify_eq. }
  rewrite Eself in *. rewrite Esent. clear Hsave Eself Esent w3.
  apply setup_Ok in Hs as (lines & _ & Hfile & Hw1).
  exists lines.
  set (cfg := config (self u)) in *.
  set (candidates :=
         queue (self u) ++ mjoin (line_entries (extensions cfg) <$> lines)).
  destruct (await_workers_uninterrupted env
              (lone_worker env cfg candidates (sent u)) sched w1 w2 (Ok ()) Hord)
    as (_ & (t & tried & Ht & _ & _ & _ & _ & Hcands & Hsent & Hbr) & Hfin);
    try done.
  { rewrite Hw1. apply replicate_Ready_wf. }
  { rewrite Hw1. apply replicate_Ready_undisturbed. }
  { intros i v v' _ Hv Hstep. by eapply step_lone_worker. }
  { exists Ready, []. rewrite Hw1. simpl. fold cfg. rewrite Hthreads.
    repeat split; try done; [by rewrite app_nil_r|].
    left. by repeat split. }
  rewrite Ht in Hfin. apply Forall_cons in Hfin as [-> _].
  simpl in Hcands, Hsent. rewrite app_nil_r in Hsent.
  exists tried. split; [done|].
  unfold candidates in Hcands. rewrite line_entries_words in Hcands.
  split; [done|]. split; [done|].
  destruct Hbr as [(Hst & Hf & Hnone)|(Hst & _ & pre & p & ? & ? & ? & ?)].
  - left. split; [done|]. split; [|done].
    destruct Hdrain as [?|?]; [done|congruence].
  - right. by exists pre, p.
Qed.

(** C3, as the code has it.  With an open session [brute_force_login]
    posts, following redirects, the template fields of the configuration
    updated with the username, the candidate as "passwd", "task" = "login"
    and "option" = "com_login"; the worker passes the username of the
    template (or "admin") for every candidate.  When the body is read the
    result is True if and only if the body contains a success indicator.
    On such a result the worker appends the password to [found_paths] and
    sets the event, after which no candidate leaves the queue and no
    request is sent any more.  A run never records more passwords than it
    has workers.  A run with one worker that is not interrupted tries the
    candidates in the order of the queue up to the first one the target
    accepts, records that one alone and leaves the others untried; when
    none is accepted it has tried them all. *)
Theorem first_valid_credential_stops env username password w :
  session (self w) = Some SessionOpen →
  let cfg := config (self w) in
  let data := login_data cfg username password in
  let req := POST (target_url cfg) data true in
  let out := brute_force_login env username password w in
  (data !! "username" = Some username
   ∧ data !! "passwd" = Some password
   ∧ data !! "task" = Some "login"
   ∧ data !! "option" = Some "com_login"
   ∧ ∀ k, k ∉ ["username"; "passwd"; "task"; "option"] →
          data !! k = form_data cfg !! k)
  ∧ probe_request JoomlaBruterClass cfg password
    = POST (target_url cfg)
        (login_data cfg (default "admin" (form_data cfg !! "username")) password)
        true
  ∧ sent out.1 = sent w ++ [req]
  ∧ (∀ resp content,
       net env req = Ok resp → text resp = Ok content →
       (out.2 = Ok true ↔ has_indicator cfg content)
       ∧ (¬ has_indicator cfg content → out.2 = Ok false))
  ∧ (∀ i u rq resp content,
       cls (self u) = JoomlaBruterClass →
       tasks u !! i = Some (AwaitText password rq resp) →
       text resp = Ok content → has_indicator (config (self u)) content →
       ∃ u',
         step env i u = Some u'
         ∧ found_paths (self u') = found_paths (self u) ++ [FoundPassword password]
         ∧ stop_event (self u') = true
         ∧ queue (self u') = queue (self u) ∧ sent u' = sent u
         ∧ ∀ u'', rtc (loop_step env) u' u'' →
                  stop_event (self u'') = true
                  ∧ queue (self u'') = queue (self u')
                  ∧ sent u'' = sent u')
  ∧ (∀ sched u u' r,
       cls (self u) = JoomlaBruterClass →
       found_paths (self u) = [] →
       run env sched u = Some (u', r) →
       (length (found_paths (self u'))
        ≤ Z.to_nat (threads (config (self u))))%nat)
  ∧ (∀ sched u u',
       ordinary_net env →
       cls (self u) = JoomlaBruterClass →
       threads (config (self u)) = 1 →
       found_paths (self u) = [] → stop_event (self u) = false →
       interrupts sched = 0%nat →
       run env sched u = Some (u', Ok ()) →
       ∃ lines tried,
         fs_open env (wordlist_path (config (self u))) = FileLines lines None
         ∧ queue (self u)
             ++ mjoin (entries (extensions (config (self u))) <$> words lines)
           = tried ++ queue (self u')
         ∧ sent u'
           = sent u
             ++ (probe_request JoomlaBruterClass (config (self u)) <$> tried)
         ∧ (found_paths (self u') = [] ∧ queue (self u') = []
            ∧ Forall (λ c, verdict env JoomlaBruterClass (config (self u)) c
                           = None) tried
            ∨ ∃ pre p,
                tried = pre ++ [p]
                ∧ Forall (λ c, verdict env JoomlaBruterClass (config (self u)) c
                               = None) pre
                ∧ verdict env JoomlaBruterClass (config (self u)) p
                  = Some (FoundPassword p)
                ∧ found_paths (self u') = [FoundPassword p]
                ∧ stop_event (self u') = true)).
Proof.
  intros Hsess cfg data req out.
  split; [apply login_data_lookup|]. split; [done|].
  assert (out = brute_force_login env username password w) as Hout by done.
  rewrite brute_force_login_spec, Hsess in Hout. fold cfg data req in Hout.
  clearbody out. subst out. simpl. split; [done|].
  split; [|split; [|split]].
  - intros resp content -> Htext. unfold res_map, except_return.
    rewrite Htext. rewrite <- any_indicator_spec.
    destruct (any_indicator cfg content); split; done.
  - intros i u rq resp content Hcls Ht Htext Hind. eexists.
    split; [by eapply step_login_hit|]. simpl.
    split; [done|]. split; [done|]. split; [done|]. split; [done|].
    intros u'' Hreach.
    by destruct (loop_steps_stopped _ _ _ Hreach eq_refl) as (? & ? & ? & _).
  - intros sched u u' r. apply run_passwords_bound.
  - intros sched u u'. apply lone_worker_run.
Qed.

Lemma first_valid_credential_stops_witness :
  let w := Examples.opened Examples.joomla_world in
  let u := on_self (set_config
                      {| target_url := "http://target/administrator";
                         wordlist_path := "passwords.txt"; extensions := [];
                         threads := 1; cookies := ∅; headers := ∅;
                         form_data := {["username" := "admin"]};
                         success_indicators := ["Control Panel"];
                         rate_limit_delay := 1 |})
                   Examples.joomla_world in
  session (self w) = Some SessionOpen
  ∧ sent (brute_force_login Examples.env_site "admin" "letmein" w).1
    = [POST "http://target/administrator"
         (login_data Examples.joomla_config "admin" "letmein") true]
  ∧ ((brute_force_login Examples.env_site "admin" "letmein" w).2 = Ok true
     ↔ has_indicator Examples.joomla_config "Joomla Control Panel")
  ∧ ∃ u', run Examples.env_site [] u = Some (u', Ok ())
          ∧ found_paths (self u') = [FoundPassword "letmein"]
          ∧ queue (self u') = ["a.b"]
          ∧ ∃ tried, ["123456"; "password"; "letmein"; "a.b"]
                     = tried ++ queue (self u')
                     ∧ sent u'
                       = probe_request JoomlaBruterClass (config (self u))
                           <$> tried.
Proof.
  split; [reflexivity|].
  destruct (first_valid_credential_stops Examples.env_site "admin" "letmein"
              (Examples.opened Examples.joomla_world) eq_refl)
    as (_ & _ & Hsent & Hhit & _ & _ & Hone).
  split; [exact Hsent|].
  split; [exact (proj1 (Hhit _ _ eq_refl eq_refl))|].
  eexists.
  match goal with
  | |- ?A ∧ _ => assert A as Hrun by (vm_compute; reflexivity)
  end.
  split; [exact Hrun|]. split; [reflexivity|]. split; [reflexivity|].
  match type of Hrun with
  | run _ ?sched ?u = Some (?u', _) =>
      destruct (Hone sched u u' site_is_ordinary eq_refl eq_refl eq_refl
                  eq_refl eq_refl Hrun)
        as (lines & tried & Hfile & Hq & Hs & _)
  end.
  exists tried. injection Hfile as <-. split; [exact Hq|exact Hs].
Defined.

(** C3 as stated fails with more than one worker: a login that is in
    flight when another worker sets the event still concludes, and when it
    is accepted too, two passwords are recorded. *)
Lemma two_workers_record_two_passwords_counterexample :
  let cfg := config (self Examples.joomla_world) in
  verdict Examples.env_lenient JoomlaBruterClass cfg "password"
  = Some (FoundPassword "password")
  ∧ verdict Examples.env_lenient JoomlaBruterClass cfg "letmein"
    = Some (FoundPassword "letmein")
  ∧ ∃ w', run Examples.env_lenient
              [Resume 0; Resume 1; Resume 0; Resume 0; Resume 0;
               Resume 1; Resume 1; Resume 0; Resume 0]
              Examples.joomla_world
          = Some (w', Ok ())
          ∧ found_paths (self w')
            = [FoundPassword "password"; FoundPassword "letmein"].
Proof.
  split; [reflexivity|]. split; [reflexivity|].
  eexists. split; [vm_compute; reflexivity|reflexivity].
Qed.
